(** * News aggregation server: ingestion job and query service

    A shallow embedding of [src/index.js]: the scheduled ingestion job
    [fetchAndStoreNews] and the three Express handlers [GET /api/news],
    [GET /api/filters] and [GET /api/status], over a model of the
    [Article] collection.

    JavaScript objects and stored documents are finite maps from property
    names to values; the collection is a list of documents in insertion
    order.

    Strings are sequences of 8-bit characters.  The string operations of
    the runtime ([toLowerCase], [trim], [parseInt], the matching of a
    pattern with option [i]) are modelled on ASCII text, where they agree
    with the runtime; what they do to other characters (the case of a
    non-ASCII letter, Unicode white space) is not modelled, and the
    properties below that depend on them are stated for ASCII text.
    Numbers are exact integers; they agree with the doubles of the
    runtime on the safe integers, up to 2^53 - 1, and the properties that
    report or multiply numbers are stated for these. *)

From Stdlib Require Import ZArith Lia Ascii String Sorting.Sorted Sorting.Permutation.
From stdpp Require Import base option list gmap strings.

Local Open Scope string_scope.
Local Open Scope Z_scope.

(** ** JavaScript values *)

Module Js.

(** The values that occur in a feed article, in a normalized record and in
    a stored document.  Arrays hold strings (the schema's [[String]]
    paths); [JDate None] is an Invalid Date (time value NaN); [JMixed] is
    the opaque [sentiment_stats] payload. *)
Inductive JsVal :=
| JUndefined
| JNull
| JBool (b : bool)
| JNum (n : Z)
| JStr (s : string)
| JArr (items : list string)
| JDate (time : option Z)
| JMixed (raw : string).

#[global] Instance JsVal_eq_dec : EqDecision JsVal.
Proof. solve_decision. Defined.

(** A JavaScript number as produced by [parseInt] and by the arithmetic of
    the list handler.  Signed zeros are not distinguished. *)
Inductive JsNum :=
| NaN
| PosInf
| NegInf
| Num (z : Z).

#[global] Instance JsNum_eq_dec : EqDecision JsNum.
Proof. solve_decision. Defined.

(** [ToBoolean]. *)
Definition truthy (v : JsVal) : bool :=
  match v with
  | JUndefined | JNull => false
  | JBool b => b
  | JNum n => negb (n =? 0)
  | JStr s => negb (String.eqb s "")
  | JArr _ | JDate _ | JMixed _ => true
  end.

(** [a || b]. *)
Definition or_else (a b : JsVal) : JsVal := if truthy a then a else b.

(** Property read [o.k]: a missing property reads as [undefined]. *)
Definition get (o : gmap string JsVal) (k : string) : JsVal :=
  default JUndefined (o !! k).

(** [TimeClip]: a time value outside +-8.64e15 ms is NaN. *)
Definition time_clip (t : Z) : option Z :=
  if (Z.abs t <=? 8640000000000000) then Some t else None.

(** [Array.prototype.join(",")] on an array of strings. *)
Fixpoint join_comma (l : list string) : string :=
  match l with
  | [] => ""
  | [s] => s
  | s :: rest => s +:+ "," +:+ join_comma rest
  end.

(** What the model takes from the JavaScript engine and its host:
    [Date_parse] is [Date.parse], the time value of a date string or
    [None] for NaN (outside the ISO format its result is left to the
    engine); [LocalTZA t isUTC] is the offset of local time from UTC in
    ms, as ECMAScript has it: for [isUTC = true] the offset in effect at
    the UTC time [t], for [isUTC = false] the offset that the zone
    assigns to the local time [t].  With daylight saving the offset
    changes with [t]. *)
Record Engine := mkEngine {
  Date_parse : string -> option Z;
  LocalTZA : Z -> bool -> Z
}.

(** [new Date(v)] applied to one argument. *)
Definition new_Date (E : Engine) (v : JsVal) : JsVal :=
  match v with
  | JDate t => JDate t
  | JStr s => JDate (Date_parse E s)
  | JNum n => JDate (time_clip n)
  | JBool b => JDate (Some (if b then 1 else 0))
  | JNull => JDate (Some 0)
  | JUndefined => JDate None
  | JArr l => JDate (Date_parse E (join_comma l))
  | JMixed _ => JDate (Date_parse E "[object Object]")
  end.

(** [d.setHours(23, 59, 59, 999)] on a time value [t]: the local time of
    [t] ([LocalTime]), the last millisecond of its day ([MakeDate] of
    its day and [MakeTime(23, 59, 59, 999)]), back to UTC ([UTC]) and
    through [TimeClip]; [None] is the time value NaN. *)
Definition end_of_local_day (E : Engine) (t : Z) : option Z :=
  let local := t + LocalTZA E t true in
  let date := local - local mod 86400000 + 86399999 in
  time_clip (date - LocalTZA E date false).

End Js.
Export Js.

(** ** String operations of the runtime *)

Module Str.

Definition code (c : ascii) : Z := Z.of_nat (nat_of_ascii c).

Definition is_upper (c : ascii) : bool := (65 <=? code c) && (code c <=? 90).

(** [String.prototype.toLowerCase] on one character of ASCII text: the
    letters A to Z have a lower-case form, every other ASCII character is
    its own.  (Characters outside ASCII are left as they are here; the
    runtime maps them by the Unicode tables.) *)
Definition lower_char (c : ascii) : ascii :=
  if is_upper c then ascii_of_nat (nat_of_ascii c + 32) else c.

Fixpoint toLowerCase (s : string) : string :=
  match s with
  | EmptyString => EmptyString
  | String c rest => String (lower_char c) (toLowerCase rest)
  end.


(** The white space of ASCII text, which [trim] and [parseInt] strip:
    TAB, LF, VT, FF, CR and the space.  (The runtime strips the white
    space outside ASCII as well, such as the no-break space.) *)
Definition is_space (c : ascii) : bool :=
  ((9 <=? code c) && (code c <=? 13)) || (code c =? 32).

Fixpoint trimStart (s : string) : string :=
  match s with
  | EmptyString => EmptyString
  | String c rest => if is_space c then trimStart rest else s
  end.

Fixpoint rev_onto (s acc : string) : string :=
  match s with
  | EmptyString => acc
  | String c rest => rev_onto rest (String c acc)
  end.

Definition reverse (s : string) : string := rev_onto s EmptyString.

Definition trimEnd (s : string) : string := reverse (trimStart (reverse s)).

(** [String.prototype.trim]. *)
Definition trim (s : string) : string := trimEnd (trimStart s).

(** [s.split(",")]: the pieces between the commas, in order; the empty
    string splits into one empty piece. *)
Fixpoint split_comma (s : string) : list string :=
  match s with
  | EmptyString => [EmptyString]
  | String c rest =>
      if Ascii.eqb c "," then EmptyString :: split_comma rest
      else match split_comma rest with
           | piece :: pieces => String c piece :: pieces
           | [] => [String c EmptyString]
           end
  end.

(** Value of a digit in the given radix, if it is one. *)
Definition digit_value (radix : Z) (c : ascii) : option Z :=
  let n := code c in
  let v := if (48 <=? n) && (n <=? 57) then n - 48
           else if (97 <=? n) && (n <=? 122) then n - 87
           else if (65 <=? n) && (n <=? 90) then n - 55
           else radix in
  if v <? radix then Some v else None.

(** The longest prefix of digits, accumulated from the left: [None] when
    the string does not start with a digit. *)
Fixpoint digits_prefix (radix : Z) (acc : option Z) (s : string) : option Z :=
  match s with
  | EmptyString => acc
  | String c rest =>
      match digit_value radix c with
      | Some v => digits_prefix radix (Some (default 0 acc * radix + v)) rest
      | None => acc
      end
  end.

(** [parseInt(s)] without a radix: leading white space and one sign are
    skipped, a [0x] prefix selects radix 16, the longest digit prefix is
    read, and the result is NaN when that prefix is empty.  The integer is
    exact: the runtime's result is this integer rounded to a double, and
    so the same number whenever it is a safe integer. *)
Definition parseInt (s : string) : JsNum :=
  let s1 := trimStart s in
  let '(negative, s2) :=
    match s1 with
    | String "-" rest => (true, rest)
    | String "+" rest => (false, rest)
    | _ => (false, s1)
    end in
  let '(radix, s3) :=
    match s2 with
    | String "0" (String "x" rest) => (16, rest)
    | String "0" (String "X" rest) => (16, rest)
    | _ => (10, s2)
    end in
  match digits_prefix radix None s3 with
  | None => NaN
  | Some n => Num (if negative then - n else n)
  end.

(** Days from 1970-01-01 to a civil date of the proleptic Gregorian
    calendar. *)
Definition days_from_civil (y m d : Z) : Z :=
  let y' := if m <=? 2 then y - 1 else y in
  let era := y' / 400 in
  let yoe := y' - era * 400 in
  let doy := (153 * (if 2 <? m then m - 3 else m + 9) + 2) / 5 + d - 1 in
  let doe := yoe * 365 + yoe / 4 - yoe / 100 + doy in
  era * 146097 + doe - 719468.

Definition is_leap (y : Z) : bool :=
  ((y mod 4 =? 0) && negb (y mod 100 =? 0)) || (y mod 400 =? 0).

Definition days_in_month (y m : Z) : Z :=
  if m =? 2 then (if is_leap y then 29 else 28)
  else if (m =? 4) || (m =? 6) || (m =? 9) || (m =? 11) then 30 else 31.

(** Exactly [n] decimal digits. *)
Fixpoint fixed_digits (n : nat) (acc : Z) (s : string) : option (Z * string) :=
  match n with
  | O => Some (acc, s)
  | S n' =>
      match s with
      | String c rest =>
          match digit_value 10 c with
          | Some v => fixed_digits n' (acc * 10 + v) rest
          | None => None
          end
      | EmptyString => None
      end
  end.

(** A reference instance of [Date.parse] for the date-only form
    [YYYY-MM-DD] of the ECMAScript date-time format, read as midnight UTC.
    Every other string is unparseable here. *)
Definition iso_date_parse (s : string) : option Z :=
  match fixed_digits 4 0 s with
  | Some (y, String "-" s1) =>
      match fixed_digits 2 0 s1 with
      | Some (m, String "-" s2) =>
          match fixed_digits 2 0 s2 with
          | Some (d, EmptyString) =>
              if (1 <=? m) && (m <=? 12) && (1 <=? d) && (d <=? days_in_month y m)
              then Some (days_from_civil y m d * 86400000)
              else None
          | _ => None
          end
      | _ => None
      end
  | _ => None
  end.

End Str.
Export Str.


(** ** The world of the process: store, log and clock *)

(** A JavaScript object or a stored document. *)
Abbreviation Doc := (gmap string JsVal).

(** The [Article] collection behind its connection.  [outage] is the error
    message with which every store operation rejects while the store is
    unreachable; [readyState] is [mongoose.connection.readyState].  The
    store-generated [_id] of a document is not modelled. *)
Record Db := mkDb {
  collection : list Doc;
  outage : option string;
  readyState : Z
}.

(** A thrown value: an [Error] with its [message] and, for an HTTP error of
    the feed, the body of the response ([err.response.data]) as the log
    prints it; the empty string stands for a body that counts as false. *)
Record JsError := mkError {
  message : string;
  response_data : option string
}.

(** The lines written with [console.log] and [console.error]. *)
Inductive LogLine :=
| LogFetching (now : Z)
| LogNoArticles
| LogDone (inserted updated total : Z)
| LogFetchError (detail : string)
| LogNewsError (msg : string).

(** [reads] counts the clock readings taken so far. *)
Record World := mkWorld {
  db : Db;
  log : list LogLine;
  reads : nat
}.

Definition set_db (d : Db) (w : World) : World :=
  mkWorld d (log w) (reads w).

Definition set_collection (c : list Doc) (w : World) : World :=
  set_db (mkDb c (outage (db w)) (readyState (db w))) w.

(** ** Asynchronous code with exceptions

    An [async] body is a state transformer on the world that ends in a
    value or in a thrown error; the world reached before a throw is kept
    (nothing is rolled back). *)

Module Async.

(** How a body ends: with a value, with a thrown error, or outside what
    the model describes (a regular expression with a construct that the
    model of the matcher does not cover). *)
Inductive Completion (A : Type) :=
| Normal (a : A)
| Throw (e : JsError)
| Beyond.
Arguments Normal {A} a.
Arguments Throw {A} e.
Arguments Beyond {A}.

Definition M (A : Type) : Type := World -> Completion A * World.

Definition ret {A} (a : A) : M A := fun w => (Normal a, w).

Definition bind {A B} (m : M A) (k : A -> M B) : M B :=
  fun w => match m w with
           | (Normal a, w') => k a w'
           | (Throw e, w') => (Throw e, w')
           | (Beyond, w') => (Beyond, w')
           end.

Definition throw {A} (e : JsError) : M A := fun w => (Throw e, w).

Definition beyond {A} : M A := fun w => (Beyond, w).

(** [try { body } catch (err) { handler }]. *)
Definition try_catch {A} (body : M A) (handler : JsError -> M A) : M A :=
  fun w => match body w with
           | (Throw e, w') => handler e w'
           | other => other
           end.

Definition console (l : LogLine) : M unit :=
  fun w => (Normal tt, mkWorld (db w) (log w ++ [l]) (reads w)).

Definition read_db : M Db := fun w => (Normal (db w), w).

Definition write_collection (c : list Doc) : M unit :=
  fun w => (Normal tt, set_collection c w).

(** [for (const x of xs) { acc = body x acc }]. *)
Fixpoint for_of {A S} (xs : list A) (body : A -> S -> M S) (acc : S) : M S :=
  match xs with
  | [] => ret acc
  | x :: rest => bind (body x acc) (for_of rest body)
  end.

End Async.
Import Async.

Notation "'await' x <- m ; k" := (bind m (fun x => k))
  (at level 10, x name, m at level 100, k at level 200).
Notation "'await_' m ; k" := (bind m (fun _ => k))
  (at level 10, m at level 100, k at level 200).


(** ** Regular expressions of the store ([$regex])

    The store matches a [$regex] pattern with a Perl-compatible matcher,
    anywhere in the subject.  The model covers the patterns built from
    literal characters, [.], the anchors, escaped punctuation, groups,
    alternation and the quantifiers [*], [+] and [?] (also lazy).  A
    pattern that is malformed is [Invalid] (the store rejects the query);
    a pattern with any other construct (classes, braces, escapes with a
    letter or digit, group options, possessive quantifiers) is
    [Unsupported]: the model says nothing about it. *)

Module Regex.

Inductive regex :=
| Empty
| Lit (c : ascii)
| AnyChar
| Seq (r1 r2 : regex)
| Alt (r1 r2 : regex)
| Star (r : regex)
| Bol
| Eol.

Inductive Compiled :=
| Pattern (r : regex)
| Invalid
| Unsupported.

(** The pattern is read from left to right.  A frame is a group that is
    still open: its finished alternatives and the items of the current
    one, last item first. *)
Record Frame := mkFrame {
  alts : list regex;
  items : list regex
}.

(** What stands just before the reader. *)
Inductive Mode :=
| MNone      (* nothing that could be repeated *)
| MOpen      (* an opening parenthesis *)
| MAtom      (* an item that can be repeated *)
| MAnchor    (* an anchor *)
| MQuant     (* a quantifier *)
| MDone      (* a quantifier with its lazy mark *)
| MEsc.      (* a backslash *)

Record PState := mkP {
  stack : list Frame;
  cur : Frame;
  mode : Mode
}.

Inductive Step :=
| Go (st : PState)
| Stop (c : Compiled).

Definition seq_regex (rs : list regex) : regex := fold_right Seq Empty rs.

Definition frame_regex (f : Frame) : regex :=
  fold_right Alt (seq_regex (rev (items f))) (alts f).

Definition push (r : regex) (m : Mode) (st : PState) : Step :=
  Go (mkP (stack st) (mkFrame (alts (cur st)) (r :: items (cur st))) m).

Definition quantify (q : regex -> regex) (st : PState) : Step :=
  match items (cur st) with
  | r :: rest => Go (mkP (stack st) (mkFrame (alts (cur st)) (q r :: rest)) MQuant)
  | [] => Stop Invalid
  end.

Definition is_alnum (c : ascii) : bool :=
  ((48 <=? code c) && (code c <=? 57)) || ((65 <=? code c) && (code c <=? 90))
  || ((97 <=? code c) && (code c <=? 122)).

(** The characters with a special meaning outside a character class. *)
Definition is_meta (c : ascii) : bool :=
  Ascii.eqb c "\" || Ascii.eqb c "^" || Ascii.eqb c "$" || Ascii.eqb c "."
  || Ascii.eqb c "[" || Ascii.eqb c "|" || Ascii.eqb c "(" || Ascii.eqb c ")"
  || Ascii.eqb c "?" || Ascii.eqb c "*" || Ascii.eqb c "+" || Ascii.eqb c "{".

Definition step (st : PState) (c : ascii) : Step :=
  match mode st with
  | MEsc => if is_alnum c then Stop Unsupported else push (Lit c) MAtom st
  | m =>
      if Ascii.eqb c "\" then Go (mkP (stack st) (cur st) MEsc)
      else if Ascii.eqb c "(" then Go (mkP (cur st :: stack st) (mkFrame [] []) MOpen)
      else if Ascii.eqb c ")" then
        match stack st with
        | [] => Stop Invalid
        | parent :: outer =>
            Go (mkP outer
                  (mkFrame (alts parent) (frame_regex (cur st) :: items parent))
                  MAtom)
        end
      else if Ascii.eqb c "|" then
        Go (mkP (stack st)
              (mkFrame (alts (cur st) ++ [seq_regex (rev (items (cur st)))]) [])
              MNone)
      else if Ascii.eqb c "*" then
        match m with
        | MAtom => quantify Star st
        | MOpen | MAnchor => Stop Unsupported
        | _ => Stop Invalid
        end
      else if Ascii.eqb c "+" then
        match m with
        | MAtom => quantify (fun r => Seq r (Star r)) st
        | MQuant | MAnchor => Stop Unsupported
        | _ => Stop Invalid
        end
      else if Ascii.eqb c "?" then
        match m with
        | MAtom => quantify (fun r => Alt r Empty) st
        | MQuant => Go (mkP (stack st) (cur st) MDone)
        | MOpen | MAnchor => Stop Unsupported
        | _ => Stop Invalid
        end
      else if Ascii.eqb c "[" || Ascii.eqb c "{" then Stop Unsupported
      else if Ascii.eqb c "." then push AnyChar MAtom st
      else if Ascii.eqb c "^" then push Bol MAnchor st
      else if Ascii.eqb c "$" then push Eol MAnchor st
      else push (Lit c) MAtom st
  end.

Definition finish (st : PState) : Compiled :=
  match mode st, stack st with
  | MEsc, _ => Invalid
  | _, [] => Pattern (frame_regex (cur st))
  | _, _ :: _ => Invalid
  end.

Fixpoint read (st : PState) (p : string) : Compiled :=
  match p with
  | EmptyString => finish st
  | String c rest =>
      match step st c with
      | Go st' => read st' rest
      | Stop r => r
      end
  end.

Definition compile (p : string) : Compiled :=
  read (mkP [] (mkFrame [] []) MNone) p.

(** Two characters are the same for the matcher; under the option [i]
    the letters of ASCII text are compared without their case.  (The
    store also takes a non-ASCII letter for its other case, and a few
    non-ASCII characters for an ASCII letter; the properties of a search
    are stated for ASCII text.) *)
Definition same_char (ci : bool) (a b : ascii) : bool :=
  if ci then Ascii.eqb (lower_char a) (lower_char b) else Ascii.eqb a b.

Definition line_feed : ascii := ascii_of_nat 10.

(** The positions reached from the positions in [front] by repeating
    [move] up to [fuel] times. *)
Fixpoint closure (fuel : nat) (move : nat -> list nat) (front : list nat) : list nat :=
  match fuel with
  | O => front
  | S n => front ++ closure n move (remove_dups (flat_map move front))
  end.

(** [ends ci r s i]: the positions at which a match of [r] that starts at
    position [i] of [s] can end. *)
Fixpoint ends (ci : bool) (r : regex) (s : list ascii) (i : nat) : list nat :=
  match r with
  | Empty => [i]
  | Lit c =>
      match s !! i with
      | Some c' => if same_char ci c c' then [S i] else []
      | None => []
      end
  | AnyChar =>
      match s !! i with
      | Some c' => if Ascii.eqb c' line_feed then [] else [S i]
      | None => []
      end
  | Seq r1 r2 => flat_map (ends ci r2 s) (ends ci r1 s i)
  | Alt r1 r2 => ends ci r1 s i ++ ends ci r2 s i
  | Star r1 => closure (length s) (ends ci r1 s) [i]
  | Bol => if Nat.eqb i 0 then [i] else []
  | Eol =>
      if Nat.eqb i (length s)
         || (Nat.eqb (S i) (length s) && bool_decide (s !! i = Some line_feed))
      then [i] else []
  end.

(** A match somewhere in the subject. *)
Definition search (ci : bool) (r : regex) (subject : string) : bool :=
  let s := list_ascii_of_string subject in
  existsb (fun i => negb (bool_decide (ends ci r s i = []))) (seq 0 (S (length s))).

End Regex.
(** ** The Article model (Mongoose over MongoDB) *)

Module Article.

(** The result object of [updateOne]. *)
Record UpdateResult := mkUpdateResult {
  matchedCount : Z;
  modifiedCount : Z;
  upsertedCount : Z
}.

(** The value under which the unique index on [article_id] files a value:
    a missing or [undefined] key is indexed, and matched by an equality
    filter, as [null]. *)
Definition index_key (v : JsVal) : JsVal :=
  match v with
  | JUndefined => JNull
  | _ => v
  end.

Definition article_id_of (r : Doc) : JsVal := index_key (get r "article_id").

(** The filter [{ article_id: id }] on one document. *)
Definition matches_article_id (id : JsVal) (r : Doc) : bool :=
  bool_decide (article_id_of r = index_key id).

(** Position of the first document that the filter selects. *)
Fixpoint find_index (id : JsVal) (c : list Doc) : option nat :=
  match c with
  | [] => None
  | r :: rest =>
      if matches_article_id id r then Some O
      else S <$> find_index id rest
  end.

(** Mongoose removes the keys whose value is [undefined] from an update
    before it is sent (since version 6; there is no [omitUndefined]
    switch any more), so such a key is not written at all. *)
Definition strip_undefined (doc : Doc) : Doc :=
  filter (fun kv => kv.2 <> JUndefined) doc.

(** The types of the paths of [articleSchema]. *)
Inductive SchemaType := TString | TNumber | TBoolean | TDate | TStrings | TMixed.

(** [articleSchema], path by path. *)
Definition articleSchema : list (string * SchemaType) :=
  [("article_id", TString); ("title", TString); ("link", TString);
   ("keywords", TStrings); ("creator", TStrings); ("video_url", TString);
   ("description", TString); ("content", TString); ("pubDate", TDate);
   ("image_url", TString); ("source_id", TString); ("source_priority", TNumber);
   ("source_url", TString); ("source_icon", TString); ("language", TString);
   ("country", TStrings); ("category", TStrings); ("ai_tag", TString);
   ("sentiment", TString); ("sentiment_stats", TMixed); ("ai_region", TString);
   ("ai_org", TString); ("duplicate", TBoolean); ("datatype", TString)].

(** A value that the cast of a path writes as it is: a value of the
    type of the path, [null] at a path that is not an array, or
    [undefined] (which is not written at all).  Every value is of type
    [Mixed]. *)
Definition fits (t : SchemaType) (v : JsVal) : bool :=
  match t, v with
  | TMixed, _ => true
  | _, JUndefined => true
  | TStrings, JArr _ => true
  | TStrings, _ => false
  | _, JNull => true
  | TString, JStr _ => true
  | TNumber, JNum _ => true
  | TBoolean, JBool _ => true
  | TDate, JDate (Some _) => true
  | _, _ => false
  end.

(** Every value of the record fits the path under which it is written. *)
Definition fits_schema (doc : Doc) : bool :=
  forallb (fun path => fits path.2 (get doc path.1)) articleSchema.

(** Casting the update to the schema, for what the model covers of it: an
    Invalid Date at the [Date] path [pubDate] is a CastError (its message
    stands for the one of Mongoose, whose wording is not modelled).  At
    the other paths a value that fits is written as it is; a value that
    does not fit (a number at a [String] path, an array at [ai_tag]) is
    converted or rejected by Mongoose, which is not modelled: what is
    stored is described for records that fit the schema
    ([fits_schema]). *)
Definition cast_update (doc : Doc) : option JsError :=
  match doc !! "pubDate" with
  | Some (JDate None) =>
      Some (mkError "Cast to date failed for value Invalid Date at path pubDate" None)
  | _ => None
  end.

(** The operators that reach the store for
    [updateOne({ article_id }, { $set: doc }, { upsert: true })] under
    [timestamps: true]: [$set] of the given keys and of [updatedAt], and
    on insert the filter's equality, [createdAt] and the version key. *)
Definition set_fields (now : Z) (doc : Doc) : Doc :=
  <["updatedAt" := JDate (Some now)]> (strip_undefined doc).

(** [$set] writes the given keys over the stored document and leaves every
    other key of it as it is. *)
Definition apply_set (sets r : Doc) : Doc := sets ∪ r.

Definition inserted_doc (now : Z) (id : JsVal) (doc : Doc) : Doc :=
  apply_set (set_fields now doc)
    (<["article_id" := index_key id]>
       (<["createdAt" := JDate (Some now)]> {["__v" := JNum 0]})).

Section Clock.
(** [clock k] is the k-th reading of the system clock, in ms. *)
Variable clock : nat -> Z.

(** [new Date()] / [Date.now()]. *)
Definition now : M Z :=
  fun w => (Normal (clock (reads w)), mkWorld (db w) (log w) (S (reads w))).

(** [await Article.updateOne({ article_id: id }, { $set: doc },
    { upsert: true })]. *)
Definition updateOne (id : JsVal) (doc : Doc) : M UpdateResult :=
  match cast_update doc with
  | Some e => throw e
  | None =>
      await d <- read_db;
      match outage d with
      | Some msg => throw (mkError msg None)
      | None =>
          await t <- now;
          match find_index id (collection d) with
          | Some i =>
              match collection d !! i with
              | Some r =>
                  let r' := apply_set (set_fields t doc) r in
                  await_ write_collection (<[i := r']> (collection d));
                  ret (mkUpdateResult 1 (if bool_decide (r' = r) then 0 else 1) 0)
              | None => ret (mkUpdateResult 0 0 0)
              end
          | None =>
              await_ write_collection (collection d ++ [inserted_doc t id doc]);
              ret (mkUpdateResult 0 0 1)
          end
      end
  end.
End Clock.

(** *** Filters *)

(** [{ $gte, $lte }] on [pubDate]: each bound absent or a Date, whose
    time value is [None] for an Invalid Date. *)
Record DateRange := mkRange {
  gte : option (option Z);
  lte : option (option Z)
}.

(** The filter object that [GET /api/news] builds, key by key:
    [creator] holds the pattern of [{ $elemMatch: { $regex, $options: "i" } }],
    [country] the list of [$in], [category] the list of [$all], and
    [or_search] the pattern of the two [$regex] branches of [$or]. *)
Record Filter := mkFilter {
  f_pubDate : option DateRange;
  f_creator : option string;
  f_language : option string;
  f_country : option (list string);
  f_category : option (list string);
  f_datatype : option string;
  f_or_search : option string
}.

Definition no_filter : Filter := mkFilter None None None None None None None.

(** The strings that a stored value offers to a comparison: a string
    itself, an array each of its entries. *)
Definition field_strings (v : JsVal) : list string :=
  match v with
  | JStr s => [s]
  | JArr l => l
  | _ => []
  end.

(** [{ field: s }]. *)
Definition eq_match (s : string) (v : JsVal) : bool :=
  bool_decide (s ∈ field_strings v).

(** [{ field: { $in: vs } }]: some value of the list is offered. *)
Definition in_match (vs : list string) (v : JsVal) : bool :=
  existsb (fun x => bool_decide (x ∈ field_strings v)) vs.

(** [{ field: { $all: vs } }]: every value of the list is offered. *)
Definition all_match (vs : list string) (v : JsVal) : bool :=
  forallb (fun x => bool_decide (x ∈ field_strings v)) vs.

(** [{ field: { $regex: p, $options: "i" } }]. *)
Definition regex_match (r : Regex.regex) (v : JsVal) : bool :=
  existsb (Regex.search true r) (field_strings v).

(** [{ field: { $elemMatch: { $regex: p, $options: "i" } } }]: only an
    array has elements. *)
Definition elem_regex_match (r : Regex.regex) (v : JsVal) : bool :=
  match v with
  | JArr l => existsb (Regex.search true r) l
  | _ => false
  end.

Definition range_match (lo hi : option Z) (v : JsVal) : bool :=
  match v with
  | JDate (Some t) =>
      match lo with Some a => a <=? t | None => true end
      && match hi with Some b => t <=? b | None => true end
  | _ => false
  end.

(** A filter as the store evaluates it: a test on documents, a rejection
    with its message, or a filter outside the model. *)
Inductive Prepared :=
| Ready (test : Doc -> bool)
| Rejects (msg : string)
| Uncovered.

Definition cast_range (r : option DateRange) : option (option Z * option Z) :=
  match r with
  | None => Some (None, None)
  | Some (mkRange (Some None) _) | Some (mkRange _ (Some None)) => None
  | Some (mkRange lo hi) => Some (mjoin lo, mjoin hi)
  end.

Definition compile_opt (p : option string) : Regex.Compiled :=
  match p with
  | None => Regex.Pattern Regex.Empty
  | Some s => Regex.compile s
  end.

Definition when {A} (o : option A) (test : A -> bool) : bool :=
  match o with
  | Some a => test a
  | None => true
  end.

(** The keys of a filter hold together; the branches of [$or] are
    alternatives. *)
Definition prepare (f : Filter) : Prepared :=
  match cast_range (f_pubDate f) with
  | None => Rejects "Cast to date failed for value Invalid Date at path pubDate"
  | Some (lo, hi) =>
      match compile_opt (f_creator f), compile_opt (f_or_search f) with
      | Regex.Invalid, _ | _, Regex.Invalid => Rejects "Regular expression is invalid"
      | Regex.Unsupported, _ | _, Regex.Unsupported => Uncovered
      | Regex.Pattern ra, Regex.Pattern rs =>
          Ready (fun r =>
            when (f_pubDate f) (fun _ => range_match lo hi (get r "pubDate"))
            && when (f_creator f) (fun _ => elem_regex_match ra (get r "creator"))
            && when (f_language f) (fun s => eq_match s (get r "language"))
            && when (f_country f) (fun vs => in_match vs (get r "country"))
            && when (f_category f) (fun vs => all_match vs (get r "category"))
            && when (f_datatype f) (fun s => eq_match s (get r "datatype"))
            && when (f_or_search f) (fun _ =>
                 regex_match rs (get r "title")
                 || regex_match rs (get r "description")))
      end
  end.

(** *** Reading *)

(** The sort key of [{ pubDate: -1 }]: a document without a date sorts as
    the least value. *)
Definition pubDate_key (r : Doc) : option Z :=
  match get r "pubDate" with
  | JDate (Some t) => Some t
  | _ => None
  end.

Definition not_older (a b : Doc) : bool :=
  match pubDate_key a, pubDate_key b with
  | Some x, Some y => y <=? x
  | Some _, None => true
  | None, Some _ => false
  | None, None => true
  end.

Fixpoint insert_by_date (r : Doc) (l : list Doc) : list Doc :=
  match l with
  | [] => [r]
  | x :: rest => if not_older r x then r :: l else x :: insert_by_date r rest
  end.

(** [.sort({ pubDate: -1 })]: newest first.  The sort has no further
    key, and the store leaves open in which order it returns documents
    with equal keys; here they stay in the order of the collection.
    What the properties below say of an order holds for every order of
    such documents, or is stated for documents with different dates. *)
Definition sort_newest_first (l : list Doc) : list Doc :=
  fold_right insert_by_date [] l.

(** [skip] as the server reads it: NaN counts as 0, a negative value is
    rejected. *)
Definition skip_count (skip : JsNum) : option (option nat) :=
  match skip with
  | NaN => Some (Some O)
  | Num z => if z <? 0 then None else Some (Some (Z.to_nat z))
  | PosInf => Some None
  | NegInf => None
  end.

(** [limit] as the driver and the server read it: a negative value counts
    as its absolute value, NaN as 0, and 0 is no limit at all. *)
Definition limit_count (limit : JsNum) : option nat :=
  match limit with
  | Num z => if z =? 0 then None else Some (Z.to_nat (Z.abs z))
  | NaN | PosInf | NegInf => None
  end.

Definition window (skip : option nat) (limit : option nat) (rows : list Doc) : list Doc :=
  match skip with
  | None => []
  | Some n =>
      let rest := drop n rows in
      match limit with
      | Some m => take m rest
      | None => rest
      end
  end.

Definition prepared (f : Filter) : M (Doc -> bool) :=
  match prepare f with
  | Ready test => ret test
  | Rejects msg => throw (mkError msg None)
  | Uncovered => beyond
  end.

Definition connected : M (list Doc) :=
  await d <- read_db;
  match outage d with
  | Some msg => throw (mkError msg None)
  | None => ret (collection d)
  end.

(** [await Article.find(f).sort({ pubDate: -1 }).skip(skip).limit(limit).lean()]. *)
Definition find_page (f : Filter) (skip limit : JsNum) : M (list Doc) :=
  await rows <- connected;
  await test <- prepared f;
  match skip_count skip with
  | None => throw (mkError "BSON field 'skip' value must be >= 0" None)
  | Some n => ret (window n (limit_count limit) (sort_newest_first (List.filter test rows)))
  end.

(** [await Article.countDocuments(f)]. *)
Definition countDocuments (f : Filter) : M Z :=
  await rows <- connected;
  await test <- prepared f;
  ret (Z.of_nat (length (List.filter test rows))).

(** [await Article.findOne().sort({ pubDate: -1 }).lean()]: the first
    document in that order, or [None] for [null]. *)
Definition findOne_newest : M (option Doc) :=
  await rows <- connected;
  ret (head (sort_newest_first rows)).

(** The values that [distinct(field)] collects from one document: the
    entries of an array, a string, or [None] for a stored [null]; a
    missing key gives nothing. *)
Definition distinct_values (field : string) (r : Doc) : list (option string) :=
  match r !! field with
  | Some (JArr l) => Some <$> l
  | Some (JStr s) => [Some s]
  | Some JNull => [None]
  | _ => []
  end.

(** [await Article.distinct(field)] at a [String] or [[String]] path. *)
Definition distinct (field : string) : M (list (option string)) :=
  await rows <- connected;
  ret (remove_dups (flat_map (distinct_values field) rows)).

End Article.
(** ** The ingestion job *)

(** What [axios.get] delivers: a rejection (network error, a status
    outside 2xx with its error body), or the [results] property of a 2xx
    body.  A 2xx body that is not JSON is handed over as text and has no
    [results].  The model covers a [results] that is missing or counts
    as false, an array of objects, and a value that counts as true
    without a [length] ([true], a number, an object such as an error
    description).  A non-empty string (which the loop would visit
    character by character), an array with an entry that is not an
    object, and an object with a [length] of its own are not covered. *)
Inductive Results :=
| ResultsMissing                       (* no body, no [results], or a falsy one *)
| ResultsArray (articles : list Doc)
| ResultsObject.                       (* a truthy value without a [length] *)

Inductive FetchOutcome :=
| Rejected (err : JsError)
| Resolved (results : Results).

Definition axios_get (f : FetchOutcome) : M Results :=
  match f with
  | Rejected e => throw e
  | Resolved r => ret r
  end.

(** [response.data?.results || []], with its [length]: [None] stands for a
    [length] that is [undefined]. *)
Definition results_or_empty (r : Results) : list Doc * option nat :=
  match r with
  | ResultsMissing => ([], Some O)
  | ResultsArray l => (l, Some (length l))
  | ResultsObject => ([], None)
  end.

(** [err.response?.data || err.message]. *)
Definition error_detail (e : JsError) : string :=
  match response_data e with
  | Some body => if String.eqb body "" then message e else body
  | None => message e
  end.

Section Ingestion.
Variable E : Engine.
Variable clock : nat -> Z.

(** The object literal [doc] of the loop body, key by key. *)
Definition buildDoc (art : Doc) : Doc :=
  list_to_map [
    ("article_id", get art "article_id");
    ("title", get art "title");
    ("link", get art "link");
    ("keywords", or_else (get art "keywords") (JArr []));
    ("creator", or_else (get art "creator") (JArr []));
    ("video_url", get art "video_url");
    ("description", get art "description");
    ("content", get art "content");
    ("pubDate", if truthy (get art "pubDate")
                then new_Date E (get art "pubDate") else JNull);
    ("image_url", get art "image_url");
    ("source_id", get art "source_id");
    ("source_priority", get art "source_priority");
    ("source_url", get art "source_url");
    ("source_icon", get art "source_icon");
    ("language", get art "language");
    ("country", or_else (get art "country") (JArr []));
    ("category", or_else (get art "category") (JArr []));
    ("ai_tag", get art "ai_tag");
    ("sentiment", get art "sentiment");
    ("sentiment_stats", get art "sentiment_stats");
    ("ai_region", get art "ai_region");
    ("ai_org", get art "ai_org");
    ("duplicate", get art "duplicate");
    ("datatype", or_else (get art "datatype") (JStr "news"))
  ].

(** The counters [inserted] and [updated] after one result. *)
Definition count_result (res : Article.UpdateResult) (counts : Z * Z) : Z * Z :=
  let '(inserted, updated) := counts in
  if negb (Article.upsertedCount res =? 0) then (inserted + 1, updated)
  else if negb (Article.modifiedCount res =? 0) then (inserted, updated + 1)
  else (inserted, updated).

(** One turn of the loop over the articles. *)
Definition store_article (art : Doc) (counts : Z * Z) : M (Z * Z) :=
  let doc := buildDoc art in
  await result <- Article.updateOne clock (get art "article_id") doc;
  ret (count_result result counts).

Definition fetchAndStoreNews (fetch : FetchOutcome) : M unit :=
  await t <- Article.now clock;
  await_ console (LogFetching t);
  try_catch
    (await response <- axios_get fetch;
     let '(articles, len) := results_or_empty response in
     match len with
     | None | Some O => console LogNoArticles
     | Some _ =>
         await counts <- for_of articles store_article (0, 0);
         console (LogDone counts.1 counts.2 (Z.of_nat (length articles)))
     end)
    (fun err => console (LogFetchError (error_detail err))).

(** The process: the call at startup and each later firing of the cron
    schedule start [fetchAndStoreNews] with what the feed answers then.
    Nothing awaits or catches these calls, so an error that escapes one
    ends the process. *)
Definition scheduled (fetches : list FetchOutcome) : M unit :=
  for_of fetches (fun f _ => fetchAndStoreNews f) tt.
End Ingestion.

(** ** The query service *)

(** Arithmetic on numbers as the list handler uses it. *)
Module Arith.

Definition sign (x : JsNum) : option Z :=
  match x with
  | NaN => None
  | PosInf => Some 1
  | NegInf => Some (-1)
  | Num z => Some (Z.sgn z)
  end.

Definition of_sign (s : Z) : JsNum :=
  if s <? 0 then NegInf else if 0 <? s then PosInf else NaN.

(** [x - 1]. *)
Definition pred (x : JsNum) : JsNum :=
  match x with
  | Num z => Num (z - 1)
  | other => other
  end.

(** [x * y]. *)
Definition mul (x y : JsNum) : JsNum :=
  match x, y with
  | Num a, Num b => Num (a * b)
  | _, _ =>
      match sign x, sign y with
      | Some a, Some b => of_sign (a * b)
      | _, _ => NaN
      end
  end.

(** [Math.ceil(total / y)] for a count [total]. *)
Definition ceil_div (total : Z) (y : JsNum) : JsNum :=
  match y with
  | NaN => NaN
  | PosInf | NegInf => Num 0
  | Num b => if b =? 0 then of_sign total else Num (- ((- total) / b))
  end.

End Arith.

(** The query string of a request as Express hands it over: a parameter
    is absent or a string.  (A repeated or bracketed parameter, which
    parses to an array or an object, is outside the model.) *)
Module Req.
Record query := mkQuery {
  startDate : option string;
  endDate : option string;
  author : option string;
  language : option string;
  country : option string;
  category : option string;
  datatype : option string;
  page : option string;
  limit : option string;
  search : option string
}.

Definition empty : query :=
  mkQuery None None None None None None None None None None.
End Req.

(** The JSON body of a response; every body but [Failed] carries
    [success: true], and [Failed] carries [success: false]. *)
Inductive Body :=
| NewsPage (total : Z) (page totalPages : JsNum) (articles : list Doc)
| FilterValues (languages countries categories datatypes : list string)
| StatusInfo (totalArticles : Z) (latestArticle : JsVal) (dbStatus : string)
| Failed (error : string).

Record Response := mkResponse {
  status : Z;
  body : Body
}.

Definition success (r : Response) : bool :=
  match body r with
  | Failed _ => false
  | _ => true
  end.

(** [res.json(b)] and [res.status(500).json(b)]. *)
Definition res_json (b : Body) : M Response := ret (mkResponse 200 b).
Definition res_status_json (code : Z) (b : Body) : M Response := ret (mkResponse code b).

(** A parameter in a condition: absent and empty are falsy. *)
Definition given (p : option string) : bool :=
  match p with
  | Some s => negb (String.eqb s "")
  | None => false
  end.

(** [c.split(",").map((c) => c.trim().toLowerCase())]. *)
Definition csv_values (s : string) : list string :=
  (fun c => toLowerCase (trim c)) <$> split_comma s.

(** [parseInt(page)] where [page] has the default of the destructuring
    pattern: the default stands in for an absent parameter only. *)
Definition parseInt_or (p : option string) (dflt : Z) : JsNum :=
  match p with
  | Some s => parseInt s
  | None => Num dflt
  end.

Definition keep_if {A} (b : bool) (a : A) : option A := if b then Some a else None.

Section Handlers.
Variable E : Engine.

(** The filter object after the [if] statements of the handler. *)
Definition build_filter (q : Req.query) : Article.Filter :=
  Article.mkFilter
    (keep_if (given (Req.startDate q) || given (Req.endDate q))
       (Article.mkRange
          (if given (Req.startDate q)
           then Some (Date_parse E (default "" (Req.startDate q))) else None)
          (if given (Req.endDate q)
           then Some (Date_parse E (default "" (Req.endDate q)) ≫= end_of_local_day E)
           else None)))
    (if given (Req.author q) then Req.author q else None)
    (if given (Req.language q) then toLowerCase <$> Req.language q else None)
    (if given (Req.country q) then csv_values <$> Req.country q else None)
    (if given (Req.category q) then csv_values <$> Req.category q else None)
    (if given (Req.datatype q) then toLowerCase <$> Req.datatype q else None)
    (if given (Req.search q) then Req.search q else None).

(** [app.get("/api/news", ...)]. *)
Definition news_handler (q : Req.query) : M Response :=
  try_catch
    (let filter := build_filter q in
     let page := parseInt_or (Req.page q) 1 in
     let limit := parseInt_or (Req.limit q) 20 in
     let skip := Arith.mul (Arith.pred page) limit in
     await articles <- Article.find_page filter skip limit;
     await total <- Article.countDocuments filter;
     res_json (NewsPage total page (Arith.ceil_div total limit) articles))
    (fun err =>
       await_ console (LogNewsError (message err));
       res_status_json 500 (Failed (message err))).
End Handlers.

Fixpoint insert_string (s : string) (l : list string) : list string :=
  match l with
  | [] => [s]
  | x :: rest => if String.leb s x then s :: l else x :: insert_string s rest
  end.

(** [values.flat().filter(Boolean).sort()]: the non-empty strings in
    ascending order of their characters. *)
Definition truthy_sorted (values : list (option string)) : list string :=
  fold_right insert_string []
    (omap (fun v => match v with
                    | Some s => if String.eqb s "" then None else Some s
                    | None => None
                    end) values).

(** [app.get("/api/filters", ...)]. *)
Definition filters_handler : M Response :=
  try_catch
    (await languages <- Article.distinct "language";
     await countries <- Article.distinct "country";
     await categories <- Article.distinct "category";
     await datatypes <- Article.distinct "datatype";
     res_json (FilterValues (truthy_sorted languages) (truthy_sorted countries)
                 (truthy_sorted categories) (truthy_sorted datatypes)))
    (fun err => res_status_json 500 (Failed (message err))).

(** [app.get("/api/status", ...)]: the body of the handler stands outside
    any [try]. *)
Definition status_handler : M Response :=
  await count <- Article.countDocuments Article.no_filter;
  await latest <- Article.findOne_newest;
  await d <- read_db;
  res_json (StatusInfo count
              (match latest with
               | Some r => or_else (get r "pubDate") JNull
               | None => JNull
               end)
              (if readyState d =? 1 then "connected" else "disconnected")).

(** What the caller of an endpoint sees: the response that the handler
    sent, or none when the handler ended without sending one. *)
Definition reply (h : M Response) (w : World) : option Response :=
  match (h w).1 with
  | Normal r => Some r
  | _ => None
  end.

(** The reference engine of the examples: ISO dates, local time UTC. *)
Definition iso_utc : Engine := mkEngine iso_date_parse (fun _ _ => 0).

(** ** Vocabulary of the properties *)

(** What a claim may promise of [pubDate]: a timestamp or [null]. *)
Definition timestamp_or_null (v : JsVal) : Prop :=
  v = JNull \/ exists t, v = JDate (Some t).

(** The world after one more reading of the clock. *)
Definition tick (w : World) : World := mkWorld (db w) (log w) (S (reads w)).

(** The world with one more line in the log. *)
Definition logged (l : LogLine) (w : World) : World :=
  mkWorld (db w) (log w ++ [l]) (reads w).

(** The world in which the [try] block of a run starts. *)
Definition started (clock : nat -> Z) (w : World) : World :=
  mkWorld (db w) (log w ++ [LogFetching (clock (reads w))]) (S (reads w)).

(** The invariant of the collection: no two documents are filed under the
    same [article_id]. *)
Definition unique_ids (c : list Doc) : Prop :=
  NoDup (Article.article_id_of <$> c).

(** Every document of [c] is still at its place in [c'], under the same
    [article_id]: nothing was deleted. *)
Definition kept (c c' : list Doc) : Prop :=
  forall i r, c !! i = Some r ->
    exists r', c' !! i = Some r' /\ Article.article_id_of r' = Article.article_id_of r.

(** The document under [id] carries a stamp [updatedAt] that was read from
    the clock before the reading [n]. *)
Definition stamped_before (clock : nat -> Z) (n : nat) (c : list Doc) (id : JsVal) : Prop :=
  exists i r k, Article.find_index id c = Some i /\ c !! i = Some r
    /\ r !! "updatedAt" = Some (JDate (Some (clock k))) /\ (k < n)%nat.

(** The article is on file: its document was stamped before the next
    reading of the clock. *)
Definition filed (clock : nat -> Z) (w : World) (art : Doc) : Prop :=
  stamped_before clock (reads w) (collection (db w)) (get art "article_id").

(** A turn of the loop for an arbitrary record [doc] under the filter
    [{ article_id: id }]; [store_article] is the turn for the record built
    from an article. *)
Definition turn (clock : nat -> Z) (id : JsVal) (doc : Doc) (counts : Z * Z) : M (Z * Z) :=
  await result <- Article.updateOne clock id doc;
  ret (count_result result counts).

(** The keys that the record copies from the article as they are, and the
    keys that it fills with a default. *)
Definition verbatim_keys : list string :=
  ["article_id"; "title"; "link"; "video_url"; "description"; "content";
   "image_url"; "source_id"; "source_priority"; "source_url"; "source_icon";
   "language"; "ai_tag"; "sentiment"; "sentiment_stats"; "ai_region"; "ai_org";
   "duplicate"].

Definition defaulted_keys : list string :=
  ["keywords"; "creator"; "country"; "category"; "pubDate"; "datatype"].

(** A body that only reads the store. *)
Definition reads_only {A} (m : M A) : Prop := forall w, db (m w).2 = db w.

(** An article whose record passes the cast of the schema. *)
Definition storable (E : Engine) (art : Doc) : Prop :=
  Article.cast_update (buildDoc E art) = None.

(** The clock moves on between two readings. *)
Definition advancing (clock : nat -> Z) : Prop :=
  forall j k, (j < k)%nat -> clock j < clock k.

(** Documents and articles of the examples. *)
Definition art_bad_date : Doc :=
  list_to_map [("article_id", JStr "a1"); ("title", JStr "T"); ("pubDate", JStr "not a date")].

Definition art_dated : Doc :=
  list_to_map [("article_id", JStr "a1"); ("title", JStr "T"); ("pubDate", JStr "2024-01-15")].

(** A clock that ticks once per reading, and a world with an empty
    store. *)
Definition clock_demo (n : nat) : Z := 1700000000000 + Z.of_nat n.

Definition world_empty : World := mkWorld (mkDb [] None 1) [] 0.

(** A stored document, and a later payload for the same id that brings a
    new title and no description. *)
Definition stored_a1 : Doc :=
  list_to_map [("article_id", JStr "a1"); ("title", JStr "Old");
               ("description", JStr "D"); ("keywords", JArr ["k"]);
               ("createdAt", JDate (Some 5)); ("updatedAt", JDate (Some 5))].

Definition payload_a1 : Doc :=
  list_to_map [("article_id", JStr "a1"); ("title", JStr "New")].

Definition world_a1 : World := mkWorld (mkDb [stored_a1] None 1) [] 0.

(** The store while it cannot be reached. *)
Definition world_down : World :=
  mkWorld (mkDb [stored_a1] (Some "connection refused") 0) [] 0.

(** Whether the filter of a request selects a document, when the store
    accepts the filter. *)
Definition selects (E : Engine) (q : Req.query) (r : Doc) : option bool :=
  match Article.prepare (build_filter E q) with
  | Article.Ready test => Some (test r)
  | _ => None
  end.

(** Requests with a single parameter. *)
Definition only_country (s : string) : Req.query :=
  Req.mkQuery None None None None (Some s) None None None None None.

Definition only_category (s : string) : Req.query :=
  Req.mkQuery None None None None None (Some s) None None None None.

Definition only_search (s : string) : Req.query :=
  Req.mkQuery None None None None None None None None None (Some s).


Definition only_limit (s : string) : Req.query :=
  Req.mkQuery None None None None None None None None (Some s) None.

Definition paged (p l : string) : Req.query :=
  Req.mkQuery None None None None None None None (Some p) (Some l) None.

(** The two documents of the filter examples. *)
Definition stored_us : Doc :=
  list_to_map [("article_id", JStr "a1"); ("title", JStr "Election night");
               ("category", JArr ["tech"; "ai"]); ("country", JArr ["us"]);
               ("pubDate", JDate (Some 2000))].

Definition stored_fr : Doc :=
  list_to_map [("article_id", JStr "a2"); ("title", JStr "abc");
               ("description", JStr "After the election");
               ("category", JArr ["tech"]); ("country", JArr ["fr"]);
               ("pubDate", JDate (Some 3000))].

Definition stored_plain : Doc :=
  list_to_map [("article_id", JStr "a3"); ("title", JStr "Weather");
               ("description", JStr "Rain"); ("country", JArr ["US"]);
               ("category", JArr ["Tech"]); ("pubDate", JNull)].

Definition world_three : World :=
  mkWorld (mkDb [stored_us; stored_fr; stored_plain] None 1) [] 0.

(** *** Substrings, in the words of the claims *)

Fixpoint starts_with (p s : list ascii) : bool :=
  match p, s with
  | [], _ => true
  | a :: p', b :: s' => Ascii.eqb a b && starts_with p' s'
  | _ :: _, [] => false
  end.

(** [p] occurs in [s] as a run of consecutive characters. *)
Fixpoint contains (p s : list ascii) : bool :=
  starts_with p s
  || match s with
     | [] => false
     | _ :: s' => contains p s'
     end.

(** [p] occurs in [s] when the case of the letters is ignored. *)
Definition occurs_ci (p s : string) : bool :=
  contains (list_ascii_of_string (toLowerCase p)) (list_ascii_of_string (toLowerCase s)).

(** The search of the claim: the text occurs, case ignored, in the title
    or in the description. *)
Definition text_occurs (s : string) (r : Doc) : bool :=
  existsb (occurs_ci s) (Article.field_strings (get r "title"))
  || existsb (occurs_ci s) (Article.field_strings (get r "description")).

(** A text without any character that is special in a pattern. *)
Fixpoint has_meta (s : string) : bool :=
  match s with
  | EmptyString => false
  | String c rest => Regex.is_meta c || has_meta rest
  end.

(** The pattern that matches the characters of a list one after the
    other. *)
Definition lits (cs : list ascii) : Regex.regex :=
  Regex.seq_regex (Regex.Lit <$> cs).

(** The order of a listing: a document is followed only by documents that
    are not newer. *)
Definition newest_first (a b : Doc) : Prop := Article.not_older a b = true.

(** *** Further vocabulary *)

(** The key under which the article of the feed is filed. *)
Definition article_key (art : Doc) : JsVal :=
  Article.index_key (get art "article_id").

(** The document carries every field that the record of the article
    supplies. *)
Definition carries (E : Engine) (art r : Doc) : Prop :=
  forall k v, buildDoc E art !! k = Some v -> v <> JUndefined -> r !! k = Some v.

(** Every document of [c] is still at its place in [c'], under the same
    [article_id] and with the same [createdAt]. *)
Definition kept_created (c c' : list Doc) : Prop :=
  forall i r, c !! i = Some r ->
    exists r', c' !! i = Some r'
      /\ Article.article_id_of r' = Article.article_id_of r
      /\ r' !! "createdAt" = r !! "createdAt".

(** Two documents with the same data: they agree at every key but the
    stamp [updatedAt]. *)
Definition same_data (r r' : Doc) : Prop :=
  forall k, k <> "updatedAt" -> r !! k = r' !! k.

(** The lines of the log that open a run. *)
Definition is_fetching (l : LogLine) : bool :=
  match l with
  | LogFetching _ => true
  | _ => false
  end.

(** *** What a batch writes into a document *)

(** The fields that the record of an article supplies: its keys without
    those whose value is [undefined]. *)
Definition supplied (E : Engine) (a : Doc) : Doc :=
  Article.strip_undefined (buildDoc E a).

(** The article writes its fields over the document filed under its id,
    and leaves every other document alone. *)
Definition write_one (E : Engine) (id : JsVal) (r a : Doc) : Doc :=
  if bool_decide (article_key a = id) then supplied E a ∪ r else r.

(** The articles of a batch write into the document filed under [id], one
    after the other. *)
Definition written (E : Engine) (arts : list Doc) (id : JsVal) (r : Doc) : Doc :=
  fold_left (write_one E id) arts r.

(** The value that the batch supplies last for the key [k] of the
    document filed under [id], if some article supplies one. *)
Definition last_one (E : Engine) (id : JsVal) (k : string)
    (acc : option JsVal) (a : Doc) : option JsVal :=
  if bool_decide (article_key a = id)
  then match supplied E a !! k with
       | Some v => Some v
       | None => acc
       end
  else acc.

Definition last_supplied (E : Engine) (arts : list Doc) (id : JsVal) (k : string)
    : option JsVal :=
  fold_left (last_one E id k) arts None.

(** *** Requests *)

Definition only_language (s : string) : Req.query :=
  Req.mkQuery None None None (Some s) None None None None None None.

Definition only_datatype (s : string) : Req.query :=
  Req.mkQuery None None None None None None (Some s) None None None.

Definition only_author (s : string) : Req.query :=
  Req.mkQuery None None (Some s) None None None None None None None.

(** A request with a date range: each bound absent or a date string. *)
Definition between (s e : option string) : Req.query :=
  Req.mkQuery s e None None None None None None None None.

(** A parameter that is present but empty, taken away. *)
Definition nonempty (p : option string) : option string :=
  match p with
  | Some EmptyString => None
  | _ => p
  end.

(** The request without its empty filter parameters; [page] and [limit]
    stay as they are. *)
Definition without_empty (q : Req.query) : Req.query :=
  Req.mkQuery (nonempty (Req.startDate q)) (nonempty (Req.endDate q))
    (nonempty (Req.author q)) (nonempty (Req.language q))
    (nonempty (Req.country q)) (nonempty (Req.category q))
    (nonempty (Req.datatype q)) (Req.page q) (Req.limit q)
    (nonempty (Req.search q)).

(** The request with another [page]. *)
Definition with_page (q : Req.query) (p : string) : Req.query :=
  Req.mkQuery (Req.startDate q) (Req.endDate q) (Req.author q) (Req.language q)
    (Req.country q) (Req.category q) (Req.datatype q) (Some p) (Req.limit q)
    (Req.search q).

(** The articles of the response to a request, none when the request
    fails. *)
Definition listed (E : Engine) (q : Req.query) (w : World) : list Doc :=
  match reply (news_handler E q) w with
  | Some (mkResponse _ (NewsPage _ _ _ articles)) => articles
  | _ => []
  end.

(** No filter parameter of the request is given. *)
Definition unfiltered (q : Req.query) : bool :=
  negb (given (Req.startDate q) || given (Req.endDate q) || given (Req.author q)
        || given (Req.language q) || given (Req.country q) || given (Req.category q)
        || given (Req.datatype q) || given (Req.search q)).

(** The dates of the documents of a collection. *)
Definition dates_of (c : list Doc) : list Z := omap Article.pubDate_key c.

(** The values of a field that come to be listed as filter options: the
    non-empty strings that some document holds there, alone or in an
    array. *)
Definition offers (field : string) (c : list Doc) (v : string) : Prop :=
  v <> "" /\ exists r, r ∈ c /\ Some v ∈ Article.distinct_values field r.

(** The ascending order of [sort()] on strings. *)
Definition ascending (a b : string) : Prop := String.leb a b = true.

(** A document dated 2024-01-15, 01:00 UTC. *)
Definition stored_jan15 : Doc :=
  list_to_map [("article_id", JStr "a4"); ("title", JStr "Morning");
               ("pubDate", JDate (Some 1705280400000))].

(** A list of filter options for a field: in ascending order, without
    repetition, and holding exactly the values that the collection
    offers. *)
Definition lists_options (field : string) (c : list Doc) (l : list string) : Prop :=
  StronglySorted ascending l /\ NoDup l /\ forall v, v ∈ l <-> offers field c v.

(** No document of the collection has a [pubDate] that counts as true. *)
Definition undated (c : list Doc) : Prop :=
  forall r, r ∈ c -> truthy (get r "pubDate") = false.

(** [m] is the latest date of the collection. *)
Definition latest_date (c : list Doc) (m : Z) : Prop :=
  m ∈ dates_of c /\ forall t, t ∈ dates_of c -> t <= m.

(** Every document of the collection has a [pubDate] that is a date or
    [null]: none is an Invalid Date, and none is missing. *)
Definition well_dated (c : list Doc) : Prop :=
  Forall (fun r => timestamp_or_null (get r "pubDate")) c.

(** *** The text and the numbers that the model covers *)

Definition is_ascii (c : ascii) : bool := code c <? 128.

(** A string of ASCII characters: on these the string operations of the
    model are those of the runtime. *)
Fixpoint ascii_only (s : string) : bool :=
  match s with
  | EmptyString => true
  | String c rest => is_ascii c && ascii_only rest
  end.

(** A stored value whose strings are ASCII text. *)
Definition ascii_text (v : JsVal) : Prop :=
  forall t, t ∈ Article.field_strings v -> ascii_only t = true.

(** [Number.isSafeInteger]: on these integers the arithmetic of doubles
    is exact. *)
Definition safe_integer (z : Z) : bool := Z.abs z <=? 9007199254740991.

(** The article has an id, a string, as the schema requires. *)
Definition has_id (art : Doc) : bool :=
  match get art "article_id" with
  | JStr _ => true
  | _ => false
  end.

(** An article with an id whose record fits the schema and passes its
    cast: what the update writes for it is the record as it stands. *)
Definition typed (E : Engine) (art : Doc) : Prop :=
  has_id art && Article.fits_schema (buildDoc E art) = true.

(** The documents have pairwise different sort keys (at most one of them
    is without a date): their order by [pubDate] is determined. *)
Definition distinct_dates (c : list Doc) : Prop :=
  NoDup (Article.pubDate_key <$> c).

(** *** Trimming and lower case, in the words of the claims *)




(** [b] is [a] in lower case: the same character, or the small letter of
    the capital letter [a]. *)
Definition lower_of (a b : ascii) : Prop :=
  (is_upper a = false /\ b = a) \/ (is_upper a = true /\ code b = code a + 32).


(** A zone with daylight saving, for the year 2024: UTC until 01:00 UTC
    on 31 March, one hour ahead until 01:00 UTC on 27 October. *)
Definition london_2024 : Engine :=
  mkEngine iso_date_parse
    (fun t isUTC =>
       let t := if isUTC then t else t - 3600000 in
       if (1711846800000 <=? t) && (t <? 1729990800000) then 3600000 else 0).
(** * Properties *)

(** ** The runtime's string operations on examples *)

Example parseInt_2 : parseInt "2" = Num 2. Proof. reflexivity. Qed.
Example parseInt_abc : parseInt "abc" = NaN. Proof. reflexivity. Qed.
Example parseInt_12px : parseInt " -12px" = Num (-12). Proof. reflexivity. Qed.
Example parseInt_hex : parseInt "0x1f" = Num 31. Proof. reflexivity. Qed.
Example parseInt_empty : parseInt "" = NaN. Proof. reflexivity. Qed.
Example split_ex : split_comma "us, UK ,," = ["us"; " UK "; ""; ""]. Proof. reflexivity. Qed.
Example trim_ex : trim "  a b	 " = "a b". Proof. reflexivity. Qed.
Example iso_ex : iso_date_parse "2024-01-15" = Some 1705276800000. Proof. reflexivity. Qed.
Example iso_epoch : iso_date_parse "1970-01-01" = Some 0. Proof. reflexivity. Qed.
Example iso_bad : iso_date_parse "not a date" = None. Proof. reflexivity. Qed.

(** ** The normalized record *)

Section Normalized.
Variable E : Engine.

(** Every key of the object literal, read back. *)
Lemma buildDoc_lookup (art : Doc) (k : string) (v : JsVal) :
  buildDoc E art !! k = Some v ->
  (k = "keywords" \/ k = "creator" \/ k = "country" \/ k = "category") /\
    v = or_else (get art k) (JArr [])
  \/ k = "pubDate" /\
    v = (if truthy (get art "pubDate") then new_Date E (get art "pubDate") else JNull)
  \/ k = "datatype" /\ v = or_else (get art "datatype") (JStr "news")
  \/ v = get art k.
Proof.
  unfold buildDoc. cbn [list_to_map foldr uncurry fst snd].
  repeat (rewrite lookup_insert; case_decide;
          [ subst k; intros [= <-]; auto 10 | ]).
  rewrite lookup_empty. discriminate.
Qed.

Lemma buildDoc_list_field (art : Doc) (k : string) :
  k ∈ ["keywords"; "creator"; "country"; "category"] ->
  buildDoc E art !! k = Some (or_else (get art k) (JArr [])).
Proof.
  intros Hk. repeat (apply elem_of_cons in Hk as [-> | Hk]; [ reflexivity | ]).
  by apply elem_of_nil in Hk.
Qed.

Lemma buildDoc_pubDate (art : Doc) :
  buildDoc E art !! "pubDate"
  = Some (if truthy (get art "pubDate") then new_Date E (get art "pubDate") else JNull).
Proof. reflexivity. Qed.

Lemma buildDoc_datatype (art : Doc) :
  buildDoc E art !! "datatype" = Some (or_else (get art "datatype") (JStr "news")).
Proof. reflexivity. Qed.

Lemma buildDoc_article_id (art : Doc) :
  buildDoc E art !! "article_id" = Some (get art "article_id").
Proof. reflexivity. Qed.

Lemma get_absent (art : Doc) (k : string) : art !! k = None -> get art k = JUndefined.
Proof. unfold get. by intros ->. Qed.

(** C8, as amended.  In the record that [fetchAndStoreNews] builds for an
    article, [keywords], [creator], [country] and [category] are the
    empty sequence when the article lacks the field, [datatype] is
    ["news"] when the article lacks it, and [pubDate] is [null] when the
    article lacks it; for a non-empty date string, [pubDate] is the Date
    constructed from it: a timestamp when the string parses, and an
    Invalid Date (not [null]) when it does not. *)
Theorem C8_normalized_defaults (art : Doc) :
  (forall k, k ∈ ["keywords"; "creator"; "country"; "category"] ->
     art !! k = None -> buildDoc E art !! k = Some (JArr []))
  /\ (art !! "datatype" = None -> buildDoc E art !! "datatype" = Some (JStr "news"))
  /\ (art !! "pubDate" = None -> buildDoc E art !! "pubDate" = Some JNull)
  /\ (forall s t, art !! "pubDate" = Some (JStr s) -> Date_parse E s = Some t ->
        s <> "" -> buildDoc E art !! "pubDate" = Some (JDate (Some t)))
  /\ (forall s, art !! "pubDate" = Some (JStr s) -> Date_parse E s = None ->
        s <> "" -> buildDoc E art !! "pubDate" = Some (JDate None)).
Proof.
  repeat split.
  - intros k Hk Habs. rewrite buildDoc_list_field by done.
    by rewrite (get_absent _ _ Habs).
  - intros Habs. rewrite buildDoc_datatype. by rewrite (get_absent _ _ Habs).
  - intros Habs. rewrite buildDoc_pubDate. by rewrite (get_absent _ _ Habs).
  - intros s t Hs Ht Hne. rewrite buildDoc_pubDate. unfold get. rewrite Hs. cbn.
    destruct (String.eqb_spec s ""); [ done | ]. cbn. by rewrite Ht.
  - intros s Hs Ht Hne. rewrite buildDoc_pubDate. unfold get. rewrite Hs. cbn.
    destruct (String.eqb_spec s ""); [ done | ]. cbn. by rewrite Ht.
Qed.
End Normalized.


(** An article whose [pubDate] does not parse gets an Invalid Date, which
    is neither a timestamp nor [null]. *)
Lemma C8_unparseable_pubDate_is_invalid_date :
  Date_parse iso_utc "not a date" = None
  /\ get (buildDoc iso_utc art_bad_date) "pubDate" = JDate None
  /\ ~ timestamp_or_null (get (buildDoc iso_utc art_bad_date) "pubDate").
Proof.
  split; [ reflexivity | ]. split; [ reflexivity | ].
  change (get (buildDoc iso_utc art_bad_date) "pubDate") with (JDate None).
  intros [H | [t H]]; discriminate.
Qed.

Lemma C8_normalized_defaults_witness :
  buildDoc iso_utc art_dated !! "keywords" = Some (JArr [])
  /\ buildDoc iso_utc art_dated !! "datatype" = Some (JStr "news")
  /\ buildDoc iso_utc art_dated !! "pubDate" = Some (JDate (Some 1705276800000))
  /\ buildDoc iso_utc art_bad_date !! "pubDate" = Some (JDate None).
Proof.
  destruct (C8_normalized_defaults iso_utc art_dated) as (Hl & Hd & _ & Hp & _).
  destruct (C8_normalized_defaults iso_utc art_bad_date) as (_ & _ & _ & _ & Hb).
  split; [ apply Hl; [ apply list_elem_of_here | reflexivity ] | ].
  split; [ apply Hd; reflexivity | ].
  split; [ apply (Hp "2024-01-15"); [ reflexivity | reflexivity | discriminate ] | ].
  apply (Hb "not a date"); [ reflexivity | reflexivity | discriminate ].
Defined.

(** ** One upsert *)

Section Upsert.
Variable E : Engine.
Variable clock : nat -> Z.

(** [updateOne], case by case. *)
Lemma updateOne_run (id : JsVal) (doc : Doc) (w : World) :
  Article.updateOne clock id doc w =
  match Article.cast_update doc with
  | Some e => (Throw e, w)
  | None =>
      match outage (db w) with
      | Some msg => (Throw (mkError msg None), w)
      | None =>
          match Article.find_index id (collection (db w)) with
          | Some i =>
              match collection (db w) !! i with
              | Some r =>
                  let r' := Article.apply_set
                              (Article.set_fields (clock (reads w)) doc) r in
                  (Normal (Article.mkUpdateResult 1
                             (if bool_decide (r' = r) then 0 else 1) 0),
                   set_collection (<[i := r']> (collection (db w))) (tick w))
              | None => (Normal (Article.mkUpdateResult 0 0 0), tick w)
              end
          | None =>
              (Normal (Article.mkUpdateResult 0 0 1),
               set_collection
                 (collection (db w)
                  ++ [Article.inserted_doc (clock (reads w)) id doc])
                 (tick w))
          end
      end
  end.
Proof.
  unfold Article.updateOne.
  destruct (Article.cast_update doc); [ reflexivity | ].
  unfold bind, read_db. cbn.
  destruct (outage (db w)); [ reflexivity | ]. cbn.
  destruct (Article.find_index id (collection (db w))) as [i | ]; [ | reflexivity ].
  destruct (collection (db w) !! i); reflexivity.
Qed.

Lemma find_index_Some (id : JsVal) (c : list Doc) (i : nat) :
  Article.find_index id c = Some i ->
  exists r, c !! i = Some r /\ Article.article_id_of r = Article.index_key id.
Proof.
  revert i. induction c as [ | x c IH]; intros i; cbn; [ discriminate | ].
  unfold Article.matches_article_id. case_bool_decide as Hx.
  - intros [= <-]. eauto.
  - destruct (Article.find_index id c) as [j | ]; cbn; [ | discriminate ].
    intros [= <-]. cbn. by apply IH.
Qed.

Lemma find_index_None (id : JsVal) (c : list Doc) :
  Article.find_index id c = None ->
  forall r, r ∈ c -> Article.article_id_of r <> Article.index_key id.
Proof.
  induction c as [ | x c IH]; cbn; intros Hf r Hr; [ by apply elem_of_nil in Hr | ].
  unfold Article.matches_article_id in Hf. case_bool_decide as Hx; [ discriminate | ].
  destruct (Article.find_index id c); [ discriminate | ].
  apply elem_of_cons in Hr as [-> | Hr]; [ done | by apply IH ].
Qed.

(** The loop body never ends outside the model, and it leaves the
    connection as it is. *)
Lemma store_article_run (art : Doc) (counts : Z * Z) (w : World) :
  store_article E clock art counts w =
  match Article.updateOne clock (get art "article_id") (buildDoc E art) w with
  | (Normal res, w') => (Normal (count_result res counts), w')
  | (Throw e, w') => (Throw e, w')
  | (Beyond, w') => (Beyond, w')
  end.
Proof. reflexivity. Qed.

Lemma store_article_not_beyond (art : Doc) (counts : Z * Z) (w : World) :
  (store_article E clock art counts w).1 <> Beyond.
Proof.
  rewrite store_article_run, updateOne_run.
  repeat case_match; simplify_eq; cbn; try discriminate.
  all: repeat case_match; simplify_eq; discriminate.
Qed.
End Upsert.

(** ** Loops *)

Lemma for_of_invariant {A S} (P : World -> Prop) (body : A -> S -> M S) :
  (forall x acc w, P w -> P (body x acc w).2) ->
  forall xs acc w, P w -> P (for_of xs body acc w).2.
Proof.
  intros Hstep xs. induction xs as [ | x xs IH]; intros acc w Hw; cbn; [ done | ].
  unfold bind. specialize (Hstep x acc w Hw).
  destruct (body x acc w) as [[acc' | e | ] w']; cbn in *; auto.
Qed.

Lemma for_of_not_beyond {A S} (body : A -> S -> M S) :
  (forall x acc w, (body x acc w).1 <> Beyond) ->
  forall xs acc w, (for_of xs body acc w).1 <> Beyond.
Proof.
  intros Hstep xs. induction xs as [ | x xs IH]; intros acc w; cbn; [ discriminate | ].
  unfold bind. specialize (Hstep x acc w).
  destruct (body x acc w) as [[acc' | e | ] w']; cbn in *; auto.
Qed.

(** ** The run as a whole *)

Section Run.
Variable E : Engine.
Variable clock : nat -> Z.

Lemma fetch_rejected (err : JsError) (w : World) :
  fetchAndStoreNews E clock (Rejected err) w
  = (Normal tt, logged (LogFetchError (error_detail err)) (started clock w)).
Proof. reflexivity. Qed.

Lemma fetch_without_list (res : Results) (w : World) :
  res = ResultsMissing \/ res = ResultsObject \/ res = ResultsArray [] ->
  fetchAndStoreNews E clock (Resolved res) w
  = (Normal tt, logged LogNoArticles (started clock w)).
Proof. intros [-> | [-> | ->]]; reflexivity. Qed.

(** A run over a list of articles: the loop, then the summary line, or
    the line of the [catch] block. *)
Lemma fetch_articles (art : Doc) (arts : list Doc) (w : World) :
  fetchAndStoreNews E clock (Resolved (ResultsArray (art :: arts))) w =
  match for_of (art :: arts) (store_article E clock) (0, 0) (started clock w) with
  | (Normal counts, w') =>
      (Normal tt,
       logged (LogDone counts.1 counts.2 (Z.of_nat (length (art :: arts)))) w')
  | (Throw e, w') => (Normal tt, logged (LogFetchError (error_detail e)) w')
  | (Beyond, w') => (Beyond, w')
  end.
Proof.
  cbv beta iota zeta delta [fetchAndStoreNews axios_get results_or_empty bind
                              try_catch Article.now console ret started logged
                              length db log reads fst snd].
  destruct (for_of (art :: arts) (store_article E clock) (0, 0) _)
    as [[c | e | ] w']; reflexivity.
Qed.

(** A run always returns: nothing escapes the [try] of the job. *)
Lemma fetchAndStoreNews_returns (f : FetchOutcome) (w : World) :
  (fetchAndStoreNews E clock f w).1 = Normal tt.
Proof.
  destruct f as [err | [ | [ | art arts] | ]];
    [ reflexivity | reflexivity | reflexivity | | reflexivity ].
  rewrite fetch_articles.
  pose proof (for_of_not_beyond (store_article E clock)
                (store_article_not_beyond E clock) (art :: arts) (0, 0) (started clock w)) as Hb.
  destruct (for_of (art :: arts) (store_article E clock) (0, 0) (started clock w))
    as [[c | e | ] w']; cbn in *; done.
Qed.

Lemma scheduled_cons (f : FetchOutcome) (rest : list FetchOutcome) (w : World) :
  scheduled E clock (f :: rest) w
  = scheduled E clock rest (fetchAndStoreNews E clock f w).2.
Proof.
  unfold scheduled. cbn [for_of]. unfold bind.
  pose proof (fetchAndStoreNews_returns f w) as Hr.
  destruct (fetchAndStoreNews E clock f w) as [[[] | e | ] w']; cbn in *; done.
Qed.

(** The process survives every schedule. *)
Lemma scheduled_returns (fetches : list FetchOutcome) (w : World) :
  (scheduled E clock fetches w).1 = Normal tt.
Proof.
  revert w. induction fetches as [ | f rest IH]; intros w; [ reflexivity | ].
  rewrite scheduled_cons. apply IH.
Qed.

(** C4, as amended.  When the request of a run is rejected (a network
    error, or an answer with an error status, with its body), the run
    writes the error to the log: the body of the answer when there is
    one, the message of the error otherwise.  When the feed answers with
    a body without a list of articles (an error description under a 2xx
    status, or text that could not be read as JSON), the run logs that
    no articles were returned, and no error.  In both cases the run
    returns without raising, the store is exactly what it was before
    the run, and the process goes on: the runs scheduled after it are
    carried out, from the unchanged store, and none of them ends the
    process. *)
Theorem C4_failed_fetch_leaves_store (w : World) (later : list FetchOutcome) :
  (forall err,
     let run := fetchAndStoreNews E clock (Rejected err) w in
     run.1 = Normal tt /\ db run.2 = db w
     /\ (exists detail,
           log run.2
           = (log w ++ [LogFetching (clock (reads w)); LogFetchError detail])%list
           /\ (forall body, response_data err = Some body -> body <> "" -> detail = body)
           /\ (response_data err = None \/ response_data err = Some "" ->
               detail = message err))
     /\ scheduled E clock (Rejected err :: later) w = scheduled E clock later run.2
     /\ (scheduled E clock (Rejected err :: later) w).1 = Normal tt)
  /\ (forall res, res = ResultsMissing \/ res = ResultsObject ->
       let run := fetchAndStoreNews E clock (Resolved res) w in
       run.1 = Normal tt /\ db run.2 = db w
       /\ log run.2 = (log w ++ [LogFetching (clock (reads w)); LogNoArticles])%list
       /\ scheduled E clock (Resolved res :: later) w = scheduled E clock later run.2
       /\ (scheduled E clock (Resolved res :: later) w).1 = Normal tt).
Proof.
  split.
  - intros err run. subst run. rewrite scheduled_cons, fetch_rejected. cbn [fst snd].
    split; [ reflexivity | ]. split; [ reflexivity | ].
    split; [ | split; [ reflexivity | apply scheduled_returns ] ].
    exists (error_detail err).
    split; [ unfold logged, started; cbn; by rewrite <- app_assoc | ].
    unfold error_detail. split.
    + intros body -> Hbody. by destruct (String.eqb_spec body "").
    + by intros [-> | ->].
  - intros res Hres run. subst run.
    rewrite scheduled_cons, (fetch_without_list res w) by tauto. cbn [fst snd].
    split; [ reflexivity | ]. split; [ reflexivity | ].
    split; [ unfold logged, started; cbn; by rewrite <- app_assoc | ].
    split; [ reflexivity | apply scheduled_returns ].
Qed.
End Run.

(** An answer of the feed that carries an error description in place of
    the list, or a body that was not read as JSON, is no error to the
    run: it logs that no articles were returned, and nothing else. *)
Lemma C4_answer_without_list_logs_no_error :
  log (fetchAndStoreNews iso_utc clock_demo (Resolved ResultsObject) world_a1).2
  = [LogFetching 1700000000000; LogNoArticles]
  /\ log (fetchAndStoreNews iso_utc clock_demo (Resolved ResultsMissing) world_a1).2
     = [LogFetching 1700000000000; LogNoArticles]
  /\ (forall detail,
        LogFetchError detail
        ∉ log (fetchAndStoreNews iso_utc clock_demo (Resolved ResultsObject) world_a1).2)
  /\ log (fetchAndStoreNews iso_utc clock_demo
            (Rejected (mkError "Request failed with status code 401" (Some "Unauthorized")))
            world_a1).2
     = [LogFetching 1700000000000; LogFetchError "Unauthorized"].
Proof.
  split; [ reflexivity | ]. split; [ reflexivity | ]. split; [ | reflexivity ].
  intros detail Hin. change (LogFetchError detail ∈ [LogFetching 1700000000000; LogNoArticles]) in Hin.
  apply elem_of_cons in Hin as [Hin | Hin]; [ discriminate | ].
  apply elem_of_cons in Hin as [Hin | Hin]; [ discriminate | ].
  by apply elem_of_nil in Hin.
Qed.

Lemma C4_failed_fetch_leaves_store_witness :
  log (fetchAndStoreNews iso_utc clock_demo
         (Rejected (mkError "Request failed with status code 401" (Some "Unauthorized")))
         world_a1).2
  = [LogFetching 1700000000000; LogFetchError "Unauthorized"]
  /\ log (fetchAndStoreNews iso_utc clock_demo (Rejected (mkError "timeout" None)) world_a1).2
     = [LogFetching 1700000000000; LogFetchError "timeout"]
  /\ db (fetchAndStoreNews iso_utc clock_demo (Resolved ResultsMissing) world_a1).2
     = db world_a1.
Proof.
  destruct (C4_failed_fetch_leaves_store iso_utc clock_demo world_a1 []) as [Hrej Hres].
  destruct (Hrej (mkError "Request failed with status code 401" (Some "Unauthorized")))
    as (_ & _ & (d1 & Hlog1 & Hbody & _) & _).
  destruct (Hrej (mkError "timeout" None)) as (_ & _ & (d2 & Hlog2 & _ & Hmsg) & _).
  destruct (Hres ResultsMissing (or_introl eq_refl)) as (_ & Hdb & _).
  split; [ | split; [ | exact Hdb ] ].
  - rewrite Hlog1, (Hbody "Unauthorized" eq_refl); [ reflexivity | discriminate ].
  - rewrite Hlog2, Hmsg; [ reflexivity | by left ].
Defined.

(** ** What [$set] writes *)

Section SetFields.
Variable now : Z.

Lemma strip_lookup_supplied (doc : Doc) (k : string) (v : JsVal) :
  doc !! k = Some v -> v <> JUndefined -> Article.strip_undefined doc !! k = Some v.
Proof. intros Hk Hv. unfold Article.strip_undefined. by apply map_lookup_filter_Some. Qed.

Lemma strip_lookup_omitted (doc : Doc) (k : string) :
  doc !! k = None \/ doc !! k = Some JUndefined ->
  Article.strip_undefined doc !! k = None.
Proof.
  intros Hk. unfold Article.strip_undefined. apply map_lookup_filter_None.
  destruct Hk as [Hk | Hk]; [ by left | right ].
  intros v Hv. rewrite Hk in Hv. injection Hv as <-. cbn. tauto.
Qed.

Lemma set_lookup_updatedAt (doc r : Doc) :
  Article.apply_set (Article.set_fields now doc) r !! "updatedAt"
  = Some (JDate (Some now)).
Proof.
  unfold Article.apply_set, Article.set_fields.
  apply lookup_union_Some_l. apply lookup_insert_eq.
Qed.

Lemma set_lookup_supplied (doc r : Doc) (k : string) (v : JsVal) :
  k <> "updatedAt" -> doc !! k = Some v -> v <> JUndefined ->
  Article.apply_set (Article.set_fields now doc) r !! k = Some v.
Proof.
  intros Hne Hk Hv. unfold Article.apply_set, Article.set_fields.
  apply lookup_union_Some_l. rewrite lookup_insert_ne by done.
  by apply strip_lookup_supplied.
Qed.

Lemma set_lookup_omitted (doc r : Doc) (k : string) :
  k <> "updatedAt" -> doc !! k = None \/ doc !! k = Some JUndefined ->
  Article.apply_set (Article.set_fields now doc) r !! k = r !! k.
Proof.
  intros Hne Hk. unfold Article.apply_set, Article.set_fields.
  apply lookup_union_r. rewrite lookup_insert_ne by done.
  by apply strip_lookup_omitted.
Qed.

Lemma index_key_idem (v : JsVal) :
  Article.index_key (Article.index_key v) = Article.index_key v.
Proof. by destruct v. Qed.

(** An update under the filter's own [article_id] leaves the document
    filed where it was. *)
Lemma set_keeps_article_id (doc r : Doc) (id : JsVal) :
  doc !! "article_id" = Some id ->
  Article.article_id_of r = Article.index_key id ->
  Article.article_id_of (Article.apply_set (Article.set_fields now doc) r)
  = Article.article_id_of r.
Proof.
  intros Hdoc Hr. unfold Article.article_id_of at 1. unfold get.
  destruct (decide (id = JUndefined)) as [-> | Hid].
  - rewrite set_lookup_omitted by (done || by right). done.
  - rewrite (set_lookup_supplied doc r "article_id" id) by done. by rewrite Hr.
Qed.

Lemma inserted_article_id (doc : Doc) (id : JsVal) :
  doc !! "article_id" = Some id ->
  Article.article_id_of (Article.inserted_doc now id doc) = Article.index_key id.
Proof.
  intros Hdoc. unfold Article.inserted_doc, Article.article_id_of, get.
  destruct (decide (id = JUndefined)) as [-> | Hid].
  - rewrite set_lookup_omitted by (done || by right).
    by rewrite lookup_insert_eq.
  - by rewrite (set_lookup_supplied doc _ "article_id" id) by done.
Qed.
End SetFields.

(** ** The collection under an upsert *)

Lemma find_index_insert (id : JsVal) (c : list Doc) (i : nat) (r r' : Doc) :
  c !! i = Some r ->
  Article.article_id_of r' = Article.article_id_of r ->
  Article.find_index id (<[i := r']> c) = Article.find_index id c.
Proof.
  revert i. induction c as [ | x c IH]; intros i Hi Hid; [ done | ].
  destruct i as [ | i]; cbn in *.
  - injection Hi as ->. unfold Article.matches_article_id. by rewrite Hid.
  - destruct (Article.matches_article_id id x); [ done | ].
    f_equal. by apply IH.
Qed.

Lemma find_index_app (id : JsVal) (c : list Doc) (x : Doc) :
  Article.find_index id (c ++ [x]) =
  match Article.find_index id c with
  | Some i => Some i
  | None => if Article.matches_article_id id x then Some (length c) else None
  end.
Proof.
  induction c as [ | y c IH]; cbn.
  - by destruct (Article.matches_article_id id x).
  - destruct (Article.matches_article_id id y); [ done | ].
    rewrite IH. destruct (Article.find_index id c); [ done | ].
    by destruct (Article.matches_article_id id x).
Qed.

Lemma unique_ids_insert (c : list Doc) (i : nat) (r r' : Doc) :
  c !! i = Some r ->
  Article.article_id_of r' = Article.article_id_of r ->
  unique_ids c -> unique_ids (<[i := r']> c).
Proof.
  intros Hi Hid. unfold unique_ids. rewrite list_fmap_insert, Hid.
  rewrite list_insert_id; [ done | ]. by rewrite list_lookup_fmap, Hi.
Qed.

Lemma unique_ids_app (c : list Doc) (x : Doc) :
  (forall r, r ∈ c -> Article.article_id_of r <> Article.article_id_of x) ->
  unique_ids c -> unique_ids (c ++ [x]).
Proof.
  intros Hfresh Hc. unfold unique_ids. rewrite fmap_app. apply NoDup_app.
  split; [ done | ]. split; [ | apply NoDup_singleton ].
  intros y Hy Hx. apply list_elem_of_fmap in Hy as (r & -> & Hr).
  apply list_elem_of_singleton in Hx. by apply (Hfresh r).
Qed.

Lemma kept_refl (c : list Doc) : kept c c.
Proof. intros i r Hi. eauto. Qed.

Lemma kept_trans (c1 c2 c3 : list Doc) : kept c1 c2 -> kept c2 c3 -> kept c1 c3.
Proof.
  intros H12 H23 i r Hi. destruct (H12 i r Hi) as (r2 & H2 & Hid2).
  destruct (H23 i r2 H2) as (r3 & H3 & Hid3). exists r3. split; [ done | congruence ].
Qed.

Lemma kept_insert (c : list Doc) (i : nat) (r r' : Doc) :
  c !! i = Some r ->
  Article.article_id_of r' = Article.article_id_of r ->
  kept c (<[i := r']> c).
Proof.
  intros Hi Hid j x Hj. destruct (decide (i = j)) as [<- | Hne].
  - exists r'. split; [ | congruence ].
    apply list_lookup_insert_eq. by apply lookup_lt_Some in Hi.
  - exists x. by rewrite list_lookup_insert_ne.
Qed.

Lemma kept_app (c : list Doc) (x : Doc) : kept c (c ++ [x]).
Proof. intros i r Hi. exists r. split; [ by apply lookup_app_l_Some | done ]. Qed.

Lemma kept_length (c c' : list Doc) : kept c c' -> (length c <= length c')%nat.
Proof.
  intros Hk. destruct (decide (length c <= length c')%nat) as [ | Hlt]; [ done | ].
  destruct (lookup_lt_is_Some_2 c (length c')) as [r Hr]; [ lia | ].
  destruct (Hk _ _ Hr) as (r' & Hr' & _). apply lookup_lt_Some in Hr'. lia.
Qed.

(** ** Records that fit the schema *)

Lemma fits_schema_cast (doc : Doc) :
  Article.fits_schema doc = true -> Article.cast_update doc = None.
Proof.
  unfold Article.fits_schema. rewrite forallb_forall. intros Hall.
  specialize (Hall ("pubDate", Article.TDate)). cbn [fst snd] in Hall.
  unfold Article.cast_update, get in *.
  destruct (doc !! "pubDate") as [[ | | | | | | [t | ] | ] | ]; try done.
  discriminate Hall. unfold Article.articleSchema. do 8 right. by left.
Qed.

Lemma typed_storable (E : Engine) (art : Doc) : typed E art -> storable E art.
Proof. intros [_ H]%andb_prop. by apply fits_schema_cast. Qed.

Lemma typed_all_storable (E : Engine) (arts : list Doc) :
  Forall (typed E) arts -> Forall (storable E) arts.
Proof. intros H. eapply Forall_impl; [ exact H | ]. intros art. apply typed_storable. Qed.

(** ** One turn of the loop *)

Section Turn.
Variable clock : nat -> Z.

Lemma store_article_turn (E : Engine) (art : Doc) (counts : Z * Z) :
  store_article E clock art counts = turn clock (get art "article_id") (buildDoc E art) counts.
Proof. reflexivity. Qed.

(** The three ways in which a turn of the loop ends: the update throws
    and the world is as before; the document filed under the article's
    id is overwritten in place; or a new document is appended. *)
Lemma turn_cases (id : JsVal) (doc : Doc) (counts : Z * Z) (w : World) :
  let c := collection (db w) in
  (exists e, turn clock id doc counts w = (Throw e, w)
     /\ (outage (db w) <> None \/ Article.cast_update doc <> None))
  \/ (exists i r,
        Article.find_index id c = Some i /\ c !! i = Some r
        /\ Article.article_id_of r = Article.index_key id
        /\ outage (db w) = None
        /\ turn clock id doc counts w =
           (Normal (if bool_decide
                        (Article.apply_set (Article.set_fields (clock (reads w)) doc) r = r)
                    then counts else (counts.1, counts.2 + 1)),
            set_collection
              (<[i := Article.apply_set (Article.set_fields (clock (reads w)) doc) r]> c)
              (tick w)))
  \/ (Article.find_index id c = None
      /\ outage (db w) = None
      /\ turn clock id doc counts w =
         (Normal (counts.1 + 1, counts.2),
          set_collection (c ++ [Article.inserted_doc (clock (reads w)) id doc])
            (tick w))).
Proof.
  intros c. unfold turn, bind. rewrite updateOne_run. fold c.
  destruct (Article.cast_update doc) as [e | ] eqn:Hcast.
  { left. exists e. split; [ done | ]. by right. }
  destruct (outage (db w)) as [msg | ] eqn:Hout.
  { left. eexists. split; [ done | ]. by left. }
  destruct (Article.find_index id c) as [i | ] eqn:Hfind.
  - right. left. destruct (find_index_Some _ _ _ Hfind) as (r & Hr & Hid).
    exists i, r. rewrite Hr. cbn zeta. repeat (split; [ done | ]).
    destruct counts as [ins upd]. unfold count_result. cbn.
    by case_bool_decide.
  - right. right. repeat (split; [ done | ]).
    by destruct counts as [ins upd].
Qed.

(** A turn deletes nothing and keeps the collection free of duplicate
    ids. *)
Lemma turn_keeps (id : JsVal) (doc : Doc) (counts : Z * Z) (w : World) :
  doc !! "article_id" = Some id ->
  let w' := (turn clock id doc counts w).2 in
  kept (collection (db w)) (collection (db w'))
  /\ (unique_ids (collection (db w)) -> unique_ids (collection (db w')))
  /\ outage (db w') = outage (db w)
  /\ readyState (db w') = readyState (db w).
Proof.
  intros Hdoc.
  destruct (turn_cases id doc counts w)
    as [(e & -> & _) | [(i & r & Hf & Hr & Hid & _ & ->) | (Hf & _ & ->)]]; cbn.
  - split; [ apply kept_refl | done ].
  - assert (Article.article_id_of
              (Article.apply_set (Article.set_fields (clock (reads w)) doc) r)
            = Article.article_id_of r) as Hsame
      by (by eapply set_keeps_article_id).
    split; [ by apply (kept_insert _ _ r) | ].
    split; [ by apply (unique_ids_insert _ _ r) | done ].
  - split; [ apply kept_app | ].
    split; [ | done ]. apply unique_ids_app. intros r Hr.
    rewrite (inserted_article_id _ _ _ Hdoc).
    by eapply find_index_None.
Qed.

(** After a turn that did not throw, the article's document carries the
    stamp of this turn, and the documents stamped before still carry a
    stamp of the past. *)
Lemma turn_stamps (id : JsVal) (doc : Doc) (counts counts' : Z * Z) (w w' : World) :
  doc !! "article_id" = Some id ->
  turn clock id doc counts w = (Normal counts', w') ->
  reads w' = S (reads w)
  /\ log w' = log w
  /\ stamped_before clock (reads w') (collection (db w')) id
  /\ (forall id0, stamped_before clock (reads w) (collection (db w)) id0 ->
        stamped_before clock (reads w') (collection (db w')) id0).
Proof.
  intros Hdoc Hrun.
  destruct (turn_cases id doc counts w)
    as [(e & He & _) | [(i & r & Hf & Hr & Hid & _ & He) | (Hf & _ & He)]];
    rewrite He in Hrun; [ discriminate | | ]; injection Hrun as <- <-;
    unfold stamped_before;
    cbn [collection db set_collection set_db tick reads log outage readyState].
  - set (r' := Article.apply_set (Article.set_fields (clock (reads w)) doc) r).
    assert (Article.article_id_of r' = Article.article_id_of r) as Hsame
      by (by eapply set_keeps_article_id).
    assert (i < length (collection (db w)))%nat as Hlt by (by eapply lookup_lt_Some).
    split; [ done | ]. split; [ done | ]. split.
    + exists i, r', (reads w).
      rewrite (find_index_insert _ _ _ r) by done.
      rewrite list_lookup_insert_eq by done.
      split; [ done | ]. split; [ done | ].
      split; [ apply set_lookup_updatedAt | lia ].
    + intros id0 (j & x & k & Hj & Hx & Hstamp & Hk).
      rewrite (find_index_insert _ _ _ r) by done.
      destruct (decide (i = j)) as [<- | Hne].
      * exists i, r', (reads w). rewrite list_lookup_insert_eq by done.
        split; [ done | ]. split; [ done | ].
        split; [ apply set_lookup_updatedAt | lia ].
      * exists j, x, k. rewrite list_lookup_insert_ne by done.
        repeat (split; [ done | ]). lia.
  - set (new := Article.inserted_doc (clock (reads w)) id doc).
    assert (Article.matches_article_id id new = true) as Hnew.
    { unfold Article.matches_article_id. apply bool_decide_eq_true.
      by apply inserted_article_id. }
    split; [ done | ]. split; [ done | ]. split.
    + exists (length (collection (db w))), new, (reads w).
      rewrite find_index_app, Hf, Hnew.
      split; [ done | ].
      split; [ by rewrite lookup_app_r, Nat.sub_diag by lia | ].
      split; [ apply set_lookup_updatedAt | lia ].
    + intros id0 (j & x & k & Hj & Hx & Hstamp & Hk).
      exists j, x, k. rewrite find_index_app, Hj.
      split; [ done | ]. split; [ by apply lookup_app_l_Some | ].
      split; [ done | lia ].
Qed.

Lemma stamped_later (n m : nat) (c : list Doc) (id : JsVal) :
  (n <= m)%nat -> stamped_before clock n c id -> stamped_before clock m c id.
Proof.
  intros Hnm (i & r & k & Hi & Hr & Hs & Hk). exists i, r, k.
  repeat (split; [ done | ]). lia.
Qed.

(** When the clock has moved on, a turn for an article whose document
    was stamped before counts as an update, and the collection keeps
    its length. *)
Lemma turn_again (id : JsVal) (doc : Doc) (counts : Z * Z) (w : World) :
  advancing clock ->
  outage (db w) = None -> Article.cast_update doc = None ->
  stamped_before clock (reads w) (collection (db w)) id ->
  exists w', turn clock id doc counts w = (Normal (counts.1, counts.2 + 1), w')
    /\ length (collection (db w')) = length (collection (db w))
    /\ outage (db w') = None.
Proof.
  intros Hclock Hout Hcast (i & r & k & Hi & Hr & Hstamp & Hk).
  destruct (turn_cases id doc counts w)
    as [(e & _ & [Ho | Hc]) | [(i' & r' & Hf & Hr' & _ & _ & He) | (Hf & _ & _)]];
    [ done | done | | congruence ].
  rewrite Hi in Hf. injection Hf as <-. rewrite Hr in Hr'. injection Hr' as <-.
  rewrite He. eexists. split.
  { f_equal. case_bool_decide as Heq; [ | done ]. exfalso.
    pose proof (set_lookup_updatedAt (clock (reads w)) doc r) as Hnew.
    rewrite Heq, Hstamp in Hnew. injection Hnew as Hnew.
    specialize (Hclock k (reads w) Hk). lia. }
  split; [ apply length_insert | done ].
Qed.
End Turn.

(** ** The loop over a batch *)

Section Batch.
Variable E : Engine.
Variable clock : nat -> Z.

(** While the store answers and every record passes the cast, the loop
    runs to its end, and every article of the batch is on file after
    it. *)
Lemma loop_stores (arts : list Doc) (counts : Z * Z) (w : World) :
  outage (db w) = None -> Forall (storable E) arts ->
  exists counts' w',
    for_of arts (store_article E clock) counts w = (Normal counts', w')
    /\ outage (db w') = None /\ log w' = log w
    /\ (reads w <= reads w')%nat
    /\ (forall id0, stamped_before clock (reads w) (collection (db w)) id0 ->
          stamped_before clock (reads w') (collection (db w')) id0)
    /\ Forall (filed clock w') arts.
Proof.
  revert counts w. induction arts as [ | art arts IH]; intros counts w Hout Hall.
  { exists counts, w. cbn. unfold ret. repeat (split; [ done | ]). constructor. }
  apply Forall_cons in Hall as [Hart Hall]. cbn [for_of]. unfold bind.
  rewrite store_article_turn.
  pose proof (turn_keeps clock _ _ counts w (buildDoc_article_id E art))
    as (_ & _ & Hout1 & _).
  destruct (turn_cases clock (get art "article_id") (buildDoc E art) counts w)
    as [(e & _ & [Ho | Hc]) | Hok]; [ done | done | ].
  assert (exists c1 w1, turn clock (get art "article_id") (buildDoc E art) counts w
                        = (Normal c1, w1)) as (c1 & w1 & Hrun).
  { destruct Hok as [(i & r & _ & _ & _ & _ & ->) | (_ & _ & ->)]; eauto. }
  rewrite Hrun in Hout1 |- *. cbn [snd] in Hout1.
  destruct (turn_stamps clock _ _ _ _ _ _ (buildDoc_article_id E art) Hrun)
    as (Hreads & Hlog & Hthis & Hothers).
  destruct (IH c1 w1) as (c2 & w2 & Hloop & Hout2 & Hlog2 & Hreads2 & Hothers2 & Hall2);
    [ congruence | done | ].
  exists c2, w2. split; [ done | ]. split; [ done | ]. split; [ congruence | ].
  split; [ lia | ]. split; [ auto | ].
  constructor; [ by apply Hothers2 | done ].
Qed.

(** When the clock has moved on and every article of the batch is on
    file already, each turn of the loop counts as an update, none as an
    insertion, and the collection keeps its length. *)
Lemma loop_updates (arts : list Doc) (counts : Z * Z) (w : World) :
  advancing clock ->
  outage (db w) = None -> Forall (storable E) arts -> Forall (filed clock w) arts ->
  exists w',
    for_of arts (store_article E clock) counts w
    = (Normal (counts.1, counts.2 + Z.of_nat (length arts)), w')
    /\ length (collection (db w')) = length (collection (db w))
    /\ log w' = log w.
Proof.
  intros Hclock. revert counts w.
  induction arts as [ | art arts IH]; intros counts w Hout Hall Hfiled.
  { exists w. cbn. unfold ret. destruct counts. cbn. by rewrite Z.add_0_r. }
  apply Forall_cons in Hall as [Hart Hall].
  apply Forall_cons in Hfiled as [Hthis Hfiled].
  cbn [for_of]. unfold bind. rewrite store_article_turn.
  destruct (turn_again clock _ _ counts w Hclock Hout Hart Hthis)
    as (w1 & Hrun & Hlen & Hout1).
  rewrite Hrun.
  destruct (turn_stamps clock _ _ _ _ _ _ (buildDoc_article_id E art) Hrun)
    as (Hreads & Hlog & _ & Hothers).
  destruct (IH (counts.1, counts.2 + 1) w1) as (w2 & Hloop & Hlen2 & Hlog2);
    [ done | done | | ].
  { eapply Forall_impl; [ apply Hfiled | ]. intros a Ha. by apply Hothers. }
  exists w2. rewrite Hloop. cbn [fst snd length].
  split; [ | split; congruence ].
  do 3 f_equal. lia.
Qed.

(** A run deletes nothing and keeps the collection free of duplicate
    ids, whatever the feed answers. *)
Lemma run_keeps (f : FetchOutcome) (w : World) :
  let w' := (fetchAndStoreNews E clock f w).2 in
  kept (collection (db w)) (collection (db w'))
  /\ (unique_ids (collection (db w)) -> unique_ids (collection (db w')))
  /\ outage (db w') = outage (db w)
  /\ readyState (db w') = readyState (db w).
Proof.
  assert (forall w', db w' = db w ->
            kept (collection (db w)) (collection (db w'))
            /\ (unique_ids (collection (db w)) -> unique_ids (collection (db w')))
            /\ outage (db w') = outage (db w)
            /\ readyState (db w') = readyState (db w)) as Hsame.
  { intros w' ->. split; [ apply kept_refl | done ]. }
  destruct f as [err | [ | [ | art arts] | ]]; try (apply Hsame; reflexivity).
  cbn zeta. rewrite fetch_articles.
  pose proof (for_of_invariant
    (fun w' => kept (collection (db w)) (collection (db w'))
               /\ (unique_ids (collection (db w)) -> unique_ids (collection (db w')))
               /\ outage (db w') = outage (db w)
               /\ readyState (db w') = readyState (db w))
    (store_article E clock)) as Hinv.
  specialize (Hinv ltac:(
    intros x acc w1 (Hk & Hu & Ho & Hr); rewrite store_article_turn;
    pose proof (turn_keeps clock _ _ acc w1 (buildDoc_article_id E x))
      as (Hk1 & Hu1 & Ho1 & Hr1);
    split; [ by eapply kept_trans | ];
    split; [ auto | ]; split; congruence)).
  specialize (Hinv (art :: arts) (0, 0) (started clock w) (Hsame _ eq_refl)).
  destruct (for_of (art :: arts) (store_article E clock) (0, 0) (started clock w))
    as [[c | e | ] w']; exact Hinv.
Qed.

(** C1.  Running the job twice on the same batch leaves no two documents
    with the same [article_id]; and when the clock has moved on, the
    store answers and the records of the batch fit the schema (so that
    the cast of the update accepts them as they are), the second run
    counts every article of the batch as updated and none as inserted,
    and the store holds as many documents after it as before it. *)
Theorem C1_second_run_is_idempotent (batch : list Doc) (w0 : World) :
  let job := fetchAndStoreNews E clock (Resolved (ResultsArray batch)) in
  let w1 := (job w0).2 in
  let w2 := (job w1).2 in
  unique_ids (collection (db w0)) ->
  unique_ids (collection (db w2))
  /\ (advancing clock -> outage (db w0) = None ->
      Forall (typed E) batch -> batch <> [] ->
      length (collection (db w2)) = length (collection (db w1))
      /\ log w2
         = (log w1 ++ [LogFetching (clock (reads w1));
                       LogDone 0 (Z.of_nat (length batch))
                         (Z.of_nat (length batch))])%list).
Proof.
  intros job w1 w2 Huniq. split.
  { apply run_keeps. by apply run_keeps. }
  intros Hclock Hout Htyped Hne.
  pose proof (typed_all_storable E batch Htyped) as Hall.
  destruct batch as [ | art arts]; [ done | ]. clear Hne.
  subst w2 w1 job.
  destruct (loop_stores (art :: arts) (0, 0) (started clock w0) Hout Hall)
    as (c1 & v1 & Hloop1 & Hout1 & Hlog1 & Hreads1 & _ & Hfiled1).
  rewrite (fetch_articles E clock art arts w0), Hloop1. cbn [snd].
  set (w1 := logged _ v1).
  assert (Forall (filed clock (started clock w1)) (art :: arts)) as Hfiled.
  { eapply Forall_impl; [ apply Hfiled1 | ]. intros a Ha.
    eapply stamped_later; [ | apply Ha ]. cbn. lia. }
  destruct (loop_updates (art :: arts) (0, 0) (started clock w1) Hclock Hout1 Hall Hfiled)
    as (v2 & Hloop2 & Hlen2 & Hlog2).
  rewrite (fetch_articles E clock art arts w1), Hloop2. cbn [snd fst].
  split; [ done | ].
  unfold logged. cbn [log]. rewrite Hlog2. unfold started. cbn [log].
  by rewrite <- app_assoc.
Qed.
End Batch.

(** ** Bodies that only read the store *)

Lemma reads_only_ret {A} (a : A) : reads_only (ret a).
Proof. intros w. reflexivity. Qed.

Lemma reads_only_throw {A} (e : JsError) : reads_only (@throw A e).
Proof. intros w. reflexivity. Qed.

Lemma reads_only_beyond {A} : reads_only (@beyond A).
Proof. intros w. reflexivity. Qed.

Lemma reads_only_console (l : LogLine) : reads_only (console l).
Proof. intros w. reflexivity. Qed.

Lemma reads_only_read_db : reads_only read_db.
Proof. intros w. reflexivity. Qed.

Lemma reads_only_bind {A B} (m : M A) (k : A -> M B) :
  reads_only m -> (forall a, reads_only (k a)) -> reads_only (bind m k).
Proof.
  intros Hm Hk w. unfold bind. specialize (Hm w).
  destruct (m w) as [[a | e | ] w']; cbn in *; [ | done | done ].
  by rewrite Hk.
Qed.

Lemma reads_only_try_catch {A} (body : M A) (handler : JsError -> M A) :
  reads_only body -> (forall e, reads_only (handler e)) -> reads_only (try_catch body handler).
Proof.
  intros Hb Hh w. unfold try_catch. specialize (Hb w).
  destruct (body w) as [[a | e | ] w']; cbn in *; [ done | | done ].
  by rewrite Hh.
Qed.

Lemma reads_only_connected : reads_only Article.connected.
Proof.
  apply reads_only_bind; [ apply reads_only_read_db | ].
  intros d. destruct (outage d); [ apply reads_only_throw | apply reads_only_ret ].
Qed.

Lemma reads_only_prepared (f : Article.Filter) : reads_only (Article.prepared f).
Proof.
  unfold Article.prepared.
  destruct (Article.prepare f);
    [ apply reads_only_ret | apply reads_only_throw | apply reads_only_beyond ].
Qed.

Lemma reads_only_find_page (f : Article.Filter) (skip limit : JsNum) :
  reads_only (Article.find_page f skip limit).
Proof.
  apply reads_only_bind; [ apply reads_only_connected | intros rows ].
  apply reads_only_bind; [ apply reads_only_prepared | intros test ].
  destruct (Article.skip_count skip); [ apply reads_only_ret | apply reads_only_throw ].
Qed.

Lemma reads_only_countDocuments (f : Article.Filter) :
  reads_only (Article.countDocuments f).
Proof.
  apply reads_only_bind; [ apply reads_only_connected | intros rows ].
  apply reads_only_bind; [ apply reads_only_prepared | intros test ].
  apply reads_only_ret.
Qed.

Lemma reads_only_distinct (field : string) : reads_only (Article.distinct field).
Proof.
  apply reads_only_bind; [ apply reads_only_connected | intros rows ].
  apply reads_only_ret.
Qed.

(** The query service is read-only: no handler changes the store. *)
Lemma handlers_read_only (E : Engine) (q : Req.query) :
  reads_only (news_handler E q) /\ reads_only filters_handler
  /\ reads_only status_handler.
Proof.
  split; [ | split ].
  - apply reads_only_try_catch.
    + apply reads_only_bind; [ apply reads_only_find_page | intros rows ].
      apply reads_only_bind; [ apply reads_only_countDocuments | intros n ].
      apply reads_only_ret.
    + intros e. apply reads_only_bind; [ apply reads_only_console | intros _ ].
      apply reads_only_ret.
  - apply reads_only_try_catch; [ | intros e; apply reads_only_ret ].
    do 4 (apply reads_only_bind; [ apply reads_only_distinct | intros ? ]).
    apply reads_only_ret.
  - apply reads_only_bind; [ apply reads_only_countDocuments | intros n ].
    apply reads_only_bind.
    { apply reads_only_bind; [ apply reads_only_connected | intros rows ].
      apply reads_only_ret. }
    intros latest. apply reads_only_bind; [ apply reads_only_read_db | intros d ].
    apply reads_only_ret.
Qed.

Lemma C1_second_run_is_idempotent_witness :
  let job := fetchAndStoreNews iso_utc clock_demo (Resolved (ResultsArray [art_dated])) in
  unique_ids (collection (db (job (job world_empty).2).2))
  /\ length (collection (db (job (job world_empty).2).2))
     = length (collection (db (job world_empty).2))
  /\ log (job (job world_empty).2).2
     = (log (job world_empty).2
        ++ [LogFetching (clock_demo (reads (job world_empty).2)); LogDone 0 1 1])%list.
Proof.
  destruct (C1_second_run_is_idempotent iso_utc clock_demo [art_dated] world_empty)
    as [Hu Hc].
  - apply NoDup_nil_2.
  - split; [ exact Hu | ]. apply Hc.
    + intros j k Hjk. unfold clock_demo. lia.
    + reflexivity.
    + constructor; [ vm_compute; reflexivity | constructor ].
    + discriminate.
Defined.

(** ** Overwriting and keeping *)

Section Overwrite.
Variable E : Engine.
Variable clock : nat -> Z.

Lemma buildDoc_verbatim (art : Doc) (k : string) :
  k ∈ verbatim_keys -> buildDoc E art !! k = Some (get art k).
Proof.
  intros Hk. unfold verbatim_keys in Hk.
  repeat (apply elem_of_cons in Hk as [-> | Hk]; [ reflexivity | ]).
  by apply elem_of_nil in Hk.
Qed.

Lemma buildDoc_defaulted (art : Doc) (k : string) :
  k ∈ defaulted_keys ->
  exists v, buildDoc E art !! k = Some v /\ v <> JUndefined.
Proof.
  intros Hk. unfold defaulted_keys in Hk.
  assert (forall x d, d <> JUndefined -> or_else x d <> JUndefined) as Hor.
  { intros x d Hd. unfold or_else. by destruct x; cbn; try case_match. }
  repeat (apply elem_of_cons in Hk as [-> | Hk];
          [ eexists; split; [ reflexivity | ]; try (by apply Hor) | ]).
  - destruct (truthy (get art "pubDate")); [ | done ].
    by destruct (get art "pubDate").
  - by apply elem_of_nil in Hk.
Qed.

Lemma buildDoc_no_stamp (art : Doc) : buildDoc E art !! "updatedAt" = None.
Proof. reflexivity. Qed.

Lemma buildDoc_no_createdAt (art : Doc) : buildDoc E art !! "createdAt" = None.
Proof. reflexivity. Qed.

(** C2, as amended.  An upsert for an [article_id] that is on file, of
    an article whose record fits the schema, overwrites the stored
    document in place: every field that the new record supplies takes
    the new value, and [keywords], [creator],
    [country], [category], [pubDate] and [datatype] always do (with
    their defaults when the payload omits them); a field that the
    payload omits among the fields copied as they are keeps its stored
    value, as does [createdAt], and [updatedAt] takes the time of the
    upsert.  No run of the job deletes a document, and the handlers of
    the query service leave the store as it is. *)
Theorem C2_upsert_overwrites_supplied_fields
    (art : Doc) (counts : Z * Z) (w : World) (i : nat) (r : Doc) :
  outage (db w) = None -> typed E art ->
  Article.find_index (get art "article_id") (collection (db w)) = Some i ->
  collection (db w) !! i = Some r ->
  (exists r',
     collection (db (store_article E clock art counts w).2)
     = <[i := r']> (collection (db w))
     /\ (forall k v, buildDoc E art !! k = Some v -> v <> JUndefined ->
           r' !! k = Some v)
     /\ (forall k, k ∈ defaulted_keys -> r' !! k = buildDoc E art !! k)
     /\ (forall k, k ∈ verbatim_keys -> art !! k = None -> r' !! k = r !! k)
     /\ r' !! "createdAt" = r !! "createdAt"
     /\ r' !! "updatedAt" = Some (JDate (Some (clock (reads w)))))
  /\ (forall f w0, kept (collection (db w0))
                     (collection (db (fetchAndStoreNews E clock f w0).2)))
  /\ (forall q, reads_only (news_handler E q))
  /\ reads_only filters_handler /\ reads_only status_handler.
Proof.
  intros Hout Htyped Hfind Hr. pose proof (typed_storable E art Htyped) as Hcast.
  split; [ | split; [ intros f w0; apply run_keeps | ] ];
    [ | split; [ intros q; apply (handlers_read_only E q)
               | apply (handlers_read_only E Req.empty) ] ].
  rewrite store_article_turn.
  destruct (turn_cases clock (get art "article_id") (buildDoc E art) counts w)
    as [(e & _ & [Ho | Hc]) | [(i' & r0 & Hf & Hr0 & _ & _ & ->) | (Hf & _ & _)]];
    [ done | done | | congruence ].
  rewrite Hfind in Hf. injection Hf as <-. rewrite Hr in Hr0. injection Hr0 as <-.
  eexists. split; [ reflexivity | ].
  assert (forall k v, buildDoc E art !! k = Some v -> k <> "updatedAt") as Hne.
  { intros k v Hk ->. by rewrite buildDoc_no_stamp in Hk. }
  split; [ | split; [ | split; [ | split ] ] ].
  - intros k v Hk Hv. apply set_lookup_supplied; eauto.
  - intros k Hk. destruct (buildDoc_defaulted art k Hk) as (v & Hv & Hu).
    rewrite Hv. apply set_lookup_supplied; eauto.
  - intros k Hk Habs. pose proof (buildDoc_verbatim art k Hk) as Hv.
    apply set_lookup_omitted; [ eauto | ]. right.
    by rewrite Hv, (get_absent _ _ Habs).
  - apply set_lookup_omitted; [ done | ]. left. apply buildDoc_no_createdAt.
  - apply set_lookup_updatedAt.
Qed.
End Overwrite.

(** The stored description outlives an upsert whose payload has none: the
    document after the upsert joins the new title with the old
    description. *)
Lemma C2_omitted_field_is_not_replaced :
  let after := collection (db (store_article iso_utc clock_demo payload_a1 (0, 0) world_a1).2) in
  payload_a1 !! "description" = None
  /\ Article.strip_undefined (buildDoc iso_utc payload_a1) !! "description" = None
  /\ (fun r : Doc => r !! "title") <$> after = [Some (JStr "New")]
  /\ (fun r : Doc => r !! "description") <$> after = [Some (JStr "D")].
Proof.
  cbv zeta. split; [ reflexivity | ]. split; [ vm_compute; reflexivity | ].
  split; vm_compute; reflexivity.
Qed.

Lemma C2_upsert_overwrites_supplied_fields_witness :
  exists r',
    collection (db (store_article iso_utc clock_demo payload_a1 (0, 0) world_a1).2)
    = <[0%nat := r']> [stored_a1]
    /\ r' !! "title" = Some (JStr "New")
    /\ r' !! "keywords" = Some (JArr [])
    /\ r' !! "description" = Some (JStr "D").
Proof.
  destruct (C2_upsert_overwrites_supplied_fields iso_utc clock_demo payload_a1 (0, 0)
              world_a1 0%nat stored_a1) as [(r' & Hc & Hs & Hd & Hv & _) _];
    [ reflexivity | vm_compute; reflexivity | reflexivity | reflexivity | ].
  exists r'. split; [ exact Hc | ].
  split; [ apply Hs; [ reflexivity | discriminate ] | ].
  split; [ rewrite Hd; [ reflexivity | unfold defaulted_keys; apply list_elem_of_here ] | ].
  rewrite Hv; [ reflexivity | | reflexivity ].
  unfold verbatim_keys. do 4 apply list_elem_of_further. apply list_elem_of_here.
Defined.

(** ** The handlers and a store that fails *)

Section HandlerRuns.
Variable E : Engine.

(** The list handler, by the outcome of its two store operations. *)
Lemma news_handler_run (q : Req.query) (w : World) :
  let filter := build_filter E q in
  let page := parseInt_or (Req.page q) 1 in
  let limit := parseInt_or (Req.limit q) 20 in
  let failed e w' :=
    (Normal (mkResponse 500 (Failed (message e))), logged (LogNewsError (message e)) w') in
  news_handler E q w =
  match Article.find_page filter (Arith.mul (Arith.pred page) limit) limit w with
  | (Normal articles, w1) =>
      match Article.countDocuments filter w1 with
      | (Normal total, w2) =>
          (Normal (mkResponse 200
                     (NewsPage total page (Arith.ceil_div total limit) articles)), w2)
      | (Throw e, w2) => failed e w2
      | (Beyond, w2) => (Beyond, w2)
      end
  | (Throw e, w1) => failed e w1
  | (Beyond, w1) => (Beyond, w1)
  end.
Proof.
  cbv zeta. unfold news_handler, try_catch, bind.
  destruct (Article.find_page _ _ _ w) as [[articles | e | ] w1]; [ | reflexivity | reflexivity ].
  destruct (Article.countDocuments _ w1) as [[total | e | ] w2]; reflexivity.
Qed.

Lemma connected_outage (w : World) (msg : string) :
  outage (db w) = Some msg -> Article.connected w = (Throw (mkError msg None), w).
Proof. intros Hout. unfold Article.connected, bind, read_db. by rewrite Hout. Qed.

Lemma connected_up (w : World) :
  outage (db w) = None -> Article.connected w = (Normal (collection (db w)), w).
Proof. intros Hout. unfold Article.connected, bind, read_db. by rewrite Hout. Qed.

(** [GET /api/news] answers a failing store with status 500 and the
    message of the error. *)
Lemma news_handler_outage (q : Req.query) (w : World) (msg : string) :
  outage (db w) = Some msg ->
  news_handler E q w
  = (Normal (mkResponse 500 (Failed msg)), logged (LogNewsError msg) w).
Proof.
  intros Hout. rewrite news_handler_run. cbv zeta.
  unfold Article.find_page, bind. by rewrite (connected_outage w msg).
Qed.

(** So does [GET /api/filters]. *)
Lemma filters_handler_outage (w : World) (msg : string) :
  outage (db w) = Some msg ->
  filters_handler w = (Normal (mkResponse 500 (Failed msg)), w).
Proof.
  intros Hout. unfold filters_handler, try_catch, Article.distinct, bind.
  by rewrite (connected_outage w msg).
Qed.

(** [GET /api/status] has no [try]: the error of a failing store leaves
    the handler, and no response is sent. *)
Lemma status_handler_outage (w : World) (msg : string) :
  outage (db w) = Some msg ->
  status_handler w = (Throw (mkError msg None), w)
  /\ reply status_handler w = None.
Proof.
  intros Hout.
  assert (status_handler w = (Throw (mkError msg None), w)) as Hrun.
  { unfold status_handler, Article.countDocuments, bind.
    by rewrite (connected_outage w msg). }
  split; [ done | ]. unfold reply. by rewrite Hrun.
Qed.




End HandlerRuns.

(** C9 at a store that cannot be reached: [GET /api/status] sends no
    response at all (the error escapes the handler), while
    [GET /api/news] and [GET /api/filters] answer with status 500 and
    [{ success: false, error }]. *)
Theorem C9_status_sends_no_error_response :
  reply status_handler world_down = None
  /\ (status_handler world_down).1 = Throw (mkError "connection refused" None)
  /\ reply (news_handler iso_utc Req.empty) world_down
     = Some (mkResponse 500 (Failed "connection refused"))
  /\ reply filters_handler world_down
     = Some (mkResponse 500 (Failed "connection refused")).
Proof.
  destruct (status_handler_outage world_down "connection refused" eq_refl) as [Hrun Hreply].
  split; [ exact Hreply | ]. split; [ by rewrite Hrun | ].
  unfold reply.
  rewrite (news_handler_outage iso_utc Req.empty world_down "connection refused" eq_refl).
  by rewrite (filters_handler_outage world_down "connection refused" eq_refl).
Qed.



(** ** Country and category *)

Lemma given_nonempty (s : string) : s <> "" -> given (Some s) = true.
Proof. intros Hs. cbn. by destruct (String.eqb_spec s ""). Qed.



Section Selection.
Variable E : Engine.




End Selection.


(** The examples of the specification: of [a1] with categories
    [tech, ai] and [a2] with [tech], [category=tech,ai] returns only
    [a1]; of [a1] in [us] and [a2] in [fr], [country=us,uk] returns only
    [a1]. *)
Example category_and_country_examples :
  selects iso_utc (only_category "tech,ai") stored_us = Some true
  /\ selects iso_utc (only_category "tech,ai") stored_fr = Some false
  /\ selects iso_utc (only_country "us,uk") stored_us = Some true
  /\ selects iso_utc (only_country "us,uk") stored_fr = Some false.
Proof. repeat split; vm_compute; reflexivity. Qed.

(** ** Case of the compared values *)







(** ** Trimming and lower case *)















Lemma lower_char_spec (c : ascii) : lower_of c (lower_char c).
Proof.
  unfold lower_of, lower_char.
  destruct (is_upper c) eqn:Hc; [ right | left; done ].
  split; [ done | ].
  destruct c as [[] [] [] [] [] [] [] []]; first [ discriminate Hc | reflexivity ].
Qed.

Lemma toLowerCase_spec (s : string) :
  Forall2 lower_of (list_ascii_of_string s) (list_ascii_of_string (toLowerCase s)).
Proof.
  induction s as [ | c s IH]; cbn; constructor; [ apply lower_char_spec | done ].
Qed.






Section Case.
Variable E : Engine.

End Case.


(** ** Search: a pattern, not a text *)

Lemma is_meta_false (c : ascii) :
  Regex.is_meta c = false ->
  Ascii.eqb c "\" = false /\ Ascii.eqb c "^" = false /\ Ascii.eqb c "$" = false
  /\ Ascii.eqb c "." = false /\ Ascii.eqb c "[" = false /\ Ascii.eqb c "|" = false
  /\ Ascii.eqb c "(" = false /\ Ascii.eqb c ")" = false /\ Ascii.eqb c "?" = false
  /\ Ascii.eqb c "*" = false /\ Ascii.eqb c "+" = false /\ Ascii.eqb c "{" = false.
Proof.
  unfold Regex.is_meta. intros H.
  repeat (apply orb_false_elim in H as [H ?]). tauto.
Qed.

(** A character without special meaning is read as itself. *)
Lemma step_plain (stk : list Regex.Frame) (f : Regex.Frame) (m : Regex.Mode) (c : ascii) :
  Regex.is_meta c = false -> m <> Regex.MEsc ->
  Regex.step (Regex.mkP stk f m) c
  = Regex.Go (Regex.mkP stk (Regex.mkFrame (Regex.alts f) (Regex.Lit c :: Regex.items f))
                Regex.MAtom).
Proof.
  intros Hc Hm. apply is_meta_false in Hc
    as (H1 & H2 & H3 & H4 & H5 & H6 & H7 & H8 & H9 & H10 & H11 & H12).
  unfold Regex.step. cbn [Regex.mode Regex.stack Regex.cur].
  rewrite H1, H2, H3, H4, H5, H6, H7, H8, H9, H10, H11, H12. cbn.
  by destruct m.
Qed.

Lemma read_plain (s : string) (its : list Regex.regex) (m : Regex.Mode) :
  has_meta s = false -> m <> Regex.MEsc ->
  Regex.read (Regex.mkP [] (Regex.mkFrame [] its) m) s
  = Regex.Pattern (Regex.seq_regex (rev its ++ (Regex.Lit <$> list_ascii_of_string s))).
Proof.
  revert its m. induction s as [ | c s IH]; intros its m Hs Hm.
  - cbn. rewrite app_nil_r. by destruct m.
  - cbn in Hs. apply orb_false_elim in Hs as [Hc Hs].
    cbn [Regex.read]. rewrite step_plain by done. cbn [Regex.alts Regex.items].
    rewrite IH by done. cbn [rev list_ascii_of_string fmap list_fmap].
    by rewrite <- app_assoc.
Qed.

(** A text without special characters compiles to the pattern of its
    characters. *)
Lemma compile_plain (s : string) :
  has_meta s = false -> Regex.compile s = Regex.Pattern (lits (list_ascii_of_string s)).
Proof. intros Hs. unfold Regex.compile. by rewrite read_plain. Qed.

Lemma chars_toLowerCase (s : string) :
  list_ascii_of_string (toLowerCase s) = lower_char <$> list_ascii_of_string s.
Proof. induction s as [ | c s IH]; cbn; [ done | by rewrite IH ]. Qed.

(** Where the pattern of a text can end: after the text, if the text
    stands at the position. *)
Lemma ends_lits (cs s : list ascii) (i : nat) :
  Regex.ends true (lits cs) s i
  = if starts_with (lower_char <$> cs) (lower_char <$> drop i s)
    then [(i + length cs)%nat] else [].
Proof.
  revert i. induction cs as [ | c cs IH]; intros i.
  - cbn. by rewrite Nat.add_0_r.
  - change (lits (c :: cs)) with (Regex.Seq (Regex.Lit c) (lits cs)).
    cbn [Regex.ends]. destruct (s !! i) as [c' | ] eqn:Hi.
    + rewrite (drop_S _ _ _ Hi). cbn [fmap list_fmap starts_with].
      unfold Regex.same_char. destruct (Ascii.eqb (lower_char c) (lower_char c')); [ | done ].
      cbn [flat_map andb]. rewrite app_nil_r, IH. cbn [length].
      by rewrite Nat.add_succ_r.
    + rewrite drop_ge by (by apply lookup_ge_None). done.
Qed.

Lemma contains_positions (p s : list ascii) :
  contains p s = existsb (fun i => starts_with p (drop i s)) (seq 0 (S (length s))).
Proof.
  induction s as [ | a s IH].
  - cbn. by rewrite orb_false_r.
  - cbn [contains]. rewrite IH. cbn [length].
    change (seq 0 (S (S (length s)))) with (0%nat :: seq 1 (S (length s))).
    cbn [existsb drop]. f_equal. rewrite <- fmap_S_seq. clear IH.
    induction (seq 0 (S (length s))) as [ | j js IHj]; [ done | ].
    cbn. by rewrite IHj.
Qed.

(** For a text without special characters the matcher looks for the text,
    case ignored. *)
Lemma search_lits (p s : string) :
  Regex.search true (lits (list_ascii_of_string p)) s = occurs_ci p s.
Proof.
  unfold Regex.search, occurs_ci. rewrite !chars_toLowerCase, contains_positions.
  rewrite length_fmap.
  induction (seq 0 (S (length (list_ascii_of_string s)))) as [ | i js IH]; [ done | ].
  cbn [existsb]. rewrite IH. f_equal. rewrite ends_lits, fmap_drop.
  by destruct (starts_with _ _).
Qed.

Lemma contains_spec (p s : list ascii) :
  contains p s = true <-> exists pre suf, s = (pre ++ p ++ suf)%list.
Proof.
  assert (forall p s, starts_with p s = true <-> exists suf, s = (p ++ suf)%list) as Hstart.
  { clear. induction p as [ | a p IH]; intros s; cbn.
    - split; [ eauto | done ].
    - destruct s as [ | b s]; [ split; [ done | by intros [suf ?] ] | ].
      rewrite andb_true_iff, IH. split.
      + intros [Hab [suf ->]]. apply Ascii.eqb_eq in Hab as ->. eauto.
      + intros [suf [= -> ->]]. split; [ apply Ascii.eqb_refl | eauto ]. }
  induction s as [ | b s IH]; cbn [contains]; rewrite orb_true_iff, Hstart.
  - split.
    + intros [[suf ->] | ?]; [ by exists [], suf | done ].
    + intros (pre & suf & Heq). left. destruct pre; [ eauto | done ].
  - rewrite IH. split.
    + intros [[suf ->] | (pre & suf & ->)]; [ by exists [], suf | by exists (b :: pre), suf ].
    + intros (pre & suf & Heq). destruct pre as [ | b' pre]; [ left; eauto | right ].
      injection Heq as -> ->. eauto.
Qed.

Lemma existsb_same {A} (f g : A -> bool) (l : list A) :
  (forall x, f x = g x) -> existsb f l = existsb g l.
Proof. intros H. induction l as [ | x l IH]; cbn; [ done | by rewrite H, IH ]. Qed.

Lemma ascii_text_checked (v : JsVal) :
  forallb ascii_only (Article.field_strings v) = true -> ascii_text v.
Proof.
  intros Hall t Ht. apply list_elem_of_In in Ht.
  by apply (proj1 (forallb_forall _ _) Hall).
Qed.

Section Search.
Variable E : Engine.

Lemma selects_only_search (s : string) (r : Doc) :
  s <> "" ->
  selects E (only_search s) r
  = match Regex.compile s with
    | Regex.Pattern rs =>
        Some (Article.regex_match rs (get r "title")
              || Article.regex_match rs (get r "description"))
    | _ => None
    end.
Proof.
  intros Hs. unfold selects, build_filter, only_search, Article.prepare. cbn.
  destruct (String.eqb_spec s ""); [ done | ]. cbn.
  by destruct (Regex.compile s).
Qed.

(** C7, as amended.  For a search text without characters that are
    special in a regular expression, a document is selected iff the
    text occurs, case ignored, in its title or in its description
    (search text, title and description being ASCII text, where
    ignoring the case means taking A to Z for a to z).  With such
    characters the text is read as a pattern. *)
Theorem C7_search_text_without_metacharacters (s : string) (r : Doc) :
  s <> "" -> has_meta s = false -> ascii_only s = true ->
  ascii_text (get r "title") -> ascii_text (get r "description") ->
  selects E (only_search s) r = Some (text_occurs s r)
  /\ (selects E (only_search s) r = Some true
      <-> exists t, (t ∈ Article.field_strings (get r "title")
                     \/ t ∈ Article.field_strings (get r "description"))
                    /\ exists pre suf,
                         list_ascii_of_string (toLowerCase t)
                         = (pre ++ list_ascii_of_string (toLowerCase s) ++ suf)%list).
Proof.
  intros Hs Hplain _ _ _.
  assert (selects E (only_search s) r = Some (text_occurs s r)) as Hsel.
  { rewrite selects_only_search, compile_plain by done.
    unfold text_occurs, Article.regex_match. do 2 f_equal.
    - apply existsb_same. intros t. apply search_lits.
    - apply existsb_same. intros t. apply search_lits. }
  split; [ done | ]. rewrite Hsel. unfold text_occurs. split.
  - intros [= Hor]. apply orb_true_iff in Hor as [Ht | Ht];
      apply existsb_exists in Ht as (t & Hin & Hocc);
      apply list_elem_of_In in Hin; apply contains_spec in Hocc; eauto.
  - intros (t & Hin & Hocc). f_equal. apply orb_true_iff.
    apply contains_spec in Hocc.
    destruct Hin as [Hin | Hin]; [ left | right ];
      apply existsb_exists; exists t; by rewrite <- list_elem_of_In.
Qed.
End Search.

(** The search [a.c] selects a document titled [abc], in which the text
    [a.c] does not occur; and the search [(] selects nothing and fails,
    although the text could occur. *)
Lemma C7_search_is_a_pattern :
  selects iso_utc (only_search "a.c") stored_fr = Some true
  /\ text_occurs "a.c" stored_fr = false
  /\ reply (news_handler iso_utc (only_search "(")) world_three
     = Some (mkResponse 500 (Failed "Regular expression is invalid")).
Proof. repeat split; vm_compute; reflexivity. Qed.

Lemma C7_search_text_without_metacharacters_witness :
  selects iso_utc (only_search "election") stored_us = Some true
  /\ selects iso_utc (only_search "election") stored_fr = Some true
  /\ selects iso_utc (only_search "election") stored_plain = Some false.
Proof.
  destruct (C7_search_text_without_metacharacters iso_utc "election" stored_us) as [H1 _];
    [ discriminate | reflexivity | reflexivity
    | apply ascii_text_checked; reflexivity | apply ascii_text_checked; reflexivity | ].
  destruct (C7_search_text_without_metacharacters iso_utc "election" stored_fr) as [H2 _];
    [ discriminate | reflexivity | reflexivity
    | apply ascii_text_checked; reflexivity | apply ascii_text_checked; reflexivity | ].
  destruct (C7_search_text_without_metacharacters iso_utc "election" stored_plain) as [H3 _];
    [ discriminate | reflexivity | reflexivity
    | apply ascii_text_checked; reflexivity | apply ascii_text_checked; reflexivity | ].
  rewrite H1, H2, H3. repeat split; vm_compute; reflexivity.
Defined.

(** ** Sorting and paging *)

Lemma not_older_total (a b : Doc) :
  Article.not_older a b = true \/ Article.not_older b a = true.
Proof.
  unfold Article.not_older.
  destruct (Article.pubDate_key a), (Article.pubDate_key b); auto. lia.
Qed.

Lemma not_older_trans (a b c : Doc) :
  Article.not_older a b = true -> Article.not_older b c = true ->
  Article.not_older a c = true.
Proof.
  unfold Article.not_older.
  destruct (Article.pubDate_key a), (Article.pubDate_key b), (Article.pubDate_key c);
    try done. lia.
Qed.

Lemma insert_by_date_perm (r : Doc) (l : list Doc) :
  Permutation (Article.insert_by_date r l) (r :: l).
Proof.
  induction l as [ | x l IH]; cbn; [ done | ].
  destruct (Article.not_older r x); [ done | ].
  rewrite IH. apply perm_swap.
Qed.

Lemma insert_by_date_sorted (r : Doc) (l : list Doc) :
  StronglySorted newest_first l -> StronglySorted newest_first (Article.insert_by_date r l).
Proof.
  induction l as [ | x l IH]; intros Hl; cbn.
  - repeat constructor.
  - apply StronglySorted_inv in Hl as [Hl Hx].
    destruct (Article.not_older r x) eqn:Hrx.
    + constructor; [ by constructor | ]. constructor; [ done | ].
      eapply Forall_impl; [ apply Hx | ]. intros y Hy. by eapply not_older_trans.
    + constructor; [ by apply IH | ].
      rewrite insert_by_date_perm. constructor; [ | done ].
      destruct (not_older_total r x) as [H | H]; [ congruence | done ].
Qed.

Lemma sort_newest_first_perm (l : list Doc) : Permutation (Article.sort_newest_first l) l.
Proof.
  induction l as [ | x l IH]; cbn; [ done | ].
  rewrite insert_by_date_perm. by constructor.
Qed.

Lemma sort_newest_first_sorted (l : list Doc) :
  StronglySorted newest_first (Article.sort_newest_first l).
Proof.
  induction l as [ | x l IH]; cbn; [ constructor | by apply insert_by_date_sorted ].
Qed.

(** [Math.ceil(total / l)] for a positive [l] is the least number of pages
    of [l] rows that hold [total] rows. *)
Lemma ceil_div_pages (total l : Z) :
  0 <= total -> 1 <= l ->
  exists pages, Arith.ceil_div total (Num l) = Num pages
                /\ (pages - 1) * l < total <= pages * l.
Proof.
  intros Ht Hl. unfold Arith.ceil_div. destruct (Z.eqb_spec l 0); [ lia | ].
  eexists. split; [ reflexivity | ].
  pose proof (Z.div_mod (- total) l ltac:(lia)) as Hdm.
  pose proof (Z.mod_pos_bound (- total) l ltac:(lia)) as Hm. nia.
Qed.

Section Paging.
Variable E : Engine.

Lemma find_page_up (f : Article.Filter) (test : Doc -> bool) (skip limit : JsNum)
    (n : option nat) (w : World) :
  outage (db w) = None -> Article.prepare f = Article.Ready test ->
  Article.skip_count skip = Some n ->
  Article.find_page f skip limit w
  = (Normal (Article.window n (Article.limit_count limit)
               (Article.sort_newest_first (List.filter test (collection (db w))))), w).
Proof.
  intros Hout Hp Hs. unfold Article.find_page, bind, Article.prepared.
  rewrite (connected_up w Hout), Hp, Hs. reflexivity.
Qed.

Lemma countDocuments_up (f : Article.Filter) (test : Doc -> bool) (w : World) :
  outage (db w) = None -> Article.prepare f = Article.Ready test ->
  Article.countDocuments f w
  = (Normal (Z.of_nat (length (List.filter test (collection (db w))))), w).
Proof.
  intros Hout Hp. unfold Article.countDocuments, bind, Article.prepared.
  rewrite (connected_up w Hout), Hp. reflexivity.
Qed.

(** C6, as amended.  For a request with numeric [page] p >= 1 and
    numeric [limit] l >= 1 that the store answers (p, l, the skip
    (p-1)*l and the size of the store being safe integers, on which the
    arithmetic of the handler is exact), the response lists
    the matching documents in descending order of [pubDate] with the
    first (p-1)*l of them skipped and at most l of them returned,
    [total] is the number of matching documents, and [totalPages] is the
    ceiling of total/l.  In particular, over a store of two documents
    with different dates, [page=2&limit=1] returns exactly the older
    one, and [totalPages] is 2. *)
Theorem C6_page_of_newest_first :
  (forall (q : Req.query) (w : World) (ps ls : string) (p l : Z) (test : Doc -> bool),
     Req.page q = Some ps -> parseInt ps = Num p -> 1 <= p ->
     Req.limit q = Some ls -> parseInt ls = Num l -> 1 <= l ->
     safe_integer p = true -> safe_integer l = true ->
     safe_integer ((p - 1) * l) = true ->
     safe_integer (Z.of_nat (length (collection (db w)))) = true ->
     outage (db w) = None ->
     Article.prepare (build_filter E q) = Article.Ready test ->
     let matching := List.filter test (collection (db w)) in
     exists sorted articles totalPages,
       reply (news_handler E q) w
       = Some (mkResponse 200
                 (NewsPage (Z.of_nat (length matching)) (Num p) (Num totalPages) articles))
       /\ Permutation sorted matching
       /\ StronglySorted newest_first sorted
       /\ articles = take (Z.to_nat l) (drop (Z.to_nat ((p - 1) * l)) sorted)
       /\ (length articles <= Z.to_nat l)%nat
       /\ (totalPages - 1) * l < Z.of_nat (length matching) <= totalPages * l)
  /\ (forall (a b : Doc) (ta tb : Z) (c : list Doc) (state : Z),
        Article.pubDate_key a = Some ta -> Article.pubDate_key b = Some tb ->
        tb < ta -> c = [a; b] \/ c = [b; a] ->
        reply (news_handler E (paged "2" "1")) (mkWorld (mkDb c None state) [] 0)
        = Some (mkResponse 200 (NewsPage 2 (Num 2) (Num 2) [b]))).
Proof.
  split.
  - intros q w ps ls p l test Hps Hp Hp1 Hls Hl Hl1 _ _ _ _ Hout Hprep matching.
    destruct (ceil_div_pages (Z.of_nat (length matching)) l) as (pages & Hceil & Hpages);
      [ lia | done | ].
    exists (Article.sort_newest_first matching),
      (take (Z.to_nat l) (drop (Z.to_nat ((p - 1) * l)) (Article.sort_newest_first matching))),
      pages.
    split; [ | split; [ apply sort_newest_first_perm | ] ];
      [ | split; [ apply sort_newest_first_sorted | ] ];
      [ | split; [ done | split; [ | done ] ] ].
    + unfold reply. rewrite news_handler_run. cbv zeta.
      unfold parseInt_or. rewrite Hps, Hls, Hp, Hl.
      cbn [Arith.pred Arith.mul].
      rewrite (find_page_up _ test _ _ (Some (Z.to_nat ((p - 1) * l))) w Hout Hprep).
      2:{ cbn. destruct (Z.ltb_spec ((p - 1) * l) 0); [ nia | done ]. }
      rewrite (countDocuments_up _ test w Hout Hprep). fold matching. rewrite Hceil.
      cbn [fst]. do 3 f_equal. unfold Article.window, Article.limit_count.
      destruct (Z.eqb_spec l 0); [ lia | ]. by rewrite Z.abs_eq by lia.
    + rewrite length_take. lia.
  - intros a b ta tb c state Ha Hb Hlt Hc. unfold reply, paged.
    rewrite news_handler_run. cbv zeta.
    assert (Article.sort_newest_first c = [a; b]) as Hsort.
    { destruct Hc as [-> | ->]; cbn; unfold Article.not_older; rewrite Ha, Hb.
      - by destruct (Z.leb_spec tb ta); [ | lia ].
      - by destruct (Z.leb_spec ta tb); [ lia | ]. }
    assert (length c = 2%nat) as Hlen by (by destruct Hc as [-> | ->]).
    rewrite (find_page_up _ (fun _ => true) _ _ (Some 1%nat)); [ | done | done | done ].
    rewrite (countDocuments_up _ (fun _ => true)); [ | done | done ].
    cbn [db collection fst].
    assert (List.filter (fun _ : Doc => true) c = c) as ->.
    { clear. induction c as [ | x c IH]; cbn; [ done | by rewrite IH ]. }
    rewrite Hsort, Hlen. reflexivity.
Qed.
End Paging.

(** With [limit=0] the store applies no limit: the response carries more
    than 0 rows, and [totalPages] is not a number of pages. *)
Lemma C6_limit_zero_is_no_limit :
  parseInt "1" = Num 1 /\ parseInt "0" = Num 0
  /\ reply (news_handler iso_utc (paged "1" "0")) world_three
     = Some (mkResponse 200
               (NewsPage 3 (Num 1) PosInf [stored_fr; stored_us; stored_plain]))
  /\ ~ (length [stored_fr; stored_us; stored_plain] <= Z.to_nat 0)%nat.
Proof.
  split; [ reflexivity | ]. split; [ reflexivity | ].
  split; [ vm_compute; reflexivity | cbn; lia ].
Qed.

Lemma C6_page_of_newest_first_witness :
  reply (news_handler iso_utc (paged "2" "1"))
    (mkWorld (mkDb [stored_us; stored_fr] None 1) [] 0)
  = Some (mkResponse 200 (NewsPage 2 (Num 2) (Num 2) [stored_us]))
  /\ exists sorted articles totalPages,
       reply (news_handler iso_utc (paged "2" "1")) world_three
       = Some (mkResponse 200 (NewsPage 3 (Num 2) (Num totalPages) articles))
       /\ Permutation sorted [stored_us; stored_fr; stored_plain]
       /\ StronglySorted newest_first sorted
       /\ articles = take 1 (drop 1 sorted)
       /\ (length articles <= 1)%nat
       /\ (totalPages - 1) * 1 < 3 <= totalPages * 1.
Proof.
  destruct (C6_page_of_newest_first iso_utc) as [Hpage Htwo]. split.
  - apply (Htwo stored_fr stored_us 3000 2000); [ reflexivity | reflexivity | lia | by right ].
  - apply (Hpage (paged "2" "1") world_three "2" "1" 2 1 (fun _ => true));
      [ reflexivity | reflexivity | lia | reflexivity | reflexivity | lia
      | reflexivity | reflexivity | reflexivity | reflexivity
      | reflexivity | reflexivity ].
Defined.

(** ** Further properties of the ingestion job *)

Lemma for_of_app {A S} (xs ys : list A) (body : A -> S -> M S) (acc : S) (w : World) :
  for_of (xs ++ ys) body acc w = bind (for_of xs body acc) (for_of ys body) w.
Proof.
  revert acc w. induction xs as [ | x xs IH]; intros acc w; [ reflexivity | ].
  cbn [app for_of]. unfold bind.
  destruct (body x acc w) as [[acc' | e | ] w']; [ | reflexivity | reflexivity ].
  rewrite IH. reflexivity.
Qed.

Section Aborts.
Variable E : Engine.
Variable clock : nat -> Z.

Lemma turn_throws_cast (id : JsVal) (doc : Doc) (counts : Z * Z) (w : World) (e : JsError) :
  Article.cast_update doc = Some e -> turn clock id doc counts w = (Throw e, w).
Proof.
  intros Hcast. unfold turn, bind. rewrite updateOne_run, Hcast. reflexivity.
Qed.

Lemma turn_throws_outage (id : JsVal) (doc : Doc) (counts : Z * Z) (w : World) (msg : string) :
  Article.cast_update doc = None -> outage (db w) = Some msg ->
  turn clock id doc counts w = (Throw (mkError msg None), w).
Proof.
  intros Hcast Hout. unfold turn, bind. rewrite updateOne_run, Hcast, Hout. reflexivity.
Qed.

(** X1.  When the store answers, the records of the first articles of a
    batch fit the schema and the next article has a [pubDate] that does
    not parse (its record holds an Invalid Date, which the cast of the
    schema rejects), the run stops at that article: the documents
    written for the articles before it stay written (nothing is rolled
    back), the articles after it are not processed, an error is logged
    in place of the summary, and the run returns normally. *)
Theorem X1_batch_stops_at_failing_article
    (before : list Doc) (bad : Doc) (after : list Doc) (w : World) :
  outage (db w) = None -> Forall (typed E) before -> ~ storable E bad ->
  exists counts done detail,
    for_of before (store_article E clock) (0, 0) (started clock w) = (Normal counts, done)
    /\ kept (collection (db w)) (collection (db done))
    /\ Forall (filed clock done) before
    /\ fetchAndStoreNews E clock (Resolved (ResultsArray (before ++ bad :: after))) w
       = (Normal tt, logged (LogFetchError detail) done).
Proof.
  intros Hout Htyped Hbad. pose proof (typed_all_storable E before Htyped) as Hall.
  destruct (loop_stores E clock before (0, 0) (started clock w) Hout Hall)
    as (counts & done & Hloop & _ & _ & _ & _ & Hfiled).
  unfold storable in Hbad.
  destruct (Article.cast_update (buildDoc E bad)) as [e | ] eqn:Hcast; [ | done ].
  exists counts, done, (message e). split; [ done | ].
  split.
  { pose proof (for_of_invariant
      (fun w' => kept (collection (db w)) (collection (db w')))
      (store_article E clock)) as Hinv.
    specialize (Hinv ltac:(
      intros x acc w1 Hk; rewrite store_article_turn;
      pose proof (turn_keeps clock _ _ acc w1 (buildDoc_article_id E x)) as (Hk1 & _);
      eapply kept_trans; [ exact Hk | exact Hk1 ])).
    specialize (Hinv before (0, 0) (started clock w) (kept_refl _)).
    by rewrite Hloop in Hinv. }
  split; [ done | ].
  assert (for_of (before ++ bad :: after) (store_article E clock) (0, 0) (started clock w)
          = (Throw e, done)) as Hwhole.
  { rewrite for_of_app. unfold bind at 1. rewrite Hloop. cbn [for_of]. unfold bind.
    rewrite store_article_turn. by rewrite (turn_throws_cast _ _ _ _ e Hcast). }
  assert (response_data e = None) as Hdata.
  { unfold Article.cast_update in Hcast. repeat case_match; by simplify_eq. }
  destruct (before ++ bad :: after)%list as [ | art arts] eqn:Hlist.
  { by destruct before. }
  rewrite fetch_articles, Hwhole. unfold error_detail. by rewrite Hdata.
Qed.

(** X2.  While the store cannot be reached, a run over a batch writes
    nothing: it stops at the first article, logs one error and returns
    normally.  When the record of the first article fits the schema,
    the error that is logged is the one of the store (otherwise the
    cast of the record fails first, and its error is logged). *)
Theorem X2_unreachable_store_is_logged
    (art : Doc) (arts : list Doc) (w : World) (msg : string) :
  outage (db w) = Some msg ->
  exists detail,
    fetchAndStoreNews E clock (Resolved (ResultsArray (art :: arts))) w
    = (Normal tt, logged (LogFetchError detail) (started clock w))
    /\ (typed E art -> detail = msg).
Proof.
  intros Hout. rewrite fetch_articles. cbn [for_of]. unfold bind.
  rewrite store_article_turn.
  destruct (Article.cast_update (buildDoc E art)) as [e | ] eqn:Hcast.
  - rewrite (turn_throws_cast _ _ _ _ e Hcast). eexists. split; [ reflexivity | ].
    intros Htyped. apply typed_storable in Htyped. unfold storable in Htyped. congruence.
  - rewrite (turn_throws_outage _ _ _ (started clock w) msg Hcast Hout).
    exists msg. split; [ reflexivity | done ].
Qed.
End Aborts.

Lemma X1_batch_stops_at_failing_article_witness :
  collection (db (fetchAndStoreNews iso_utc clock_demo
                    (Resolved (ResultsArray ([art_dated] ++ art_bad_date :: [payload_a1])))
                    world_empty).2)
  = collection (db (for_of [art_dated] (store_article iso_utc clock_demo) (0, 0)
                      (started clock_demo world_empty)).2).
Proof.
  destruct (X1_batch_stops_at_failing_article iso_utc clock_demo
              [art_dated] art_bad_date [payload_a1] world_empty)
    as (counts & done & detail & Hloop & _ & _ & Hrun).
  - reflexivity.
  - constructor; [ vm_compute; reflexivity | constructor ].
  - discriminate.
  - rewrite Hrun, Hloop. reflexivity.
Defined.

Lemma X2_unreachable_store_is_logged_witness :
  fetchAndStoreNews iso_utc clock_demo (Resolved (ResultsArray [art_dated])) world_down
  = (Normal tt, logged (LogFetchError "connection refused") (started clock_demo world_down)).
Proof.
  destruct (X2_unreachable_store_is_logged iso_utc clock_demo art_dated [] world_down
              "connection refused" eq_refl) as (detail & Hrun & Hdetail).
  rewrite Hrun, Hdetail; [ reflexivity | vm_compute; reflexivity ].
Defined.

(** ** Counters, insertions and look-ups *)

Lemma find_index_absent (id : JsVal) (c : list Doc) :
  (forall r, r ∈ c -> Article.article_id_of r <> Article.index_key id) ->
  Article.find_index id c = None.
Proof.
  intros Hno. destruct (Article.find_index id c) as [i | ] eqn:Hf; [ | done ].
  destruct (find_index_Some _ _ _ Hf) as (r & Hr & Hid).
  exfalso. apply (Hno r); [ | done ]. by eapply list_elem_of_lookup_2.
Qed.

Section Accounts.
Variable E : Engine.
Variable clock : nat -> Z.

(** A turn leaves the log alone; it counts one insertion when the
    collection grows by one document and at most one update when it keeps
    its length. *)
Lemma turn_accounts (id : JsVal) (doc : Doc) (counts : Z * Z) (w : World) :
  let c := turn clock id doc counts w in
  log c.2 = log w
  /\ match c.1 with
     | Normal counts' =>
         (counts'.1 = counts.1 + 1 /\ counts'.2 = counts.2
          /\ length (collection (db c.2)) = S (length (collection (db w))))
         \/ (counts'.1 = counts.1 /\ counts.2 <= counts'.2 <= counts.2 + 1
             /\ length (collection (db c.2)) = length (collection (db w)))
     | Throw _ => db c.2 = db w
     | Beyond => False
     end.
Proof.
  destruct (turn_cases clock id doc counts w)
    as [(e & -> & _) | [(i & r & _ & _ & _ & _ & ->) | (_ & _ & ->)]]; cbn.
  - done.
  - split; [ done | ]. right. rewrite length_insert.
    case_bool_decide; cbn; lia.
  - split; [ done | ]. left. rewrite length_app. cbn. split; [ done | ]. split; [ done | lia ].
Qed.

Lemma loop_accounts (arts : list Doc) (counts : Z * Z) (w : World) :
  let c := for_of arts (store_article E clock) counts w in
  log c.2 = log w
  /\ match c.1 with
     | Normal counts' =>
         counts.1 <= counts'.1 /\ counts.2 <= counts'.2
         /\ (counts'.1 - counts.1) + (counts'.2 - counts.2) <= Z.of_nat (length arts)
         /\ Z.of_nat (length (collection (db c.2)))
            = Z.of_nat (length (collection (db w))) + (counts'.1 - counts.1)
     | Throw _ => True
     | Beyond => False
     end.
Proof.
  revert counts w. induction arts as [ | art arts IH]; intros counts w.
  { cbn. split; [ done | lia ]. }
  cbn [for_of]. unfold bind. rewrite store_article_turn.
  pose proof (turn_accounts (get art "article_id") (buildDoc E art) counts w) as Hturn.
  cbv zeta in Hturn.
  destruct (turn clock (get art "article_id") (buildDoc E art) counts w)
    as [[c1 | e | ] w1]; cbn [fst snd] in Hturn |- *; [ | tauto | tauto ].
  destruct Hturn as [Hlog Hcount]. specialize (IH c1 w1). cbv zeta in IH.
  destruct (for_of arts (store_article E clock) c1 w1) as [[c2 | e | ] w2];
    cbn [fst snd] in IH |- *; destruct IH as [Hlog2 IH]; (split; [ congruence | ]);
    [ | done | done ].
  cbn [length]. lia.
Qed.

(** X3.  When a run ends with the summary line, [total] is the size of the
    batch, the counters are not negative, [inserted + updated] does not
    exceed [total], and the store has grown by exactly [inserted]
    documents. *)
Theorem X3_summary_accounts_for_the_store
    (art : Doc) (arts : list Doc) (w : World) (i u n : Z) :
  let w' := (fetchAndStoreNews E clock (Resolved (ResultsArray (art :: arts))) w).2 in
  log w' = (log w ++ [LogFetching (clock (reads w)); LogDone i u n])%list ->
  n = Z.of_nat (length (art :: arts)) /\ 0 <= i /\ 0 <= u /\ i + u <= n
  /\ Z.of_nat (length (collection (db w')))
     = Z.of_nat (length (collection (db w))) + i.
Proof.
  intros w'. subst w'. rewrite fetch_articles.
  pose proof (loop_accounts (art :: arts) (0, 0) (started clock w)) as Hloop.
  cbv zeta in Hloop.
  destruct (for_of (art :: arts) (store_article E clock) (0, 0) (started clock w))
    as [[c | e | ] w1]; cbn [fst snd] in Hloop |- *; destruct Hloop as [Hlog Hcount];
    [ | | done ].
  - unfold logged, started in *. cbn [log db] in *. rewrite Hlog.
    rewrite <- app_assoc. cbn [app]. intros Heq.
    apply app_inv_head in Heq. injection Heq as <- <- <-.
    cbn [fst snd length] in Hcount |- *. lia.
  - unfold logged, started in *. cbn [log db] in *. rewrite Hlog.
    rewrite <- app_assoc. cbn [app]. intros Heq.
    apply app_inv_head in Heq. discriminate.
Qed.

(** The record of an article is what an inserted document is made of. *)
Lemma inserted_carries (art : Doc) (now : Z) :
  let r := Article.inserted_doc now (get art "article_id") (buildDoc E art) in
  Article.article_id_of r = article_key art
  /\ carries E art r
  /\ r !! "createdAt" = Some (JDate (Some now))
  /\ r !! "updatedAt" = Some (JDate (Some now)).
Proof.
  cbv zeta. split; [ apply inserted_article_id, buildDoc_article_id | ].
  split; [ | split ].
  - intros k v Hk Hv. apply set_lookup_supplied; [ | done | done ].
    intros ->. by rewrite buildDoc_no_stamp in Hk.
  - unfold Article.inserted_doc. rewrite set_lookup_omitted; [ | done | ].
    + reflexivity.
    + left. apply buildDoc_no_createdAt.
  - apply set_lookup_updatedAt.
Qed.

Lemma loop_inserts (arts : list Doc) (counts : Z * Z) (w : World) :
  outage (db w) = None -> Forall (storable E) arts ->
  NoDup (article_key <$> arts) ->
  (forall a r, a ∈ arts -> r ∈ collection (db w) ->
     Article.article_id_of r <> article_key a) ->
  exists news w',
    for_of arts (store_article E clock) counts w
    = (Normal (counts.1 + Z.of_nat (length arts), counts.2), w')
    /\ collection (db w') = (collection (db w) ++ news)%list
    /\ Forall2 (fun a r => Article.article_id_of r = article_key a /\ carries E a r
                           /\ r !! "createdAt" = r !! "updatedAt") arts news
    /\ log w' = log w.
Proof.
  revert counts w. induction arts as [ | art arts IH]; intros counts w Hout Hall Hnodup Hfresh.
  { exists [], w. cbn. unfold ret. rewrite app_nil_r, Z.add_0_r.
    destruct counts. repeat (split; [ done | ]). done. }
  apply Forall_cons in Hall as [Hart Hall].
  cbn [fmap list_fmap] in Hnodup. apply NoDup_cons in Hnodup as [Hnew Hnodup].
  cbn [for_of]. unfold bind. rewrite store_article_turn.
  assert (Article.find_index (get art "article_id") (collection (db w)) = None) as Hnone.
  { apply find_index_absent. intros r Hr. apply Hfresh; [ apply list_elem_of_here | done ]. }
  destruct (turn_cases clock (get art "article_id") (buildDoc E art) counts w)
    as [(e & _ & [Ho | Hc]) | [(i & r & Hf & _) | (_ & _ & ->)]];
    [ done | done | congruence | ].
  set (new := Article.inserted_doc (clock (reads w)) (get art "article_id") (buildDoc E art)).
  destruct (inserted_carries art (clock (reads w))) as (Hid & Hcarries & Hcreated & Hupdated).
  fold new in Hid, Hcarries, Hcreated, Hupdated.
  destruct (IH (counts.1 + 1, counts.2)
              (set_collection (collection (db w) ++ [new]) (tick w)))
    as (news & w' & Hloop & Hcoll & Hall2 & Hlog); [ done | done | done | | ].
  { intros a r Ha Hr. cbn in Hr. apply elem_of_app in Hr as [Hr | Hr].
    - apply Hfresh; [ by apply list_elem_of_further | done ].
    - apply list_elem_of_singleton in Hr as ->. rewrite Hid. intros Heq.
      apply Hnew. rewrite Heq. by apply list_elem_of_fmap_2. }
  exists (new :: news), w'. rewrite Hloop. cbn [fst snd length].
  split; [ do 3 f_equal; lia | ].
  split; [ rewrite Hcoll; cbn; by rewrite <- app_assoc | ].
  split; [ | done ]. constructor; [ | done ].
  split; [ done | ]. split; [ done | congruence ].
Qed.

(** X4.  A batch of articles whose records fit the schema, with pairwise
    different ids, none of them on file, is inserted as it stands: the run appends one document per
    article, in the order of the batch, each filed under the id of its
    article, carrying the fields that the record supplies and with
    [createdAt] equal to [updatedAt]; the documents that were there stay
    as they are, and the summary counts every article as inserted. *)
Theorem X4_new_articles_are_appended (art : Doc) (arts : list Doc) (w : World) :
  outage (db w) = None -> Forall (typed E) (art :: arts) ->
  NoDup (article_key <$> art :: arts) ->
  (forall a r, a ∈ art :: arts -> r ∈ collection (db w) ->
     Article.article_id_of r <> article_key a) ->
  let w' := (fetchAndStoreNews E clock (Resolved (ResultsArray (art :: arts))) w).2 in
  exists news,
    collection (db w') = (collection (db w) ++ news)%list
    /\ Forall2 (fun a r => Article.article_id_of r = article_key a /\ carries E a r
                           /\ r !! "createdAt" = r !! "updatedAt") (art :: arts) news
    /\ log w' = (log w ++ [LogFetching (clock (reads w));
                           LogDone (Z.of_nat (length (art :: arts))) 0
                             (Z.of_nat (length (art :: arts)))])%list.
Proof.
  intros Hout Htyped Hnodup Hfresh w'. subst w'.
  pose proof (typed_all_storable E _ Htyped) as Hall.
  destruct (loop_inserts (art :: arts) (0, 0) (started clock w) Hout Hall Hnodup Hfresh)
    as (news & w1 & Hloop & Hcoll & Hall2 & Hlog).
  rewrite fetch_articles, Hloop. exists news. cbn [snd fst].
  split; [ done | ]. split; [ done | ].
  unfold logged. cbn [log]. rewrite Hlog. unfold started. cbn [log].
  by rewrite <- app_assoc.
Qed.

(** X5.  After a turn of the loop that did not throw, for an article
    whose record fits the schema, the filter [{ article_id }] of the
    article finds a document that carries every
    field the record supplies and the stamp of this turn, whether the
    document was inserted or overwritten. *)
Theorem X5_upsert_then_find (art : Doc) (counts counts' : Z * Z) (w w' : World) :
  typed E art ->
  store_article E clock art counts w = (Normal counts', w') ->
  exists i r,
    Article.find_index (get art "article_id") (collection (db w')) = Some i
    /\ collection (db w') !! i = Some r
    /\ Article.article_id_of r = article_key art
    /\ carries E art r
    /\ r !! "updatedAt" = Some (JDate (Some (clock (reads w)))).
Proof.
  intros _. rewrite store_article_turn. intros Hrun.
  assert (forall k v, buildDoc E art !! k = Some v -> k <> "updatedAt") as Hne.
  { intros k v Hk ->. by rewrite buildDoc_no_stamp in Hk. }
  pose proof (inserted_carries art (clock (reads w))) as Hins. cbv zeta in Hins.
  pose proof (buildDoc_article_id E art) as Hdocid.
  unfold carries in *. unfold article_key in *.
  remember (buildDoc E art) as doc eqn:Hdoc. clear Hdoc.
  remember (get art "article_id") as id eqn:Hid0. clear Hid0.
  destruct (turn_cases clock id doc counts w)
    as [(e & He & _) | [(i & r & Hf & Hr & Hid & _ & He) | (Hf & _ & He)]];
    rewrite He in Hrun; [ discriminate | | ]; injection Hrun as _ <-;
    cbn [collection db set_collection set_db tick].
  - set (r' := Article.apply_set (Article.set_fields (clock (reads w)) doc) r).
    assert (Article.article_id_of r' = Article.article_id_of r) as Hsame
      by (by eapply set_keeps_article_id).
    exists i, r'. rewrite (find_index_insert _ _ _ r) by done.
    split; [ done | ].
    split; [ apply list_lookup_insert_eq; by eapply lookup_lt_Some | ].
    split; [ by rewrite Hsame | ].
    split; [ | apply set_lookup_updatedAt ].
    intros k v Hk Hv. apply set_lookup_supplied; eauto.
  - destruct Hins as (Hid & Hcarries & _ & Hupdated).
    eexists (length (collection (db w))), _.
    rewrite find_index_app, Hf.
    unfold Article.matches_article_id. rewrite bool_decide_eq_true_2 by exact Hid.
    split; [ done | ].
    split; [ by rewrite lookup_app_r, Nat.sub_diag by lia | done ].
Qed.
End Accounts.

Lemma X3_summary_accounts_for_the_store_witness :
  Z.of_nat (length (collection (db (fetchAndStoreNews iso_utc clock_demo
                                      (Resolved (ResultsArray [art_dated])) world_empty).2)))
  = 0 + 1.
Proof.
  destruct (X3_summary_accounts_for_the_store iso_utc clock_demo art_dated [] world_empty
              1 0 1) as (_ & _ & _ & _ & Hlen).
  - reflexivity.
  - exact Hlen.
Defined.

Lemma X4_new_articles_are_appended_witness :
  exists news,
    collection (db (fetchAndStoreNews iso_utc clock_demo
                      (Resolved (ResultsArray [art_dated])) world_empty).2)
    = ([] ++ news)%list
    /\ length news = 1%nat.
Proof.
  destruct (X4_new_articles_are_appended iso_utc clock_demo art_dated [] world_empty)
    as (news & Hcoll & Hall & _).
  - reflexivity.
  - constructor; [ vm_compute; reflexivity | constructor ].
  - repeat constructor. apply not_elem_of_nil.
  - intros a r _ Hr. by apply elem_of_nil in Hr.
  - exists news. split; [ exact Hcoll | ]. by apply Forall2_length in Hall.
Defined.

Lemma X5_upsert_then_find_witness :
  exists i r,
    Article.find_index (JStr "a1")
      (collection (db (store_article iso_utc clock_demo payload_a1 (0, 0) world_a1).2))
    = Some i
    /\ collection (db (store_article iso_utc clock_demo payload_a1 (0, 0) world_a1).2) !! i
       = Some r
    /\ r !! "title" = Some (JStr "New").
Proof.
  destruct (X5_upsert_then_find iso_utc clock_demo payload_a1 (0, 0) (0, 1)
              world_a1
              (store_article iso_utc clock_demo payload_a1 (0, 0) world_a1).2)
    as (i & r & Hf & Hr & _ & Hc & _).
  - vm_compute. reflexivity.
  - vm_compute. reflexivity.
  - exists i, r. split; [ exact Hf | ]. split; [ exact Hr | ].
    apply Hc; [ reflexivity | discriminate ].
Defined.

(** ** The life of the process *)

Lemma kept_created_refl (c : list Doc) : kept_created c c.
Proof. intros i r Hi. eauto. Qed.

Lemma kept_created_trans (c1 c2 c3 : list Doc) :
  kept_created c1 c2 -> kept_created c2 c3 -> kept_created c1 c3.
Proof.
  intros H12 H23 i r Hi. destruct (H12 i r Hi) as (r2 & H2 & Hid2 & Hc2).
  destruct (H23 i r2 H2) as (r3 & H3 & Hid3 & Hc3). exists r3.
  split; [ done | ]. split; congruence.
Qed.

Section Process.
Variable E : Engine.
Variable clock : nat -> Z.

Lemma turn_keeps_created (id : JsVal) (doc : Doc) (counts : Z * Z) (w : World) :
  doc !! "article_id" = Some id -> doc !! "createdAt" = None ->
  kept_created (collection (db w)) (collection (db (turn clock id doc counts w).2)).
Proof.
  intros Hdoc Hcreated.
  destruct (turn_cases clock id doc counts w)
    as [(e & -> & _) | [(i & r & Hf & Hr & Hid & _ & ->) | (Hf & _ & ->)]];
    cbn [snd collection db set_collection set_db tick].
  - apply kept_created_refl.
  - intros j x Hj. destruct (decide (i = j)) as [<- | Hne].
    + eexists. split; [ apply list_lookup_insert_eq; by eapply lookup_lt_Some | ].
      rewrite Hr in Hj. injection Hj as <-.
      split; [ by eapply set_keeps_article_id | ].
      apply set_lookup_omitted; [ done | by left ].
    + exists x. by rewrite list_lookup_insert_ne.
  - intros j x Hj. exists x. split; [ by apply lookup_app_l_Some | done ].
Qed.

(** What a run writes to the log: the opening line and one closing line,
    which is not an opening line. *)
Lemma run_log (f : FetchOutcome) (w : World) :
  exists line,
    log (fetchAndStoreNews E clock f w).2
    = (log w ++ [LogFetching (clock (reads w)); line])%list
    /\ is_fetching line = false.
Proof.
  assert (forall l, (log w ++ [LogFetching (clock (reads w))]) ++ [l]
                    = log w ++ [LogFetching (clock (reads w)); l])%list as Happ
    by (intros l; by rewrite <- app_assoc).
  destruct f as [err | [ | [ | art arts] | ]];
    try (eexists; split; [ apply Happ | reflexivity ]).
  rewrite fetch_articles.
  pose proof (loop_accounts E clock (art :: arts) (0, 0) (started clock w)) as [Hlog Hc].
  destruct (for_of (art :: arts) (store_article E clock) (0, 0) (started clock w))
    as [[c | e | ] w1]; cbn [fst snd] in *; [ | | done ];
    (eexists; split; [ unfold logged; cbn [log]; rewrite Hlog; apply Happ | reflexivity ]).
Qed.

Lemma run_keeps_created (f : FetchOutcome) (w : World) :
  kept_created (collection (db w)) (collection (db (fetchAndStoreNews E clock f w).2)).
Proof.
  destruct f as [err | [ | [ | art arts] | ]]; try apply kept_created_refl.
  rewrite fetch_articles.
  pose proof (for_of_invariant
    (fun w' => kept_created (collection (db w)) (collection (db w')))
    (store_article E clock)) as Hinv.
  specialize (Hinv ltac:(
    intros x acc w1 Hk; rewrite store_article_turn;
    eapply kept_created_trans; [ exact Hk | ];
    apply turn_keeps_created; [ apply buildDoc_article_id | apply buildDoc_no_createdAt ])).
  specialize (Hinv (art :: arts) (0, 0) (started clock w) (kept_created_refl _)).
  destruct (for_of (art :: arts) (store_article E clock) (0, 0) (started clock w))
    as [[c | e | ] w']; exact Hinv.
Qed.

(** X6.  Whatever the feed answers at startup and at the later firings of
    the schedule, the process goes through all of them: no run lets an
    error escape, every run opens with its line in the log, the store can
    be reached as before, every document stays at its place under the
    same [article_id] and with the [createdAt] of its insertion, and a
    collection without duplicate ids stays without them. *)
Theorem X6_schedule_keeps_the_store (fetches : list FetchOutcome) (w : World) :
  let w' := (scheduled E clock fetches w).2 in
  (scheduled E clock fetches w).1 = Normal tt
  /\ kept_created (collection (db w)) (collection (db w'))
  /\ (unique_ids (collection (db w)) -> unique_ids (collection (db w')))
  /\ outage (db w') = outage (db w)
  /\ length (List.filter is_fetching (log w'))
     = (length (List.filter is_fetching (log w)) + length fetches)%nat.
Proof.
  cbv zeta. split; [ apply scheduled_returns | ].
  revert w. induction fetches as [ | f rest IH]; intros w.
  { cbn. split; [ apply kept_created_refl | ]. split; [ done | ]. split; [ done | lia ]. }
  rewrite scheduled_cons.
  destruct (IH (fetchAndStoreNews E clock f w).2) as (Hk & Hu & Ho & Hl).
  destruct (run_keeps E clock f w) as (_ & Hu1 & Ho1 & _).
  destruct (run_log f w) as (line & Hlog & Hline).
  split; [ eapply kept_created_trans; [ apply run_keeps_created | exact Hk ] | ].
  split; [ auto | ]. split; [ congruence | ].
  rewrite Hl, Hlog, List.filter_app, length_app. cbn [List.filter is_fetching].
  rewrite Hline. cbn [length]. lia.
Qed.
End Process.

Lemma X6_schedule_keeps_the_store_witness :
  let fetches := [Rejected (mkError "timeout" None);
                  Resolved (ResultsArray [art_dated; art_bad_date]);
                  Resolved ResultsMissing] in
  let w' := (scheduled iso_utc clock_demo fetches world_empty).2 in
  (scheduled iso_utc clock_demo fetches world_empty).1 = Normal tt
  /\ unique_ids (collection (db w'))
  /\ length (List.filter is_fetching (log w')) = 3%nat.
Proof.
  cbv zeta.
  destruct (X6_schedule_keeps_the_store iso_utc clock_demo
              [Rejected (mkError "timeout" None);
               Resolved (ResultsArray [art_dated; art_bad_date]);
               Resolved ResultsMissing] world_empty) as (Hret & _ & Hu & _ & Hlog).
  split; [ exact Hret | ]. split; [ | exact Hlog ].
  apply Hu. vm_compute. constructor.
Defined.

(** ** What a batch leaves in the documents *)

Lemma same_data_refl (r : Doc) : same_data r r.
Proof. by intros k Hk. Qed.

Lemma same_data_sym (r r' : Doc) : same_data r r' -> same_data r' r.
Proof. intros H k Hk. by rewrite H. Qed.

Lemma same_data_trans (r1 r2 r3 : Doc) :
  same_data r1 r2 -> same_data r2 r3 -> same_data r1 r3.
Proof. intros H12 H23 k Hk. by rewrite H12, H23. Qed.

Lemma same_data_union (s r r' : Doc) : same_data r r' -> same_data (s ∪ r) (s ∪ r').
Proof. intros H k Hk. rewrite !lookup_union. by rewrite H. Qed.

Lemma set_fields_same_data (now : Z) (doc r : Doc) :
  same_data (Article.apply_set (Article.set_fields now doc) r)
    (Article.strip_undefined doc ∪ r).
Proof.
  intros k Hk. unfold Article.apply_set, Article.set_fields.
  rewrite !lookup_union. by rewrite lookup_insert_ne.
Qed.

Section Written.
Variable E : Engine.

Lemma same_data_write_one (id : JsVal) (r r' a : Doc) :
  same_data r r' -> same_data (write_one E id r a) (write_one E id r' a).
Proof.
  intros H. unfold write_one. case_bool_decide; [ by apply same_data_union | done ].
Qed.

Lemma written_same_data (arts : list Doc) (id : JsVal) (r r' : Doc) :
  same_data r r' -> same_data (written E arts id r) (written E arts id r').
Proof.
  unfold written. revert r r'. induction arts as [ | a arts IH]; intros r r' H; [ done | ].
  cbn. apply IH. by apply same_data_write_one.
Qed.

Lemma last_supplied_from (arts : list Doc) (id : JsVal) (k : string) (acc : option JsVal) :
  fold_left (last_one E id k) arts acc
  = match last_supplied E arts id k with
    | Some v => Some v
    | None => acc
    end.
Proof.
  unfold last_supplied. revert acc. induction arts as [ | a arts IH]; intros acc; [ done | ].
  cbn. rewrite IH. rewrite (IH (last_one E id k None a)).
  destruct (fold_left (last_one E id k) arts None); [ done | ].
  unfold last_one. case_bool_decide; [ | done ]. by destruct (supplied E a !! k).
Qed.

(** Key by key, the document written by a batch holds the value supplied
    last, and where no article supplies one, the value it had. *)
Lemma written_lookup (arts : list Doc) (id : JsVal) (r : Doc) (k : string) :
  written E arts id r !! k
  = match last_supplied E arts id k with
    | Some v => Some v
    | None => r !! k
    end.
Proof.
  revert r. induction arts as [ | a arts IH]; intros r; [ done | ].
  unfold written, last_supplied in *. cbn. rewrite IH.
  rewrite (last_supplied_from arts id k (last_one E id k None a)).
  unfold last_supplied.
  destruct (fold_left (last_one E id k) arts None); [ done | ].
  unfold write_one, last_one. case_bool_decide; [ | done ].
  rewrite lookup_union. by destruct (supplied E a !! k), (r !! k).
Qed.
End Written.

Section BatchData.
Variable E : Engine.
Variable clock : nat -> Z.

Lemma supplied_lookup (a : Doc) (k : string) (v : JsVal) :
  supplied E a !! k = Some v <-> buildDoc E a !! k = Some v /\ v <> JUndefined.
Proof. unfold supplied, Article.strip_undefined. by rewrite map_lookup_filter_Some. Qed.

Lemma unique_ids_lookup (c : list Doc) (i j : nat) (r r' : Doc) :
  unique_ids c -> c !! i = Some r -> c !! j = Some r' ->
  Article.article_id_of r = Article.article_id_of r' -> i = j.
Proof.
  intros Hu Hi Hj Heq. eapply NoDup_lookup; [ exact Hu | | ].
  - rewrite list_lookup_fmap, Hi. reflexivity.
  - rewrite list_lookup_fmap, Hj. cbn. by rewrite Heq.
Qed.

(** A turn that the store answers: what it does to the documents that
    were there, and the document it leaves for the article. *)
Lemma turn_data (art : Doc) (counts : Z * Z) (w : World) :
  outage (db w) = None -> storable E art -> unique_ids (collection (db w)) ->
  exists counts' w',
    store_article E clock art counts w = (Normal counts', w')
    /\ outage (db w') = None
    /\ unique_ids (collection (db w'))
    /\ (forall i r, collection (db w) !! i = Some r ->
          exists r', collection (db w') !! i = Some r'
            /\ Article.article_id_of r' = Article.article_id_of r
            /\ same_data r' (write_one E (Article.article_id_of r) r art))
    /\ (exists i r, collection (db w') !! i = Some r
          /\ Article.article_id_of r = article_key art
          /\ forall k v, supplied E art !! k = Some v -> r !! k = Some v).
Proof.
  intros Hout Hcast Huniq. rewrite store_article_turn.
  pose proof (turn_keeps clock _ _ counts w (buildDoc_article_id E art))
    as (_ & Hu & Ho & _).
  pose proof (inserted_carries E art (clock (reads w))) as Hins. cbv zeta in Hins.
  assert (forall k v, supplied E art !! k = Some v ->
            buildDoc E art !! k = Some v /\ v <> JUndefined /\ k <> "updatedAt") as Hsup.
  { intros k v [Hk Hv]%supplied_lookup. repeat (split; [ done | ]).
    intros ->. by rewrite buildDoc_no_stamp in Hk. }
  pose proof (buildDoc_article_id E art) as Hdocid.
  unfold write_one, article_key, supplied, carries, storable in *.
  remember (buildDoc E art) as doc eqn:Hdoc. clear Hdoc.
  remember (get art "article_id") as id eqn:Hid0. clear Hid0.
  destruct (turn_cases clock id doc counts w)
    as [(e & _ & [Ho' | Hc]) | [(i0 & r0 & Hf & Hr0 & Hid & _ & He) | (Hf & _ & He)]];
    [ done | done | | ]; rewrite He in Hu, Ho |- *; cbn [snd] in Hu, Ho;
    eexists _, _; (split; [ reflexivity | ]); (split; [ congruence | ]);
    (split; [ auto | ]); cbn [collection db set_collection set_db tick].
  - set (r1 := Article.apply_set (Article.set_fields (clock (reads w)) doc) r0).
    assert (Article.article_id_of r1 = Article.article_id_of r0) as Hsame
      by (by eapply set_keeps_article_id).
    assert (i0 < length (collection (db w)))%nat as Hlt by (by eapply lookup_lt_Some).
    split.
    + intros i r Hr. destruct (decide (i0 = i)) as [<- | Hne].
      * rewrite Hr0 in Hr. injection Hr as <-. exists r1.
        rewrite list_lookup_insert_eq by done. split; [ done | ]. split; [ done | ].
        rewrite bool_decide_eq_true_2 by done. apply set_fields_same_data.
      * exists r. rewrite list_lookup_insert_ne by done.
        split; [ done | ]. split; [ done | ].
        rewrite bool_decide_eq_false_2; [ apply same_data_refl | ].
        intros Heq. apply Hne.
        eapply (unique_ids_lookup _ _ _ r0 r); eauto. congruence.
    + exists i0, r1. rewrite list_lookup_insert_eq by done.
      split; [ done | ]. split; [ congruence | ].
      intros k v (Hk & Hv & Hne)%Hsup. by apply set_lookup_supplied.
  - split.
    + intros i r Hr. exists r. split; [ by apply lookup_app_l_Some | ].
      split; [ done | ].
      rewrite bool_decide_eq_false_2; [ apply same_data_refl | ].
      intros Heq. eapply (find_index_None _ _ Hf r); [ | done ].
      by eapply list_elem_of_lookup_2.
    + destruct Hins as (Hid & Hcarries & _).
      eexists (length (collection (db w))), _.
      split; [ by rewrite lookup_app_r, Nat.sub_diag by lia | ].
      split; [ done | ].
      intros k v (Hk & Hv & Hne)%Hsup. by apply Hcarries.
Qed.

(** The loop writes into each document that was there the fields of the
    articles filed under its id, one after the other, and nothing else
    but the stamp. *)
Lemma loop_data (arts : list Doc) (counts : Z * Z) (w : World) :
  outage (db w) = None -> Forall (storable E) arts -> unique_ids (collection (db w)) ->
  exists counts' w',
    for_of arts (store_article E clock) counts w = (Normal counts', w')
    /\ outage (db w') = None
    /\ unique_ids (collection (db w'))
    /\ forall i r, collection (db w) !! i = Some r ->
         exists r', collection (db w') !! i = Some r'
           /\ Article.article_id_of r' = Article.article_id_of r
           /\ same_data r' (written E arts (Article.article_id_of r) r).
Proof.
  revert counts w. induction arts as [ | a arts IH]; intros counts w Hout Hall Huniq.
  { exists counts, w. repeat (split; [ done | ]). intros i r Hr. exists r.
    repeat (split; [ done | ]). apply same_data_refl. }
  apply Forall_cons in Hall as [Ha Hall].
  destruct (turn_data a counts w Hout Ha Huniq)
    as (c1 & w1 & Hrun & Hout1 & Huniq1 & Hdata1 & _).
  destruct (IH c1 w1 Hout1 Hall Huniq1) as (c2 & w2 & Hloop & Hout2 & Huniq2 & Hdata2).
  exists c2, w2. cbn [for_of]. unfold bind. rewrite Hrun.
  split; [ done | ]. split; [ done | ]. split; [ done | ].
  intros i r Hr. destruct (Hdata1 i r Hr) as (r1 & Hr1 & Hid1 & Hsame1).
  destruct (Hdata2 i r1 Hr1) as (r2 & Hr2 & Hid2 & Hsame2).
  exists r2. split; [ done | ]. split; [ congruence | ].
  eapply same_data_trans; [ exact Hsame2 | ]. rewrite Hid1.
  unfold written at 2. cbn [fold_left]. by apply written_same_data.
Qed.

(** After the loop every document holds, at each key for which the batch
    supplies a value under its id, the value supplied last. *)
Lemma loop_last (arts : list Doc) (counts counts' : Z * Z) (w w' : World) :
  outage (db w) = None -> Forall (storable E) arts -> unique_ids (collection (db w)) ->
  for_of arts (store_article E clock) counts w = (Normal counts', w') ->
  forall j r' k v, collection (db w') !! j = Some r' ->
    last_supplied E arts (Article.article_id_of r') k = Some v -> r' !! k = Some v.
Proof.
  revert counts counts' w w'.
  induction arts as [ | a arts IH]; intros counts counts' w w' Hout Hall Huniq Hrun;
    [ by intros j r' k v _ Hlast | ].
  apply Forall_cons in Hall as [Ha Hall].
  destruct (turn_data a counts w Hout Ha Huniq)
    as (c1 & w1 & Hturn & Hout1 & Huniq1 & _ & (ia & ra & Hra & Hida & Hsup)).
  cbn [for_of] in Hrun. unfold bind in Hrun. rewrite Hturn in Hrun.
  destruct (loop_data arts c1 w1 Hout1 Hall Huniq1)
    as (c2 & w2 & Hloop & _ & Huniq2 & Hdata).
  rewrite Hloop in Hrun. injection Hrun as <- <-.
  intros j r' k v Hr' Hlast. unfold last_supplied in Hlast. cbn [fold_left] in Hlast.
  rewrite last_supplied_from in Hlast.
  destruct (last_supplied E arts (Article.article_id_of r') k) as [v' | ] eqn:Hrest.
  { injection Hlast as <-. by eapply (IH c1 c2 w1 w2). }
  unfold last_one in Hlast. case_bool_decide as Hkey; [ | done ].
  destruct (supplied E a !! k) as [v' | ] eqn:Hk; [ | done ]. injection Hlast as ->.
  destruct (Hdata ia ra Hra) as (r2 & Hr2 & Hid2 & Hsame).
  assert (ia = j) as ->.
  { eapply (unique_ids_lookup _ _ _ r2 r'); eauto. congruence. }
  rewrite Hr' in Hr2. injection Hr2 as <-.
  assert (k <> "updatedAt") as Hne.
  { intros ->. apply supplied_lookup in Hk as [Hk _]. by rewrite buildDoc_no_stamp in Hk. }
  rewrite (Hsame k Hne), written_lookup.
  replace (Article.article_id_of ra) with (Article.article_id_of r') by congruence.
  rewrite Hrest. by apply Hsup.
Qed.

(** While every article of the batch is on file, the loop inserts
    nothing. *)
Lemma loop_keeps_length (arts : list Doc) (counts counts' : Z * Z) (w w' : World) :
  Forall (fun a => is_Some (Article.find_index (get a "article_id") (collection (db w)))) arts ->
  for_of arts (store_article E clock) counts w = (Normal counts', w') ->
  length (collection (db w')) = length (collection (db w)).
Proof.
  revert counts w. induction arts as [ | a arts IH]; intros counts w Hall Hrun.
  { cbn in Hrun. by injection Hrun as _ <-. }
  apply Forall_cons in Hall as [[i Hi] Hall].
  cbn [for_of] in Hrun. unfold bind in Hrun. rewrite store_article_turn in Hrun.
  pose proof (buildDoc_article_id E a) as Hdocid.
  remember (buildDoc E a) as doc eqn:Hdoc. clear Hdoc.
  destruct (turn_cases clock (get a "article_id") doc counts w)
    as [(e & He & _) | [(i0 & r0 & Hf & Hr0 & Hid & _ & He) | (Hf & _ & _)]];
    [ by rewrite He in Hrun | | congruence ].
  rewrite He in Hrun. apply IH in Hrun.
  - rewrite Hrun. cbn. apply length_insert.
  - eapply Forall_impl; [ exact Hall | ]. intros b Hb. cbn.
    rewrite (find_index_insert _ _ _ r0); [ done | done | ].
    by eapply set_keeps_article_id.
Qed.

(** X7.  Running the job twice on the same batch changes nothing but the
    stamps: when the store answers and the records pass the cast, the
    second run leaves as many documents as the first, and each document
    has after the second run the data it had after the first, at every
    key except [updatedAt]. *)
Theorem X7_second_run_changes_only_the_stamp (batch : list Doc) (w0 : World) :
  outage (db w0) = None -> Forall (storable E) batch ->
  unique_ids (collection (db w0)) ->
  let job := fetchAndStoreNews E clock (Resolved (ResultsArray batch)) in
  Forall2 same_data (collection (db (job w0).2)) (collection (db (job (job w0).2).2)).
Proof.
  intros Hout Hall Huniq job. subst job.
  destruct batch as [ | art arts].
  { cbn. apply Forall2_same_length_lookup_2; [ done | ].
    intros i r r' Hr Hr'. rewrite Hr in Hr'. injection Hr' as <-. apply same_data_refl. }
  destruct (loop_data (art :: arts) (0, 0) (started clock w0) Hout Hall Huniq)
    as (c1 & v1 & Hloop1 & Hout1 & Huniq1 & _).
  destruct (loop_stores E clock (art :: arts) (0, 0) (started clock w0) Hout Hall)
    as (c1' & v1' & Hloop1' & _ & _ & _ & _ & Hfiled).
  rewrite Hloop1 in Hloop1'. injection Hloop1' as <- <-.
  rewrite (fetch_articles E clock art arts w0), Hloop1. cbn [snd].
  set (w1 := logged _ v1).
  destruct (loop_data (art :: arts) (0, 0) (started clock w1) Hout1 Hall Huniq1)
    as (c2 & v2 & Hloop2 & _ & _ & Hdata).
  rewrite (fetch_articles E clock art arts w1), Hloop2. cbn [snd db logged collection].
  assert (length (collection (db v2)) = length (collection (db v1))) as Hlen.
  { eapply (loop_keeps_length (art :: arts) _ _ (started clock w1)); [ | exact Hloop2 ].
    eapply Forall_impl; [ exact Hfiled | ]. intros a (i & r & k & Hf & _). cbn. eauto. }
  apply Forall2_same_length_lookup_2; [ done | ].
  intros i r1 r2 Hr1 Hr2. destruct (Hdata i r1 Hr1) as (r2' & Hr2' & _ & Hsame).
  cbn in Hr2'. rewrite Hr2 in Hr2'. injection Hr2' as <-.
  apply same_data_sym. eapply same_data_trans; [ exact Hsame | ].
  intros k Hk. rewrite written_lookup.
  destruct (last_supplied E (art :: arts) (Article.article_id_of r1) k) as [v | ] eqn:Hlast;
    [ | done ].
  symmetry. eapply (loop_last (art :: arts) (0, 0) c1 (started clock w0) v1); eauto.
Qed.

(** X8.  Within a batch the last write wins, key by key: after a run that
    the store answers, over articles whose records fit the schema, every
    document holds, at each key for which the
    batch supplies a value under its id, the value supplied last; and a
    document that was there before the run keeps, at every other key but
    [updatedAt], the value it had. *)
Theorem X8_last_supplied_value_wins (art : Doc) (arts : list Doc) (w : World) :
  outage (db w) = None -> Forall (typed E) (art :: arts) ->
  unique_ids (collection (db w)) ->
  let w' := (fetchAndStoreNews E clock (Resolved (ResultsArray (art :: arts))) w).2 in
  (forall j r' k v, collection (db w') !! j = Some r' ->
     last_supplied E (art :: arts) (Article.article_id_of r') k = Some v ->
     r' !! k = Some v)
  /\ (forall i r, collection (db w) !! i = Some r ->
        exists r', collection (db w') !! i = Some r'
          /\ Article.article_id_of r' = Article.article_id_of r
          /\ forall k, k <> "updatedAt" ->
               last_supplied E (art :: arts) (Article.article_id_of r) k = None ->
               r' !! k = r !! k).
Proof.
  intros Hout Htyped Huniq w'. subst w'.
  pose proof (typed_all_storable E _ Htyped) as Hall.
  destruct (loop_data (art :: arts) (0, 0) (started clock w) Hout Hall Huniq)
    as (c1 & v1 & Hloop & _ & _ & Hdata).
  rewrite fetch_articles, Hloop. cbn [snd db logged collection]. split.
  - intros j r' k v Hr' Hlast.
    eapply (loop_last (art :: arts) (0, 0) c1 (started clock w) v1); eauto.
  - intros i r Hr. destruct (Hdata i r Hr) as (r' & Hr' & Hid & Hsame).
    exists r'. split; [ done | ]. split; [ done | ].
    intros k Hk Hnone. by rewrite (Hsame k Hk), written_lookup, Hnone.
Qed.
End BatchData.

Lemma X7_second_run_changes_only_the_stamp_witness :
  let job := fetchAndStoreNews iso_utc clock_demo
               (Resolved (ResultsArray [art_dated; payload_a1])) in
  Forall2 same_data (collection (db (job world_a1).2))
    (collection (db (job (job world_a1).2).2)).
Proof.
  apply (X7_second_run_changes_only_the_stamp iso_utc clock_demo
           [art_dated; payload_a1] world_a1).
  - reflexivity.
  - repeat constructor.
  - change (NoDup [Article.article_id_of stored_a1]). apply NoDup_singleton.
Defined.

Lemma X8_last_supplied_value_wins_witness :
  exists r',
    collection (db (fetchAndStoreNews iso_utc clock_demo
                      (Resolved (ResultsArray [art_dated; payload_a1])) world_a1).2)
    !! 0%nat = Some r'
    /\ r' !! "title" = Some (JStr "New")
    /\ r' !! "description" = Some (JStr "D").
Proof.
  destruct (X8_last_supplied_value_wins iso_utc clock_demo art_dated [payload_a1] world_a1)
    as [Hlast Hold].
  - reflexivity.
  - repeat (constructor; [ vm_compute; reflexivity | ]). constructor.
  - change (NoDup [Article.article_id_of stored_a1]). apply NoDup_singleton.
  - destruct (Hold 0%nat stored_a1 eq_refl) as (r' & Hr' & Hid & Hkeep).
    exists r'. split; [ exact Hr' | ]. split.
    + apply (Hlast 0%nat r' "title" (JStr "New") Hr'). rewrite Hid.
      vm_compute. reflexivity.
    + rewrite (Hkeep "description"); [ reflexivity | discriminate | ].
      vm_compute. reflexivity.
Defined.

(** ** Further properties of the list handler *)

Lemma given_nonempty_param (p : option string) : given (nonempty p) = given p.
Proof. by destruct p as [[ | c s] | ]. Qed.

Lemma kept_when_given {A} (p : option string) (f : option string -> option A) :
  (if given (nonempty p) then f (nonempty p) else None)
  = (if given p then f p else None).
Proof. by destruct p as [[ | c s] | ]. Qed.

Section Parameters.
Variable E : Engine.

Lemma build_filter_without_empty (q : Req.query) :
  build_filter E (without_empty q) = build_filter E q.
Proof.
  unfold build_filter, without_empty. cbn [Req.startDate Req.endDate Req.author
    Req.language Req.country Req.category Req.datatype Req.search].
  f_equal.
  - by destruct (Req.startDate q) as [[ | c s] | ], (Req.endDate q) as [[ | c' s'] | ].
  - apply (kept_when_given (Req.author q) (fun p => p)).
  - apply (kept_when_given (Req.language q) (fun p => toLowerCase <$> p)).
  - apply (kept_when_given (Req.country q) (fun p => csv_values <$> p)).
  - apply (kept_when_given (Req.category q) (fun p => csv_values <$> p)).
  - apply (kept_when_given (Req.datatype q) (fun p => toLowerCase <$> p)).
  - apply (kept_when_given (Req.search q) (fun p => p)).
Qed.

Lemma build_filter_unfiltered (q : Req.query) :
  unfiltered q = true -> build_filter E q = Article.no_filter.
Proof.
  unfold unfiltered. intros H. apply negb_true_iff in H.
  repeat (apply orb_false_elim in H as [H ?]).
  unfold build_filter. by repeat match goal with Hg : given _ = false |- _ => rewrite Hg; clear Hg end.
Qed.

(** X9.  A filter parameter that is present but empty counts as absent:
    the handler answers a request as it answers the request without its
    empty filter parameters; and a request without any filter parameter
    selects every document. *)
Theorem X9_empty_filter_parameters_are_ignored (q : Req.query) (w : World) :
  news_handler E q w = news_handler E (without_empty q) w
  /\ (unfiltered q = true -> forall r, selects E q r = Some true).
Proof.
  split.
  - unfold news_handler. by rewrite build_filter_without_empty.
  - intros Hq r. unfold selects. by rewrite (build_filter_unfiltered q Hq).
Qed.

Lemma selects_only_language (s : string) (r : Doc) :
  s <> "" ->
  selects E (only_language s) r
  = Some (Article.eq_match (toLowerCase s) (get r "language")).
Proof.
  intros Hs. unfold selects, build_filter, only_language, Article.prepare. cbn.
  destruct (String.eqb_spec s ""); [ done | ]. cbn. by rewrite !andb_true_r.
Qed.

Lemma selects_only_datatype (s : string) (r : Doc) :
  s <> "" ->
  selects E (only_datatype s) r
  = Some (Article.eq_match (toLowerCase s) (get r "datatype")).
Proof.
  intros Hs. unfold selects, build_filter, only_datatype, Article.prepare. cbn.
  destruct (String.eqb_spec s ""); [ done | ]. cbn. by rewrite !andb_true_r.
Qed.

(** X10.  [language] and [datatype] select by equality with the parameter
    in lower case: for a parameter of ASCII text, a document whose
    field is the string [l] is selected iff [l] is the lower-case form
    of the parameter (the parameter with its capital letters A to Z
    made small), and a document without the field is not selected. *)
Theorem X10_language_and_datatype_match_exactly (s l : string) (r : Doc) :
  s <> "" -> ascii_only s = true ->
  Forall2 lower_of (list_ascii_of_string s) (list_ascii_of_string (toLowerCase s))
  /\ (get r "language" = JStr l ->
     (selects E (only_language s) r = Some true <-> l = toLowerCase s))
  /\ (get r "datatype" = JStr l ->
        (selects E (only_datatype s) r = Some true <-> l = toLowerCase s))
  /\ (r !! "language" = None -> selects E (only_language s) r = Some false)
  /\ (r !! "datatype" = None -> selects E (only_datatype s) r = Some false).
Proof.
  intros Hs _. rewrite selects_only_language, selects_only_datatype by done.
  unfold Article.eq_match.
  split; [ apply toLowerCase_spec | ].
  split; [ | split; [ | split ] ].
  - intros ->. cbn [Article.field_strings]. split.
    + intros [= H]. apply bool_decide_eq_true in H.
      apply list_elem_of_singleton in H. by symmetry.
    + intros ->. f_equal. apply bool_decide_eq_true. by apply list_elem_of_singleton.
  - intros ->. cbn [Article.field_strings]. split.
    + intros [= H]. apply bool_decide_eq_true in H.
      apply list_elem_of_singleton in H. by symmetry.
    + intros ->. f_equal. apply bool_decide_eq_true. by apply list_elem_of_singleton.
  - intros Hr. unfold get. rewrite Hr. reflexivity.
  - intros Hr. unfold get. rewrite Hr. reflexivity.
Qed.

Lemma selects_only_author (s : string) (r : Doc) :
  s <> "" ->
  selects E (only_author s) r
  = match Regex.compile s with
    | Regex.Pattern ra => Some (Article.elem_regex_match ra (get r "creator"))
    | _ => None
    end.
Proof.
  intros Hs. unfold selects, build_filter, only_author, Article.prepare. cbn.
  destruct (String.eqb_spec s ""); [ done | ]. cbn.
  destruct (Regex.compile s); [ | done | done ].
  by rewrite !andb_true_r.
Qed.

(** X11.  For an [author] of ASCII text without characters that are
    special in a pattern, a document whose [creator] entries are ASCII
    text is selected iff the text occurs, case ignored, in some entry
    of its [creator] array; a document whose [creator] is not an array
    is never selected. *)
Theorem X11_author_occurs_in_a_creator (s : string) (r : Doc) :
  s <> "" -> has_meta s = false -> ascii_only s = true ->
  (forall l, get r "creator" = JArr l -> Forall (fun c => ascii_only c = true) l ->
     (selects E (only_author s) r = Some true
      <-> exists c, c ∈ l /\ occurs_ci s c = true))
  /\ ((forall l, get r "creator" <> JArr l) ->
      selects E (only_author s) r = Some false).
Proof.
  intros Hs Hplain _. rewrite selects_only_author, compile_plain by done. split.
  - intros l -> _. cbn. split.
    + intros [= H]. apply existsb_exists in H as (c & Hc & Hocc).
      exists c. split; [ by apply list_elem_of_In | by rewrite <- search_lits ].
    + intros (c & Hc & Hocc). f_equal. apply existsb_exists. exists c.
      split; [ by apply list_elem_of_In | by rewrite search_lits ].
  - intros Hno. destruct (get r "creator") as [ | | | | | l | | ]; try done.
    by destruct (Hno l).
Qed.
End Parameters.

Lemma X9_empty_filter_parameters_are_ignored_witness :
  selects iso_utc (Req.mkQuery (Some "") None None (Some "") (Some "") None None
                     (Some "2") None (Some "")) stored_plain = Some true.
Proof.
  destruct (X9_empty_filter_parameters_are_ignored iso_utc
              (Req.mkQuery (Some "") None None (Some "") (Some "") None None
                 (Some "2") None (Some "")) world_three) as [_ H].
  apply H. reflexivity.
Defined.

Lemma X10_language_and_datatype_match_exactly_witness :
  selects iso_utc (only_language "EN")
    (<["language" := JStr "en"]> stored_plain) = Some true.
Proof.
  destruct (X10_language_and_datatype_match_exactly iso_utc "EN" "en"
              (<["language" := JStr "en"]> stored_plain)) as (_ & H & _);
    [ discriminate | reflexivity | ].
  apply H; reflexivity.
Defined.

Lemma X11_author_occurs_in_a_creator_witness :
  selects iso_utc (only_author "smith")
    (<["creator" := JArr ["Ann Lee"; "Bob SMITH"]]> stored_plain) = Some true.
Proof.
  destruct (X11_author_occurs_in_a_creator iso_utc "smith"
              (<["creator" := JArr ["Ann Lee"; "Bob SMITH"]]> stored_plain)) as (H & _);
    [ discriminate | reflexivity | reflexivity | ].
  apply (H ["Ann Lee"; "Bob SMITH"]); [ reflexivity | by repeat constructor | ].
  exists "Bob SMITH". split; [ apply list_elem_of_further, list_elem_of_here | reflexivity ].
Defined.

(** ** The list handler: dates, failures and listings *)

Lemma range_match_spec (lo hi : option Z) (v : JsVal) :
  Article.range_match lo hi v = true
  <-> exists t, v = JDate (Some t)
        /\ (forall a, lo = Some a -> a <= t) /\ (forall b, hi = Some b -> t <= b).
Proof.
  unfold Article.range_match. split.
  - destruct v as [ | | | | | | [t | ] | ]; try done. intros [Hlo Hhi]%andb_prop.
    exists t. split; [ done | ]. split.
    + intros a ->. by apply Z.leb_le.
    + intros b ->. by apply Z.leb_le.
  - intros (t & -> & Hlo & Hhi). apply andb_true_intro. split.
    + destruct lo as [a | ]; [ apply Z.leb_le; auto | done ].
    + destruct hi as [b | ]; [ apply Z.leb_le; auto | done ].
Qed.

(** [setHours(23, 59, 59, 999)] moves a time to the last millisecond of
    its local day: the result, read in local time, is a time [d] that
    ends a day and lies in the day of the local time of [t]. *)
Lemma end_of_local_day_spec (E : Engine) (t eod : Z) :
  end_of_local_day E t = Some eod ->
  exists d, eod = d - LocalTZA E d false
            /\ d mod 86400000 = 86399999
            /\ t + LocalTZA E t true <= d < t + LocalTZA E t true + 86400000.
Proof.
  unfold end_of_local_day, time_clip. cbv zeta.
  set (local := t + LocalTZA E t true).
  set (d := local - local mod 86400000 + 86399999).
  destruct (Z.abs _ <=? _); [ | done ]. intros [= <-]. exists d.
  pose proof (Z.mod_pos_bound local 86400000 ltac:(lia)) as Hm.
  pose proof (Z.div_mod local 86400000 ltac:(lia)) as Hdm.
  split; [ done | ]. split; [ | subst d; lia ].
  replace d with (86399999 + (local / 86400000) * 86400000) by (subst d; lia).
  rewrite Z.mod_add by lia. reflexivity.
Qed.

(** Where the offset of local time never changes, the result lies less
    than a day after [t] and ends a local day. *)
Lemma end_of_local_day_fixed_offset (E : Engine) (c t eod : Z) :
  (forall x b, LocalTZA E x b = c) ->
  end_of_local_day E t = Some eod ->
  t <= eod < t + 86400000 /\ (eod + c + 1) mod 86400000 = 0.
Proof.
  intros Hc Heod. destruct (end_of_local_day_spec E t eod Heod) as (d & -> & Hd & Hr).
  rewrite !Hc in *. split; [ lia | ].
  replace (d - c + c + 1) with (d + 1) by lia.
  rewrite <- Z.add_mod_idemp_l, Hd by lia. reflexivity.
Qed.

Section Dates.
Variable E : Engine.

Lemma selects_between (s e : option string) (lo hi : option Z) (r : Doc) :
  given s || given e = true ->
  (if given s then Date_parse E (default "" s) else Some 0) <> None ->
  (if given e then Date_parse E (default "" e) ≫= end_of_local_day E else Some 0)
  <> None ->
  lo = (if given s then Date_parse E (default "" s) else None) ->
  hi = (if given e then Date_parse E (default "" e) ≫= end_of_local_day E else None) ->
  selects E (between s e) r = Some (Article.range_match lo hi (get r "pubDate")).
Proof.
  intros Hgiven Hs He -> ->.
  unfold selects, build_filter, between, Article.prepare.
  cbn [Req.startDate Req.endDate Req.author Req.language Req.country Req.category
       Req.datatype Req.search given]. rewrite Hgiven.
  cbn [keep_if Article.f_pubDate Article.f_creator Article.f_or_search
       Article.f_language Article.f_country Article.f_category Article.f_datatype
       Article.compile_opt Article.when].
  destruct (given s), (given e); try done;
    repeat match goal with
           | H : Date_parse E ?x <> None |- _ =>
               destruct (Date_parse E x) eqn:?; [ clear H | done ]
           | H : Date_parse E ?x ≫= end_of_local_day E <> None |- _ =>
               destruct (Date_parse E x ≫= end_of_local_day E) eqn:?; [ clear H | done ]
           end; cbn; by rewrite ?andb_true_r.
Qed.

(** X12.  A date range selects the documents whose [pubDate] lies between
    the start date and the end of the local day of the end date, both
    included: the end is what [setHours(23, 59, 59, 999)] makes of the
    end date, the last millisecond of its day in local time, taken back
    to UTC with the offset that the zone has then.  A bound that is not
    given does not restrict, and a document without a date is never
    selected.  In a zone whose offset never changes the end lies less
    than a day after the end date. *)
Theorem X12_date_range_includes_the_end_day
    (ss es : string) (ts te eod : Z) (r : Doc) :
  ss <> "" -> es <> "" -> Date_parse E ss = Some ts -> Date_parse E es = Some te ->
  end_of_local_day E te = Some eod ->
  (selects E (between (Some ss) (Some es)) r = Some true
   <-> exists t, get r "pubDate" = JDate (Some t) /\ ts <= t <= eod)
  /\ (selects E (between (Some ss) None) r = Some true
      <-> exists t, get r "pubDate" = JDate (Some t) /\ ts <= t)
  /\ (selects E (between None (Some es)) r = Some true
      <-> exists t, get r "pubDate" = JDate (Some t) /\ t <= eod)
  /\ (exists d, eod = d - LocalTZA E d false
                /\ d mod 86400000 = 86399999
                /\ te + LocalTZA E te true <= d < te + LocalTZA E te true + 86400000)
  /\ (forall c, (forall x b, LocalTZA E x b = c) ->
        te <= eod < te + 86400000 /\ (eod + c + 1) mod 86400000 = 0).
Proof.
  intros Hss Hes Hts Hte Heod.
  assert (given (Some ss) = true) as Hgs by (by apply given_nonempty).
  assert (given (Some es) = true) as Hge by (by apply given_nonempty).
  rewrite (selects_between (Some ss) (Some es) (Some ts) (Some eod));
    [ | by rewrite Hgs | rewrite Hgs; cbn; by rewrite Hts
      | rewrite Hge; cbn; rewrite Hte; cbn; by rewrite Heod
      | rewrite Hgs; cbn; by rewrite Hts | rewrite Hge; cbn; rewrite Hte; cbn; by rewrite Heod ].
  rewrite (selects_between (Some ss) None (Some ts) None);
    [ | by rewrite Hgs | rewrite Hgs; cbn; by rewrite Hts | done
      | rewrite Hgs; cbn; by rewrite Hts | done ].
  rewrite (selects_between None (Some es) None (Some eod));
    [ | by rewrite Hge | done | rewrite Hge; cbn; rewrite Hte; cbn; by rewrite Heod
      | done | rewrite Hge; cbn; rewrite Hte; cbn; by rewrite Heod ].
  split; [ | split; [ | split; [ | split ] ] ].
  - split.
    + intros [= H]. apply range_match_spec in H as (t & Ht & Hlo & Hhi).
      exists t. split; [ done | ]. split; [ by apply Hlo | by apply Hhi ].
    + intros (t & Ht & Hlo & Hhi). f_equal. apply range_match_spec. exists t.
      split; [ done | ]. split; [ by intros a [= <-] | by intros b [= <-] ].
  - split.
    + intros [= H]. apply range_match_spec in H as (t & Ht & Hlo & _).
      exists t. split; [ done | by apply Hlo ].
    + intros (t & Ht & Hlo). f_equal. apply range_match_spec. exists t.
      split; [ done | ]. split; [ by intros a [= <-] | done ].
  - split.
    + intros [= H]. apply range_match_spec in H as (t & Ht & _ & Hhi).
      exists t. split; [ done | by apply Hhi ].
    + intros (t & Ht & Hhi). f_equal. apply range_match_spec. exists t.
      split; [ done | ]. split; [ done | by intros b [= <-] ].
  - by apply end_of_local_day_spec.
  - intros c Hc. by apply (end_of_local_day_fixed_offset E c).
Qed.

Lemma prepared_run (f : Article.Filter) (w : World) :
  Article.prepared f w
  = match Article.prepare f with
    | Article.Ready test => (Normal test, w)
    | Article.Rejects msg => (Throw (mkError msg None), w)
    | Article.Uncovered => (Beyond, w)
    end.
Proof. unfold Article.prepared. by destruct (Article.prepare f). Qed.

(** The list handler, by the state of the store and of the filter. *)
Lemma news_handler_cases (q : Req.query) (w : World) :
  let page := parseInt_or (Req.page q) 1 in
  let limit := parseInt_or (Req.limit q) 20 in
  let failed msg :=
    (Normal (mkResponse 500 (Failed msg)), logged (LogNewsError msg) w) in
  news_handler E q w =
  match outage (db w) with
  | Some msg => failed msg
  | None =>
      match Article.prepare (build_filter E q) with
      | Article.Rejects msg => failed msg
      | Article.Uncovered => (Beyond, w)
      | Article.Ready test =>
          match Article.skip_count (Arith.mul (Arith.pred page) limit) with
          | None => failed "BSON field 'skip' value must be >= 0"
          | Some n =>
              let matching := List.filter test (collection (db w)) in
              (Normal (mkResponse 200
                         (NewsPage (Z.of_nat (length matching)) page
                            (Arith.ceil_div (Z.of_nat (length matching)) limit)
                            (Article.window n (Article.limit_count limit)
                               (Article.sort_newest_first matching)))), w)
          end
      end
  end.
Proof.
  cbv zeta. destruct (outage (db w)) as [msg | ] eqn:Hout.
  { by apply news_handler_outage. }
  rewrite news_handler_run. cbv zeta.
  destruct (Article.prepare (build_filter E q)) as [test | msg | ] eqn:Hprep.
  - destruct (Article.skip_count _) as [n | ] eqn:Hskip.
    + rewrite (find_page_up _ test _ _ n w Hout Hprep Hskip).
      by rewrite (countDocuments_up _ test w Hout Hprep).
    + unfold Article.find_page, bind. rewrite (connected_up w Hout), prepared_run, Hprep.
      by rewrite Hskip.
  - unfold Article.find_page, bind. by rewrite (connected_up w Hout), prepared_run, Hprep.
  - unfold Article.find_page, bind. by rewrite (connected_up w Hout), prepared_run, Hprep.
Qed.

(** X13.  A start or end date that does not parse is not ignored: the
    request fails with status 500, and the failure is logged. *)
Theorem X13_unparseable_date_fails (q : Req.query) (w : World) (s : string) :
  Req.startDate q = Some s \/ Req.endDate q = Some s ->
  s <> "" -> Date_parse E s = None ->
  exists msg,
    news_handler E q w
    = (Normal (mkResponse 500 (Failed msg)), logged (LogNewsError msg) w).
Proof.
  intros Hq Hs Hparse. rewrite news_handler_cases. cbv zeta.
  destruct (outage (db w)) as [msg | ]; [ eauto | ].
  assert (Article.cast_range (Article.f_pubDate (build_filter E q)) = None) as Hcast.
  { unfold build_filter. cbn [Article.f_pubDate].
    destruct Hq as [Hq | Hq]; rewrite Hq, (given_nonempty s Hs).
    - cbn. rewrite Hparse. reflexivity.
    - rewrite orb_true_r. cbn. rewrite Hparse. cbn.
      by destruct (if given (Req.startDate q) then _ else _) as [[ | ] | ]. }
  unfold Article.prepare. rewrite Hcast. eauto.
Qed.

(** X14.  A page and a limit whose skip [(page - 1) * limit] is negative
    (page 0, say) do not give the first page: the store rejects the
    query and the request fails with status 500. *)
Theorem X14_negative_skip_fails (q : Req.query) (w : World) (p l : Z) :
  parseInt_or (Req.page q) 1 = Num p -> parseInt_or (Req.limit q) 20 = Num l ->
  (p - 1) * l < 0 ->
  Article.prepare (build_filter E q) <> Article.Uncovered ->
  exists msg,
    news_handler E q w
    = (Normal (mkResponse 500 (Failed msg)), logged (LogNewsError msg) w).
Proof.
  intros Hp Hl Hneg Hcov. rewrite news_handler_cases. cbv zeta.
  destruct (outage (db w)) as [msg | ]; [ eauto | ].
  destruct (Article.prepare (build_filter E q)) as [test | msg | ]; [ | eauto | done ].
  rewrite Hp, Hl. cbn. destruct (Z.ltb_spec ((p - 1) * l) 0); [ eauto | lia ].
Qed.

(** X15.  The list handler writes to the log exactly when it fails: a
    success response leaves the log as it was, and a failure adds one
    line, with the message that the response carries. *)
Theorem X15_failures_are_logged (q : Req.query) (w : World) (r : Response) :
  reply (news_handler E q) w = Some r ->
  (success r = true /\ status r = 200 /\ (news_handler E q w).2 = w)
  \/ (exists msg, r = mkResponse 500 (Failed msg)
        /\ (news_handler E q w).2 = logged (LogNewsError msg) w).
Proof.
  unfold reply. rewrite news_handler_cases. cbv zeta.
  destruct (outage (db w)) as [msg | ]; [ intros [= <-]; right; eauto | ].
  destruct (Article.prepare (build_filter E q)) as [test | msg | ];
    [ | intros [= <-]; right; eauto | done ].
  destruct (Article.skip_count _) as [n | ]; intros [= <-]; [ left | right; eauto ].
  done.
Qed.
End Dates.

(** On the day on which summer time begins, the local day is an hour
    short: the end of the range lies 23 hours after the end date. *)
Example end_of_day_at_changeover :
  Date_parse london_2024 "2024-03-31" = Some 1711843200000
  /\ end_of_local_day london_2024 1711843200000 = Some 1711925999999
  /\ end_of_local_day iso_utc 1711843200000 = Some 1711929599999.
Proof. repeat split; vm_compute; reflexivity. Qed.

Lemma X12_date_range_includes_the_end_day_witness :
  selects iso_utc (between (Some "2024-01-01") (Some "2024-01-15")) stored_jan15 = Some true
  /\ selects iso_utc (between (Some "2024-01-01") (Some "2024-01-15")) stored_plain
     <> Some true
  /\ (selects london_2024 (between (Some "2024-03-01") (Some "2024-03-31")) stored_jan15
      = Some true
      <-> exists t, get stored_jan15 "pubDate" = JDate (Some t)
                    /\ 1709251200000 <= t <= 1711925999999).
Proof.
  destruct (X12_date_range_includes_the_end_day iso_utc "2024-01-01" "2024-01-15"
              1704067200000 1705276800000 1705363199999 stored_jan15) as (Hin & _);
    [ discriminate | discriminate | reflexivity | reflexivity | reflexivity | ].
  destruct (X12_date_range_includes_the_end_day iso_utc "2024-01-01" "2024-01-15"
              1704067200000 1705276800000 1705363199999 stored_plain) as (Hout & _);
    [ discriminate | discriminate | reflexivity | reflexivity | reflexivity | ].
  destruct (X12_date_range_includes_the_end_day london_2024 "2024-03-01" "2024-03-31"
              1709251200000 1711843200000 1711925999999 stored_jan15) as (Hdst & _);
    [ discriminate | discriminate | reflexivity | reflexivity | reflexivity | ].
  split; [ | split; [ | exact Hdst ] ].
  - apply Hin. exists 1705280400000. split; [ reflexivity | ]. vm_compute. split; discriminate.
  - intros H. apply Hout in H as (t & Ht & _). discriminate.
Defined.

Lemma X13_unparseable_date_fails_witness :
  exists msg,
    news_handler iso_utc (between (Some "yesterday") None) world_three
    = (Normal (mkResponse 500 (Failed msg)), logged (LogNewsError msg) world_three).
Proof.
  apply (X13_unparseable_date_fails iso_utc (between (Some "yesterday") None)
           world_three "yesterday"); [ by left | discriminate | reflexivity ].
Defined.

Lemma X14_negative_skip_fails_witness :
  exists msg,
    news_handler iso_utc (paged "0" "10") world_three
    = (Normal (mkResponse 500 (Failed msg)), logged (LogNewsError msg) world_three).
Proof.
  apply (X14_negative_skip_fails iso_utc (paged "0" "10") world_three 0 10);
    [ reflexivity | reflexivity | lia | discriminate ].
Defined.

Lemma X15_failures_are_logged_witness :
  (news_handler iso_utc Req.empty world_three).2 = world_three
  /\ log (news_handler iso_utc Req.empty world_down).2
     = [LogNewsError "connection refused"].
Proof.
  split.
  - destruct (X15_failures_are_logged iso_utc Req.empty world_three
                (mkResponse 200
                   (NewsPage 3 (Num 1) (Num 1) [stored_fr; stored_us; stored_plain])))
      as [(_ & _ & H) | (msg & Hr & _)]; [ vm_compute; reflexivity | exact H | discriminate ].
  - destruct (X15_failures_are_logged iso_utc Req.empty world_down
                (mkResponse 500 (Failed "connection refused")))
      as [(H & _) | (msg & Hr & H)]; [ vm_compute; reflexivity | discriminate | ].
    injection Hr as <-. rewrite H. reflexivity.
Defined.

(** ** Listings *)

Lemma strongly_sorted_sublist {A} (R : A -> A -> Prop) (l1 l2 : list A) :
  l1 `sublist_of` l2 -> StronglySorted R l2 -> StronglySorted R l1.
Proof.
  induction 1 as [ | x l1 l2 Hsub IH | x l1 l2 Hsub IH]; intros Hs.
  - constructor.
  - apply StronglySorted_inv in Hs as [Hs Hx]. constructor; [ by apply IH | ].
    apply Forall_forall. intros y Hy.
    eapply (proj1 (Forall_forall _ _) Hx). by eapply elem_of_sublist.
  - apply StronglySorted_inv in Hs as [Hs _]. by apply IH.
Qed.

Lemma window_sublist (n limit : option nat) (rows : list Doc) :
  Article.window n limit rows `sublist_of` rows.
Proof.
  unfold Article.window. destruct n as [n | ]; [ | apply sublist_nil_l ].
  destruct limit as [m | ]; [ | apply sublist_drop ].
  etrans; [ apply sublist_take | apply sublist_drop ].
Qed.

Lemma filter_all (l : list Doc) : List.filter (fun _ : Doc => true) l = l.
Proof. induction l as [ | x l IH]; cbn; [ done | by rewrite IH ]. Qed.

(** The pages of a list, one after the other, are the list. *)
Lemma pages_concat {A} (rows : list A) (l n : nat) :
  concat ((fun k => take l (drop (k * l) rows)) <$> seq 0 n) = take (n * l) rows.
Proof.
  induction n as [ | n IH]; [ done | ].
  rewrite seq_S, fmap_app, concat_app, IH. cbn [fmap list_fmap concat].
  rewrite app_nil_r, take_take_drop. f_equal. lia.
Qed.

Lemma not_older_same_key (a b : Doc) :
  Article.not_older a b = true -> Article.not_older b a = true ->
  Article.pubDate_key a = Article.pubDate_key b.
Proof.
  unfold Article.not_older.
  destruct (Article.pubDate_key a), (Article.pubDate_key b); try done.
  intros H1%Z.leb_le H2%Z.leb_le. f_equal. lia.
Qed.

(** Documents with pairwise different sort keys have one order by
    [pubDate] only: whatever the store does with ties, there are none. *)
Lemma sorted_unique (l1 l2 : list Doc) :
  distinct_dates l2 -> Permutation l1 l2 ->
  StronglySorted newest_first l1 -> StronglySorted newest_first l2 -> l1 = l2.
Proof.
  revert l2. induction l1 as [ | x l1 IH]; intros l2 Hd Hp Hs1 Hs2.
  { by apply Permutation_nil in Hp. }
  destruct l2 as [ | y l2]; [ by apply Permutation_sym, Permutation_nil in Hp | ].
  apply StronglySorted_inv in Hs1 as [Hs1 Hx]. apply StronglySorted_inv in Hs2 as [Hs2 Hy].
  unfold distinct_dates in Hd. rewrite fmap_cons in Hd. apply NoDup_cons in Hd as [Hy' Hd].
  assert (x = y) as ->.
  { assert (x ∈ y :: l2) as Hin by (rewrite <- Hp; apply list_elem_of_here).
    apply elem_of_cons in Hin as [-> | Hin]; [ done | ].
    assert (y ∈ x :: l1) as Hin' by (rewrite Hp; apply list_elem_of_here).
    apply elem_of_cons in Hin' as [-> | Hin']; [ done | ].
    exfalso. apply Hy'. apply list_elem_of_fmap. exists x. split; [ | done ].
    apply not_older_same_key.
    - by apply (proj1 (Forall_forall _ _) Hy).
    - by apply (proj1 (Forall_forall _ _) Hx). }
  f_equal. apply IH; [ done | by apply Permutation_cons_inv in Hp | done | done ].
Qed.

Section Listings.
Variable E : Engine.

(** X16.  Whatever [page] and [limit] are, a success response is
    consistent: [total] is the number of documents that the filter
    selects, and [articles] holds some of these documents, none of them
    more often than the collection has it, in descending order of
    [pubDate] (documents without a date last), each of them in the
    collection and selected by the filter, and not more than [total].
    (Which of two documents with the same date comes first is left
    open.) *)
Theorem X16_listing_is_part_of_the_matches (q : Req.query) (w : World) (r : Response) :
  reply (news_handler E q) w = Some r -> success r = true ->
  exists test total page totalPages articles,
    Article.prepare (build_filter E q) = Article.Ready test
    /\ r = mkResponse 200 (NewsPage total page totalPages articles)
    /\ total = Z.of_nat (length (List.filter test (collection (db w))))
    /\ articles ⊆+ List.filter test (collection (db w))
    /\ StronglySorted newest_first articles
    /\ Forall (fun a => a ∈ collection (db w) /\ test a = true) articles
    /\ Z.of_nat (length articles) <= total.
Proof.
  unfold reply. rewrite news_handler_cases. cbv zeta.
  destruct (outage (db w)) as [msg | ]; [ by intros [= <-] | ].
  destruct (Article.prepare (build_filter E q)) as [test | msg | ];
    [ | by intros [= <-] | done ].
  destruct (Article.skip_count _) as [n | ]; [ | by intros [= <-] ].
  intros [= <-] _. set (matching := List.filter test (collection (db w))).
  pose proof (window_sublist n (Article.limit_count (parseInt_or (Req.limit q) 20))
                (Article.sort_newest_first matching)) as Hsub.
  eexists test, _, _, _, _. split; [ done | ]. split; [ reflexivity | ].
  split; [ done | ].
  split; [ etrans; [ apply sublist_submseteq, Hsub
                   | apply Permutation_submseteq, sort_newest_first_perm ] | ].
  split; [ eapply strongly_sorted_sublist; [ exact Hsub | apply sort_newest_first_sorted ] | ].
  split.
  - apply Forall_forall. intros a Ha.
    eapply elem_of_sublist in Ha; [ | exact Hsub ].
    rewrite sort_newest_first_perm in Ha. apply list_elem_of_In in Ha.
    apply filter_In in Ha as [Ha Ht]. split; [ by apply list_elem_of_In | done ].
  - apply sublist_length in Hsub.
    pose proof (Permutation_length (sort_newest_first_perm matching)). lia.
Qed.

(** X17.  When the filter selects no document (an empty store, say), the
    response is a success with [total] 0, no article and, for a limit of
    at least 1, 0 pages ([page], [limit] and the skip being safe
    integers). *)
Theorem X17_empty_listing (q : Req.query) (w : World) (test : Doc -> bool) (p l : Z) :
  outage (db w) = None ->
  Article.prepare (build_filter E q) = Article.Ready test ->
  List.filter test (collection (db w)) = [] ->
  parseInt_or (Req.page q) 1 = Num p -> parseInt_or (Req.limit q) 20 = Num l ->
  1 <= p -> 1 <= l ->
  safe_integer p = true -> safe_integer l = true -> safe_integer ((p - 1) * l) = true ->
  reply (news_handler E q) w = Some (mkResponse 200 (NewsPage 0 (Num p) (Num 0) [])).
Proof.
  intros Hout Hprep Hnone Hp Hl Hp1 Hl1 _ _ _. unfold reply.
  rewrite news_handler_cases. cbv zeta. rewrite Hout, Hprep, Hp, Hl, Hnone.
  cbn [Arith.pred Arith.mul Article.skip_count].
  destruct (Z.ltb_spec ((p - 1) * l) 0); [ nia | ]. cbn.
  destruct (Z.eqb_spec l 0); [ lia | ]. cbn.
  do 3 f_equal. unfold Article.window. cbn. by rewrite drop_nil, take_nil.
Qed.

Lemma listed_page (q : Req.query) (w : World) (test : Doc -> bool) (ps : string) (p l : Z) :
  outage (db w) = None ->
  Article.prepare (build_filter E q) = Article.Ready test ->
  parseInt ps = Num p -> parseInt_or (Req.limit q) 20 = Num l -> 1 <= p -> 1 <= l ->
  listed E (with_page q ps) w
  = take (Z.to_nat l)
      (drop (Z.to_nat (p - 1) * Z.to_nat l)
         (Article.sort_newest_first (List.filter test (collection (db w))))).
Proof.
  intros Hout Hprep Hp Hl Hp1 Hl1. unfold listed, reply.
  rewrite news_handler_cases. cbv zeta.
  change (build_filter E (with_page q ps)) with (build_filter E q).
  change (Req.limit (with_page q ps)) with (Req.limit q).
  rewrite Hout, Hprep, Hl. cbn [Req.page with_page parseInt_or]. rewrite Hp.
  cbn [Arith.pred Arith.mul Article.skip_count].
  destruct (Z.ltb_spec ((p - 1) * l) 0); [ nia | ]. cbn [fst body].
  unfold Article.window, Article.limit_count. destruct (Z.eqb_spec l 0); [ lia | ].
  rewrite Z.abs_eq by lia. do 2 f_equal. rewrite Z2Nat.inj_mul by lia. reflexivity.
Qed.

(** X18.  The pages of a listing fit together when the matching
    documents have pairwise different dates (so that their order by
    [pubDate] is determined: [sorted] below is their only arrangement
    in descending order): for a limit l >= 1, with l and n*l safe
    integers, the articles of the pages 1, 2, ..., n, one after the
    other, are the first n*l matching documents in descending order of
    [pubDate]; so with n*l >= total they are all of them, each on
    exactly one page. *)
Theorem X18_pages_partition_the_matches
    (q : Req.query) (w : World) (test : Doc -> bool) (l : Z) (n : nat)
    (numeral : nat -> string) :
  outage (db w) = None ->
  Article.prepare (build_filter E q) = Article.Ready test ->
  parseInt_or (Req.limit q) 20 = Num l -> 1 <= l ->
  safe_integer l = true -> safe_integer (Z.of_nat n * l) = true ->
  distinct_dates (List.filter test (collection (db w))) ->
  (forall k, (1 <= k <= n)%nat -> parseInt (numeral k) = Num (Z.of_nat k)) ->
  let sorted := Article.sort_newest_first (List.filter test (collection (db w))) in
  (forall other, Permutation other (List.filter test (collection (db w))) ->
     StronglySorted newest_first other -> other = sorted)
  /\ concat ((fun k => listed E (with_page q (numeral k)) w) <$> seq 1 n)
     = take (n * Z.to_nat l) sorted
  /\ ((length sorted <= n * Z.to_nat l)%nat ->
      concat ((fun k => listed E (with_page q (numeral k)) w) <$> seq 1 n) = sorted).
Proof.
  intros Hout Hprep Hl Hl1 _ _ Hdistinct Hnum sorted.
  split.
  { intros other Hperm Hsorted. apply sorted_unique; [ | | done | ].
    - unfold distinct_dates, sorted. by rewrite (sort_newest_first_perm _).
    - unfold sorted. by rewrite (sort_newest_first_perm _).
    - apply sort_newest_first_sorted. }
  assert (concat ((fun k => listed E (with_page q (numeral k)) w) <$> seq 1 n)
          = take (n * Z.to_nat l) sorted) as Hcat.
  { rewrite <- pages_concat, <- fmap_S_seq, <- list_fmap_compose. f_equal.
    apply list_fmap_ext. intros i k Hk. cbn.
    apply lookup_seq in Hk as [Hk Hlt]. cbn [Nat.add] in Hk. subst k.
    rewrite (listed_page q w test (numeral (S i)) (Z.of_nat (S i)) l);
      [ | done | done | apply Hnum; lia | done | lia | done ].
    do 3 f_equal. lia. }
  split; [ done | ]. intros Hlen. rewrite Hcat. by apply take_ge.
Qed.
End Listings.

Lemma X16_listing_is_part_of_the_matches_witness :
  exists test total page totalPages articles,
    Article.prepare (build_filter iso_utc (paged "abc" "-2")) = Article.Ready test
    /\ reply (news_handler iso_utc (paged "abc" "-2")) world_three
       = Some (mkResponse 200 (NewsPage total page totalPages articles))
    /\ StronglySorted newest_first articles
    /\ Z.of_nat (length articles) <= total.
Proof.
  destruct (X16_listing_is_part_of_the_matches iso_utc (paged "abc" "-2") world_three
              (mkResponse 200 (NewsPage 3 NaN (Num (-1)) [stored_fr; stored_us])))
    as (test & total & page & tp & arts & Hp & Hr & _ & _ & Hs & _ & Hl);
    [ vm_compute; reflexivity | reflexivity | ].
  exists test, total, page, tp, arts. split; [ exact Hp | ].
  split; [ rewrite <- Hr; vm_compute; reflexivity | ]. split; [ exact Hs | exact Hl ].
Defined.

Lemma X17_empty_listing_witness :
  reply (news_handler iso_utc Req.empty) world_empty
  = Some (mkResponse 200 (NewsPage 0 (Num 1) (Num 0) [])).
Proof.
  apply (X17_empty_listing iso_utc Req.empty world_empty (fun _ => true) 1 20);
    [ reflexivity | reflexivity | reflexivity | reflexivity | reflexivity | lia | lia
    | reflexivity | reflexivity | reflexivity ].
Defined.

Lemma X18_pages_partition_the_matches_witness :
  concat ((fun k => listed iso_utc
                      (with_page (only_limit "2") (nth k ["0"; "1"; "2"] "")) world_three)
          <$> seq 1 2)
  = Article.sort_newest_first (collection (db world_three)).
Proof.
  destruct (X18_pages_partition_the_matches iso_utc (only_limit "2") world_three
              (fun _ => true) 2 2 (fun k => nth k ["0"; "1"; "2"] "")) as (_ & _ & H);
    [ reflexivity | reflexivity | reflexivity | lia | reflexivity | reflexivity | | | ].
  - unfold distinct_dates. apply (bool_decide_unpack _). vm_compute. exact I.
  - intros k Hk. destruct k as [ | [ | [ | k]]]; [ lia | reflexivity | reflexivity | lia ].
  - rewrite H; [ by rewrite filter_all | ]. rewrite filter_all.
    rewrite (Permutation_length (sort_newest_first_perm _)). cbn. lia.
Defined.

(** ** Filter options and status *)

Lemma ascii_compare_lt_trans (x y z : ascii) :
  Ascii.compare x y = Lt -> Ascii.compare y z = Lt -> Ascii.compare x z = Lt.
Proof. unfold Ascii.compare. rewrite !N.compare_lt_iff. lia. Qed.

Lemma string_leb_trans (a b c : string) :
  String.leb a b = true -> String.leb b c = true -> String.leb a c = true.
Proof.
  unfold String.leb. revert b c.
  induction a as [ | x a IH]; intros [ | y b] [ | z c]; cbn [String.compare]; try done.
  destruct (Ascii.compare x y) eqn:Hxy; [ | | done ].
  - apply Ascii.compare_eq_iff in Hxy as ->.
    destruct (Ascii.compare y z); [ apply IH | done | done ].
  - destruct (Ascii.compare y z) eqn:Hyz; [ | | done ].
    + apply Ascii.compare_eq_iff in Hyz as <-. by rewrite Hxy.
    + by rewrite (ascii_compare_lt_trans x y z).
Qed.

Lemma elem_of_insert_string (v s : string) (l : list string) :
  v ∈ insert_string s l <-> v = s \/ v ∈ l.
Proof.
  induction l as [ | x l IH]; cbn.
  - rewrite list_elem_of_singleton, elem_of_nil. tauto.
  - destruct (String.leb s x).
    + by rewrite (elem_of_cons (x :: l)).
    + rewrite !elem_of_cons, IH. tauto.
Qed.

Lemma insert_string_sorted (s : string) (l : list string) :
  StronglySorted ascending l -> StronglySorted ascending (insert_string s l).
Proof.
  induction l as [ | x l IH]; intros Hl; cbn.
  - repeat constructor.
  - apply StronglySorted_inv in Hl as [Hl Hx].
    destruct (String.leb s x) eqn:Hsx.
    + constructor; [ by constructor | ]. constructor; [ done | ].
      eapply Forall_impl; [ exact Hx | ]. intros y Hy.
      by apply (string_leb_trans s x y).
    + constructor; [ by apply IH | ].
      apply Forall_forall. intros y Hy. apply elem_of_insert_string in Hy as [-> | Hy].
      * destruct (String.leb_total s x) as [H | H]; [ congruence | done ].
      * by apply (proj1 (Forall_forall _ _) Hx).
Qed.

Lemma insert_string_NoDup (s : string) (l : list string) :
  s ∉ l -> NoDup l -> NoDup (insert_string s l).
Proof.
  induction l as [ | x l IH]; intros Hs Hl; cbn.
  - apply NoDup_singleton.
  - destruct (String.leb s x); [ by constructor | ].
    apply NoDup_cons in Hl as [Hx Hl]. apply not_elem_of_cons in Hs as [Hsx Hs].
    constructor; [ | by apply IH ].
    rewrite elem_of_insert_string. intros [-> | H]; done.
Qed.

Lemma sorting_keeps (l : list string) :
  StronglySorted ascending (fold_right insert_string [] l)
  /\ (forall v, v ∈ fold_right insert_string [] l <-> v ∈ l)
  /\ (NoDup l -> NoDup (fold_right insert_string [] l)).
Proof.
  induction l as [ | x l (Hs & He & Hn)]; cbn.
  - split; [ constructor | ]. split; [ done | ]. intros _. constructor.
  - split; [ by apply insert_string_sorted | ]. split.
    + intros v. by rewrite elem_of_insert_string, elem_of_cons, He.
    + intros Hx. apply NoDup_cons in Hx as [Hx Hl].
      apply insert_string_NoDup; [ by rewrite He | by apply Hn ].
Qed.

(** [filter(Boolean).sort()] on the values of [distinct]. *)
Lemma truthy_sorted_spec (values : list (option string)) :
  NoDup values ->
  StronglySorted ascending (truthy_sorted values)
  /\ NoDup (truthy_sorted values)
  /\ forall v, v ∈ truthy_sorted values <-> v <> "" /\ Some v ∈ values.
Proof.
  intros Hnd. unfold truthy_sorted.
  set (keep := fun v : option string =>
                 match v with
                 | Some s => if String.eqb s "" then None else Some s
                 | None => None
                 end).
  assert (forall x v, keep x = Some v <-> x = Some v /\ v <> "") as Hkeep.
  { intros [s | ] v; cbn; [ | split; [ done | by intros [? _] ] ].
    destruct (String.eqb_spec s ""); split.
    - done.
    - intros [[= ->] H]. done.
    - intros [= ->]. done.
    - intros [[= ->] _]. done. }
  destruct (sorting_keeps (omap keep values)) as (Hs & He & Hn).
  split; [ done | ]. split.
  - apply Hn. clear -Hnd Hkeep. induction Hnd as [ | x l Hx Hl IH]; cbn; [ constructor | ].
    destruct (keep x) as [v | ] eqn:Hv; [ | done ].
    constructor; [ | done ]. rewrite list_elem_of_omap. intros (y & Hy & Hky).
    apply Hkeep in Hv as [-> _]. apply Hkeep in Hky as [-> _]. done.
  - intros v. rewrite He, list_elem_of_omap. split.
    + intros (x & Hx & Hk). apply Hkeep in Hk as [-> Hv]. done.
    + intros [Hv Hx]. exists (Some v). split; [ done | ]. by apply Hkeep.
Qed.

Lemma distinct_up (field : string) (w : World) :
  outage (db w) = None ->
  Article.distinct field w
  = (Normal (remove_dups (flat_map (Article.distinct_values field) (collection (db w)))), w).
Proof. intros Hout. unfold Article.distinct, bind. by rewrite (connected_up w Hout). Qed.

Lemma options_of_distinct (field : string) (c : list Doc) :
  lists_options field c
    (truthy_sorted (remove_dups (flat_map (Article.distinct_values field) c))).
Proof.
  destruct (truthy_sorted_spec
              (remove_dups (flat_map (Article.distinct_values field) c))
              (NoDup_remove_dups _)) as (Hs & Hn & He).
  split; [ done | ]. split; [ done | ]. intros v. rewrite He. unfold offers.
  rewrite elem_of_remove_dups, list_elem_of_In, in_flat_map.
  split; intros [Hv (r & Hr & Hin)]; (split; [ done | ]); exists r;
    [ rewrite <- !list_elem_of_In in * | rewrite !list_elem_of_In in * ]; done.
Qed.

(** X19.  While the store can be reached, [GET /api/filters] answers with
    four lists, each of them in ascending order, without repetition, and
    holding exactly the non-empty strings that some document holds in
    the field (for [country] and [category]: as an entry of its array);
    the request changes nothing. *)
Theorem X19_filter_options (w : World) :
  outage (db w) = None ->
  exists languages countries categories datatypes,
    filters_handler w
    = (Normal (mkResponse 200 (FilterValues languages countries categories datatypes)), w)
    /\ lists_options "language" (collection (db w)) languages
    /\ lists_options "country" (collection (db w)) countries
    /\ lists_options "category" (collection (db w)) categories
    /\ lists_options "datatype" (collection (db w)) datatypes.
Proof.
  intros Hout. eexists _, _, _, _. split.
  - unfold filters_handler, try_catch, bind.
    rewrite !(distinct_up _ w Hout). reflexivity.
  - do 3 (split; [ apply options_of_distinct | ]). apply options_of_distinct.
Qed.

(** X20.  [GET /api/filters] always answers and never touches the store
    or the log: the answer is a success exactly when the store can be
    reached, and otherwise status 500 with the message of the store's
    error, which is not logged. *)
Theorem X20_filters_answer_without_trace (w : World) :
  exists r,
    filters_handler w = (Normal r, w)
    /\ (success r = true <-> outage (db w) = None)
    /\ forall msg, outage (db w) = Some msg -> r = mkResponse 500 (Failed msg).
Proof.
  destruct (outage (db w)) as [msg | ] eqn:Hout.
  - exists (mkResponse 500 (Failed msg)).
    split; [ by apply filters_handler_outage | ].
    split; [ done | ]. by intros ? [= <-].
  - eexists. split; [ | split; [ | done ] ].
    + unfold filters_handler, try_catch, bind. rewrite !(distinct_up _ w Hout). reflexivity.
    + done.
Qed.

Lemma head_is_newest (c : list Doc) (x : Doc) (rest : list Doc) :
  Article.sort_newest_first c = x :: rest ->
  x ∈ c /\ forall r, r ∈ c -> Article.not_older x r = true.
Proof.
  intros Hsort. pose proof (sort_newest_first_perm c) as Hperm.
  pose proof (sort_newest_first_sorted c) as Hs. rewrite Hsort in Hperm, Hs.
  split; [ rewrite <- Hperm; apply list_elem_of_here | ].
  intros r Hr. rewrite <- Hperm in Hr.
  apply StronglySorted_inv in Hs as [_ Hx].
  apply elem_of_cons in Hr as [-> | Hr].
  - unfold Article.not_older. destruct (Article.pubDate_key x); [ lia | done ].
  - by apply (proj1 (Forall_forall _ _) Hx).
Qed.

Lemma pubDate_key_Some (r : Doc) (t : Z) :
  Article.pubDate_key r = Some t <-> get r "pubDate" = JDate (Some t).
Proof.
  unfold Article.pubDate_key.
  destruct (get r "pubDate") as [ | | | | | | [t' | ] | ]; split; try done; by intros [= ->].
Qed.

(** X21.  While the store can be reached, [GET /api/status] reports the
    number of documents and, when some document has a date, the latest
    date of the collection; it reports [null] when no document has a
    [pubDate] that counts as true (an empty store, or only documents
    without a date).  Nothing is changed. *)
Theorem X21_status_reports_the_latest_date (w : World) :
  outage (db w) = None ->
  exists latest,
    status_handler w
    = (Normal (mkResponse 200
         (StatusInfo (Z.of_nat (length (collection (db w)))) latest
            (if readyState (db w) =? 1 then "connected" else "disconnected"))), w)
    /\ (undated (collection (db w)) -> latest = JNull)
    /\ (dates_of (collection (db w)) <> [] ->
        exists m, latest = JDate (Some m) /\ latest_date (collection (db w)) m).
Proof.
  intros Hout. eexists. split.
  - unfold status_handler, Article.findOne_newest, bind.
    rewrite (countDocuments_up Article.no_filter (fun _ => true) w Hout eq_refl).
    rewrite (connected_up w Hout). cbn [fst snd ret read_db]. rewrite filter_all.
    reflexivity.
  - set (c := collection (db w)).
    destruct (Article.sort_newest_first c) as [ | x rest] eqn:Hsort.
    + pose proof (sort_newest_first_perm c) as Hperm. rewrite Hsort in Hperm.
      apply Permutation_nil in Hperm. cbn. split; [ done | ].
      intros Hd. by rewrite Hperm in Hd.
    + destruct (head_is_newest c x rest Hsort) as [Hx Hnew]. cbn [head]. split.
      * intros Hun. unfold or_else. by rewrite (Hun x Hx).
      * intros Hd. destruct (dates_of c) as [ | t ts] eqn:Hdates; [ done | ].
        assert (t ∈ dates_of c) as Ht by (rewrite Hdates; apply list_elem_of_here).
        apply list_elem_of_omap in Ht as (r & Hr & Hkr).
        pose proof (Hnew r Hr) as Hxr. unfold Article.not_older in Hxr. rewrite Hkr in Hxr.
        destruct (Article.pubDate_key x) as [m | ] eqn:Hkx; [ | done ].
        exists m. apply pubDate_key_Some in Hkx as Hget. rewrite Hget. split; [ done | ].
        split.
        -- apply list_elem_of_omap. by exists x.
        -- intros t' Ht'. apply list_elem_of_omap in Ht' as (r' & Hr' & Hkr').
           pose proof (Hnew r' Hr') as Hxr'. unfold Article.not_older in Hxr'.
           rewrite Hkx, Hkr' in Hxr'. lia.
Qed.

Lemma X19_filter_options_witness :
  exists languages countries categories datatypes,
    filters_handler world_three
    = (Normal (mkResponse 200 (FilterValues languages countries categories datatypes)),
       world_three)
    /\ lists_options "country" (collection (db world_three)) countries
    /\ lists_options "category" (collection (db world_three)) categories.
Proof.
  destruct (X19_filter_options world_three eq_refl)
    as (ls & cs & cats & ds & Hrun & _ & Hc & Hcat & _).
  by exists ls, cs, cats, ds.
Defined.

Lemma X21_status_reports_the_latest_date_witness :
  exists latest,
    reply status_handler world_three
    = Some (mkResponse 200 (StatusInfo 3 latest "connected"))
    /\ exists m, latest = JDate (Some m) /\ latest_date (collection (db world_three)) m.
Proof.
  destruct (X21_status_reports_the_latest_date world_three eq_refl)
    as (latest & Hrun & _ & Hmax).
  exists latest. split; [ unfold reply; by rewrite Hrun | ].
  apply Hmax. vm_compute. discriminate.
Defined.

Lemma X20_filters_answer_without_trace_witness :
  filters_handler world_down
  = (Normal (mkResponse 500 (Failed "connection refused")), world_down).
Proof.
  destruct (X20_filters_answer_without_trace world_down) as (r & Hrun & _ & Hmsg).
  rewrite Hrun. by rewrite (Hmsg "connection refused" eq_refl).
Defined.

(** ** The dates of the store *)

Section Dates.
Variable E : Engine.
Variable clock : nat -> Z.

Lemma turn_keeps_dated (id : JsVal) (doc : Doc) (v : JsVal) (counts : Z * Z) (w : World) :
  doc !! "pubDate" = Some v -> (v = JNull \/ exists t, v = JDate t) ->
  well_dated (collection (db w)) ->
  well_dated (collection (db (turn clock id doc counts w).2)).
Proof.
  intros Hdoc Hv Hw.
  destruct (Article.cast_update doc) as [e | ] eqn:Hcast.
  { by rewrite (turn_throws_cast clock id doc counts w e Hcast). }
  assert (timestamp_or_null v /\ v <> JUndefined) as [Hts Hdef].
  { unfold Article.cast_update in Hcast. rewrite Hdoc in Hcast.
    destruct Hv as [-> | [[t | ] ->]]; [ | | done ].
    - split; [ by left | done ].
    - split; [ right; by exists t | done ]. }
  assert (forall r, timestamp_or_null
            (get (Article.apply_set (Article.set_fields (clock (reads w)) doc) r) "pubDate"))
    as Hset.
  { intros r. unfold get. by rewrite (set_lookup_supplied _ doc r "pubDate" v). }
  destruct (turn_cases clock id doc counts w)
    as [(e & -> & _) | [(i & r & Hf & Hr & Hid & _ & ->) | (Hf & _ & ->)]];
    cbn [snd collection db set_collection set_db tick].
  - done.
  - apply Forall_insert; [ done | apply Hset ].
  - apply Forall_app. split; [ done | ]. constructor; [ apply Hset | constructor ].
Qed.

Lemma buildDoc_date_or_null (art : Doc) :
  exists v, buildDoc E art !! "pubDate" = Some v /\ (v = JNull \/ exists t, v = JDate t).
Proof.
  eexists. split; [ apply buildDoc_pubDate | ].
  destruct (truthy (get art "pubDate")); [ right | by left ].
  destruct (get art "pubDate"); cbn; eauto.
Qed.

Lemma run_keeps_dated (f : FetchOutcome) (w : World) :
  well_dated (collection (db w)) ->
  well_dated (collection (db (fetchAndStoreNews E clock f w).2)).
Proof.
  intros Hw. destruct f as [err | [ | [ | art arts] | ]]; try exact Hw.
  rewrite fetch_articles.
  pose proof (for_of_invariant (fun w' => well_dated (collection (db w')))
                (store_article E clock)) as Hinv.
  specialize (Hinv ltac:(
    intros x acc w1 Hk; rewrite store_article_turn;
    destruct (buildDoc_date_or_null x) as (v & Hv & Hcase);
    by apply (turn_keeps_dated _ _ v))).
  specialize (Hinv (art :: arts) (0, 0) (started clock w) Hw).
  destruct (for_of (art :: arts) (store_article E clock) (0, 0) (started clock w))
    as [[c | e | ] w']; exact Hinv.
Qed.

(** X22.  The job never files an Invalid Date: when every document of the
    store has a [pubDate] that is a date or [null], this is still so
    after any number of runs, whatever the feed delivers (an article
    whose [pubDate] cannot be read is rejected by the cast of the
    schema).  So it is in a store that the job has filled from empty. *)
Theorem X22_store_holds_no_invalid_date (fetches : list FetchOutcome) (w : World) :
  well_dated (collection (db w)) ->
  well_dated (collection (db (scheduled E clock fetches w).2)).
Proof.
  revert w. induction fetches as [ | f rest IH]; intros w Hw; [ exact Hw | ].
  rewrite scheduled_cons. apply IH. by apply run_keeps_dated.
Qed.
End Dates.

Lemma X22_store_holds_no_invalid_date_witness :
  well_dated
    (collection (db (scheduled iso_utc clock_demo
                       [Resolved (ResultsArray [art_dated; art_bad_date])]
                       world_empty).2)).
Proof.
  apply (X22_store_holds_no_invalid_date iso_utc clock_demo
           [Resolved (ResultsArray [art_dated; art_bad_date])] world_empty).
  constructor.
Defined.
